(** * SlicerMarkupsToModel: curve generation

    A shallow embedding of
    [MarkupsToModel/Logic/vtkSlicerMarkupsToModelCurveGeneration.cxx]
    and the properties its specification states about it.

    Conventions of the embedding.
    - A C++ [double] is a carrier of the class [Scalar]: the operations the
      source applies to doubles, nothing more.  Two instances are given:
      [binary64] (IEEE 754 double precision, on which every definition
      computes) and [exact] (the real numbers, the "exact real-valued
      coordinate" of the specification's data model).
    - A pointer argument that the source tests against [NULL] is an
      [option]; the pointee's state is threaded explicitly.
    - [vtkGenericWarningMacro] appends a [Warning] to the log a function
      returns.
    - The VTK filters the source only calls (tube filter, sphere source,
      splines, least-squares solver) are collaborators: their outputs are
      either symbolic constructors of [vtkPolyData] or operations of the
      class [Collaborators].
    - A C++ [int] is a [Z] (a loop counter that starts at 0 is a [nat]);
      signed overflow is undefined in the source and is not modelled.
    - Properties that only depend on the structure of the code are proved
      for every [Scalar]; properties that need the laws of arithmetic
      (0 / x = 0, x / x = 1, order) are proved for [exact]; runs on
      concrete points are evaluated in [binary64]. *)

From Stdlib Require Import ZArith Reals Lra Lia.
From Stdlib Require PrimFloat Uint63.
From stdpp Require Import base option list.

(** ** Scalars *)

Class Scalar : Type := {
  double : Type;
  of_int : Z -> double;                    (* (double) i *)
  dadd : double -> double -> double;
  dsub : double -> double -> double;
  dmul : double -> double -> double;
  ddiv : double -> double -> double;
  dsqrt : double -> double;                (* sqrt *)
  dpow : double -> nat -> double;          (* std::pow(x, c), c a loop counter *)
  dltb : double -> double -> bool;         (* x < y *)
  dleb : double -> double -> bool;         (* x <= y *)
  deqb : double -> double -> bool;         (* x == y *)
  VTK_DOUBLE_MAX : double }.

Declare Scope double_scope.
Delimit Scope double_scope with D.
Infix "+" := dadd : double_scope.
Infix "-" := dsub : double_scope.
Infix "*" := dmul : double_scope.
Infix "/" := ddiv : double_scope.
Infix "<?" := dltb : double_scope.
Infix "<=?" := dleb : double_scope.
Infix "=?" := deqb : double_scope.

Module Binary64.
Import PrimFloat.

Definition float_of_int (z : Z) : float :=
  if (z <? 0)%Z then opp (of_uint63 (Uint63.of_Z (- z)))
  else of_uint63 (Uint63.of_Z z).

(* std::pow with a small non-negative integer exponent, by repeated
   multiplication *)
Fixpoint float_pow (x : float) (c : nat) : float :=
  match c with
  | O => one
  | S c' => mul x (float_pow x c')
  end.

Definition float_max : float := 0x1.fffffffffffffp+1023%float.

End Binary64.

(** IEEE 754 binary64: the arithmetic the compiled code performs. *)
Definition binary64 : Scalar :=
  {| double := PrimFloat.float;
     of_int := Binary64.float_of_int;
     dadd := PrimFloat.add; dsub := PrimFloat.sub;
     dmul := PrimFloat.mul; ddiv := PrimFloat.div;
     dsqrt := PrimFloat.sqrt; dpow := Binary64.float_pow;
     dltb := PrimFloat.ltb; dleb := PrimFloat.leb; deqb := PrimFloat.eqb;
     VTK_DOUBLE_MAX := Binary64.float_max |}.

Definition Rltb (x y : R) : bool := if Rlt_dec x y then true else false.
Definition Rleb (x y : R) : bool := if Rle_dec x y then true else false.
Definition Reqb (x y : R) : bool := if Req_dec_T x y then true else false.

(** Exact real arithmetic: the specification's reading of a coordinate. *)
Definition exact : Scalar :=
  {| double := R;
     of_int := IZR;
     dadd := Rplus; dsub := Rminus; dmul := Rmult; ddiv := Rdiv;
     dsqrt := sqrt; dpow := pow;
     dltb := Rltb; dleb := Rleb; deqb := Reqb;
     VTK_DOUBLE_MAX := IZR ((2 ^ 53 - 1) * 2 ^ 971) |}.

(** ** Data model *)

Inductive Warning : Type :=
| PointsToConnectIsNull              (* "Points to connect is null. No model generated." *)
| OutputTubeIsNull                   (* "Output tube poly data is null. No model generated." *)
| SpherePointIsNull                  (* "Input point for sphere generation is null. ..." *)
| OutputSphereIsNull                 (* "Output sphere poly data is null. ..." *)
| ControlPointsAreNull               (* "Control points are null. No model generated." *)
| InputPointsAreNull                 (* "Input points are null. No model generated." *)
| IncorrectNumberOfPointParameters (numPoints provided : Z)
| PolynomialOrderNotSupported (desired maximum : Z)
| InputControlPointsAreNull          (* "Input control points are null. Returning." *)
| OutputControlPointParametersAreNull
| NotEnoughPoints (numPoints : Z)    (* "Not enough points to compute polynomial parameters. ..." *)
| AlreadyHasContents                 (* "pointParameters already has contents. Clearing." *)
| MstInputPointsAreNull              (* "Input points are null. Returning" *)
| MstOutputPointParametersAreNull    (* "Output point parameters are null. Returning" *)
| MinimumSpanningTreeHasDistanceZero.

(** [double point[3]] *)
Record Point {S : Scalar} : Type := mkPoint {
  coord0 : double;
  coord1 : double;
  coord2 : double }.
Arguments mkPoint {S} coord0 coord1 coord2.

(** [vtkPoints]: an index-addressable sequence of points;
    [vtkDoubleArray]: a sequence of one-component tuples. *)
Abbreviation vtkPoints := (list Point).
Abbreviation vtkDoubleArray := (list double).

Section Model.
Context {S : Scalar}.
Local Open Scope double_scope.

Definition zero : double := of_int 0.
Definition one : double := of_int 1.
Definition half : double := of_int 1 / of_int 2.   (* the literal 0.5 *)

Definition GetNumberOfPoints (points : vtkPoints) : Z := Z.of_nat (length points).

(** [SetNumberOfPoints] leaves the new slots indeterminate in VTK; the
    model fills them with the origin.  The samplers overwrite every slot
    when [tubeSegmentsBetweenControlPoints >= 1]. *)
Definition SetNumberOfPoints (n : Z) : vtkPoints :=
  replicate (Z.to_nat n) (mkPoint zero zero zero).

(** [GetPoint(i, p)]; reading past the end is undefined in VTK and yields
    the origin here. *)
Definition GetPoint (i : nat) (points : vtkPoints) : Point :=
  default (mkPoint zero zero zero) (points !! i).

(** [SetPoint(i, p)] writes an allocated slot; VTK does no bounds check,
    the model leaves the sequence alone out of range. *)
Definition SetPoint (i : nat) (p : Point) (points : vtkPoints) : vtkPoints :=
  <[i := p]> points.

(** [vtkPolyData] as far as this file builds it.  The outputs of the tube
    filter and of the sphere source are kept symbolic. *)
Inductive vtkPolyData : Type :=
| PolyDataInitialized
| PolyDataLines (points : vtkPoints) (lines : list (list nat))
| TubeFilterOutput (input : vtkPolyData) (radius : double) (numberOfSides : Z) (capping : bool)
| SphereSourceOutput (center : Point) (radius : double) (thetaResolution phiResolution : Z).

(** What a generator leaves behind: the state of the object its output
    pointer designates ([None] for a null pointer) and the warnings. *)
Record Effect : Type := mkEffect {
  polyData : option vtkPolyData;
  warnings : list Warning }.

(** ** AllocateCurvePoints (lines 43-56) *)
Definition AllocateCurvePoints (controlPoints : vtkPoints)
  (tubeSegmentsBetweenControlPoints : Z) (tubeLoop : bool) : vtkPoints :=
  let numberControlPoints := GetNumberOfPoints controlPoints in
  if tubeLoop
  then SetNumberOfPoints (numberControlPoints * tubeSegmentsBetweenControlPoints + 2)%Z
  else SetNumberOfPoints ((numberControlPoints - 1) * tubeSegmentsBetweenControlPoints + 1)%Z.

(** ** CloseLoop (lines 59-75) *)
Definition CloseLoop (outputPoints : vtkPoints) : vtkPoints :=
  let point0 := GetPoint 0 outputPoints in
  let point1 := GetPoint 1 outputPoints in
  let finalPoint :=
    mkPoint (coord0 point0 * half + coord0 point1 * half)
            (coord1 point0 * half + coord1 point1 * half)
            (coord2 point0 * half + coord2 point1 * half) in
  let outputPoints := SetPoint 0 finalPoint outputPoints in
  let finalIndex := (GetNumberOfPoints outputPoints - 1)%Z in
  SetPoint (Z.to_nat finalIndex) finalPoint outputPoints.

(** ** GetTubePolyDataFromPoints (lines 170-212) *)
Definition lineCell (numPoints : nat) : list nat := seq 0 numPoints.

Definition GetTubePolyDataFromPoints (pointsToConnect : option vtkPoints)
  (outputTube : option vtkPolyData) (tubeRadius : double) (tubeNumberOfSides : Z) : Effect :=
  match pointsToConnect, outputTube with
  | None, _ => mkEffect outputTube [PointsToConnectIsNull]
  | Some _, None => mkEffect None [OutputTubeIsNull]
  | Some points, Some _ =>
      let numPoints := length points in
      let lineCellArray := [lineCell numPoints] in
      let linePolyData := PolyDataLines points lineCellArray in
      if zero <? tubeRadius
      then mkEffect (Some (TubeFilterOutput linePolyData tubeRadius tubeNumberOfSides true)) []
      else mkEffect (Some linePolyData) []
  end.

(** ** GenerateSphereModel (lines 216-238) *)
Definition GenerateSphereModel (point : option Point) (outputSphere : option vtkPolyData)
  (sphereRadius : double) (sphereNumberOfSides : Z) : Effect :=
  match point, outputSphere with
  | None, _ => mkEffect outputSphere [SpherePointIsNull]
  | Some _, None => mkEffect None [OutputSphereIsNull]
  | Some center, Some _ =>
      mkEffect (Some (SphereSourceOutput center sphereRadius sphereNumberOfSides sphereNumberOfSides)) []
  end.

(** ** GeneratePiecewiseLinearCurveModel (lines 241-326) *)

Definition numberSegmentsToInterpolate (numberControlPoints : nat) (tubeLoop : bool) : nat :=
  if tubeLoop then numberControlPoints else (numberControlPoints - 1)%nat.

(** The inner [for] loop of lines 299-308, for one control point. *)
Definition linearSegment (controlPointCurrent controlPointNext : Point)
  (controlPointIndex : nat) (tubeSegmentsBetweenControlPoints : Z)
  (curvePoints : vtkPoints) : vtkPoints :=
  foldl (fun curvePoints i =>
           let interpolationParam := of_int (Z.of_nat i) / of_int tubeSegmentsBetweenControlPoints in
           let curvePoint :=
             mkPoint ((one - interpolationParam) * coord0 controlPointCurrent + interpolationParam * coord0 controlPointNext)
                     ((one - interpolationParam) * coord1 controlPointCurrent + interpolationParam * coord1 controlPointNext)
                     ((one - interpolationParam) * coord2 controlPointCurrent + interpolationParam * coord2 controlPointNext) in
           let curveIndex := (controlPointIndex * Z.to_nat tubeSegmentsBetweenControlPoints + i)%nat in
           SetPoint curveIndex curvePoint curvePoints)
        curvePoints (seq 0 (Z.to_nat tubeSegmentsBetweenControlPoints)).

(** One turn of the [while] loop of lines 287-311; the state is
    [(controlPointIndexNext, curvePoints)]. *)
Definition linearStep (controlPoints : vtkPoints) (tubeSegmentsBetweenControlPoints : Z)
  (st : nat * vtkPoints) (controlPointIndex : nat) : nat * vtkPoints :=
  let '(controlPointIndexNext, curvePoints) := st in
  let numberControlPoints := length controlPoints in
  let controlPointCurrent := GetPoint controlPointIndex controlPoints in
  let controlPointIndexNext :=
    if (numberControlPoints <=? controlPointIndexNext)%nat then 0%nat else controlPointIndexNext in
  let controlPointNext := GetPoint controlPointIndexNext controlPoints in
  (Datatypes.S controlPointIndexNext,
   linearSegment controlPointCurrent controlPointNext controlPointIndex
     tubeSegmentsBetweenControlPoints curvePoints).

(** Lines 312-317, shared verbatim by the three interpolating samplers:
    the final control point. *)
Definition setFinalPoint (controlPoints : vtkPoints) (tubeSegmentsBetweenControlPoints : Z)
  (tubeLoop : bool) (curvePoints : vtkPoints) : vtkPoints :=
  let numberControlPoints := length controlPoints in
  let segments := numberSegmentsToInterpolate numberControlPoints tubeLoop in
  let controlPointIndex := (segments mod numberControlPoints)%nat in
  let finalPoint := GetPoint controlPointIndex controlPoints in
  let finalIndex := (tubeSegmentsBetweenControlPoints * Z.of_nat segments)%Z in
  SetPoint (Z.to_nat finalIndex) finalPoint curvePoints.

(** Lines 320-323 (and 410-413, 502-505). *)
Definition closeIfLooped (tubeLoop : bool) (curvePoints : vtkPoints) : vtkPoints :=
  if tubeLoop then CloseLoop curvePoints else curvePoints.

(** The curve points of lines 271-317, before the seam is treated. *)
Definition PiecewiseLinearSamples (controlPoints : vtkPoints)
  (tubeSegmentsBetweenControlPoints : Z) (tubeLoop : bool) : vtkPoints :=
  let numberControlPoints := length controlPoints in
  let curvePoints := AllocateCurvePoints controlPoints tubeSegmentsBetweenControlPoints tubeLoop in
  let segments := numberSegmentsToInterpolate numberControlPoints tubeLoop in
  let '(_, curvePoints) :=
    foldl (linearStep controlPoints tubeSegmentsBetweenControlPoints)
          (1%nat, curvePoints) (seq 0 segments) in
  setFinalPoint controlPoints tubeSegmentsBetweenControlPoints tubeLoop curvePoints.

(** The dense point sequence handed to the mesh builder (lines 271-323). *)
Definition PiecewiseLinearCurvePoints (controlPoints : vtkPoints)
  (tubeSegmentsBetweenControlPoints : Z) (tubeLoop : bool) : vtkPoints :=
  closeIfLooped tubeLoop
    (PiecewiseLinearSamples controlPoints tubeSegmentsBetweenControlPoints tubeLoop).

Definition GeneratePiecewiseLinearCurveModel (controlPoints : option vtkPoints)
  (outputTubePolyData : option vtkPolyData) (tubeRadius : double) (tubeNumberOfSides : Z)
  (tubeSegmentsBetweenControlPoints : Z) (tubeLoop : bool) : Effect :=
  match controlPoints, outputTubePolyData with
  | None, _ => mkEffect outputTubePolyData [ControlPointsAreNull]
  | Some _, None => mkEffect None [OutputTubeIsNull]
  | Some points, Some _ =>
      let numberControlPoints := GetNumberOfPoints points in
      if (numberControlPoints <=? 0)%Z then mkEffect outputTubePolyData []
      else if (numberControlPoints =? 1)%Z then
        GenerateSphereModel (Some (GetPoint 0 points)) outputTubePolyData tubeRadius tubeNumberOfSides
      else
        let curvePoints :=
          PiecewiseLinearCurvePoints points tubeSegmentsBetweenControlPoints tubeLoop in
        GetTubePolyDataFromPoints (Some curvePoints) outputTubePolyData tubeRadius tubeNumberOfSides
  end.

(** ** Splines (lines 78-167)

    A spline object is the record of what this file sets on it; evaluating
    it is VTK's business ([Collaborators]). *)
Record vtkCardinalSpline : Type := mkCardinalSpline {
  cardinalClosed : bool;
  cardinalPoints : list (double * double) }.

Record vtkKochanekSpline : Type := mkKochanekSpline {
  kochanekClosed : bool;
  kochanekDefaultBias : option double;
  kochanekDefaultContinuity : option double;
  kochanekDefaultTension : option double;
  kochanekPoints : list (double * double);
  kochanekLeftConstraint : option Z;
  kochanekLeftValue : option double;
  kochanekRightConstraint : option Z;
  kochanekRightValue : option double }.

(** The collaborators whose results the source consumes as numbers. *)
Class Collaborators : Type := {
  CardinalEvaluate : vtkCardinalSpline -> double -> double;
  KochanekEvaluate : vtkKochanekSpline -> double -> double;
  (* vtkMath::SolveLeastSquares(numberOfSamples, xt, xOrder, yt, yOrder, mt):
     the matrices are the row-major buffers the row pointers point into;
     the result is the buffer behind [mt] after the call. *)
  SolveLeastSquares : Z -> list double -> Z -> list double -> Z -> list double -> list double }.

Context {C : Collaborators}.

(** The [AddPoint(i, point[k])] loop shared by both [Set...SplineParameters]. *)
Definition splineKnots (controlPoints : vtkPoints) (coordinate : Point -> double)
  : list (double * double) :=
  foldl (fun knots i =>
           let point := GetPoint i controlPoints in
           knots ++ [(of_int (Z.of_nat i), coordinate point)])
        [] (seq 0 (length controlPoints)).

Definition SetCardinalSplineParameters (controlPoints : vtkPoints) (tubeLoop : bool)
  : vtkCardinalSpline * vtkCardinalSpline * vtkCardinalSpline :=
  let closed := if tubeLoop then true else false in
  (mkCardinalSpline closed (splineKnots controlPoints coord0),
   mkCardinalSpline closed (splineKnots controlPoints coord1),
   mkCardinalSpline closed (splineKnots controlPoints coord2)).

Definition SetKochanekSplineParameters (controlPoints : vtkPoints) (tubeLoop : bool)
  (kochanekBias kochanekContinuity kochanekTension : double)
  (kochanekEndsCopyNearestDerivatives : bool)
  : vtkKochanekSpline * vtkKochanekSpline * vtkKochanekSpline :=
  let closed := if tubeLoop then true else false in
  let numberControlPoints := length controlPoints in
  let spline (coordinate : Point -> double) :=
    let knots := splineKnots controlPoints coordinate in
    if kochanekEndsCopyNearestDerivatives then
      let point0 := GetPoint 0 controlPoints in
      let point1 := GetPoint 1 controlPoints in
      let pointNMinus2 := GetPoint (numberControlPoints - 2) controlPoints in
      let pointNMinus1 := GetPoint (numberControlPoints - 1) controlPoints in
      mkKochanekSpline closed (Some kochanekBias) (Some kochanekContinuity) (Some kochanekTension)
        knots
        (Some 1%Z) (Some (coordinate point1 - coordinate point0))
        (Some 1%Z) (Some (coordinate pointNMinus1 - coordinate pointNMinus2))
    else
      mkKochanekSpline closed (Some kochanekBias) (Some kochanekContinuity) (Some kochanekTension)
        knots (Some 0%Z) None (Some 0%Z) None in
  (spline coord0, spline coord1, spline coord2).

(** The sampling loops of lines 384-401 and 476-493 are the same text up to
    the spline class; [evaluate] stands for the three [Evaluate] calls. *)
Definition splineSegment (evaluate : double -> Point) (controlPointIndex : nat)
  (tubeSegmentsBetweenControlPoints : Z) (curvePoints : vtkPoints) : vtkPoints :=
  foldl (fun curvePoints i =>
           let interpolationParam :=
             of_int (Z.of_nat controlPointIndex)
             + of_int (Z.of_nat i) / of_int tubeSegmentsBetweenControlPoints in
           let curvePoint := evaluate interpolationParam in
           let curveIndex := (controlPointIndex * Z.to_nat tubeSegmentsBetweenControlPoints + i)%nat in
           SetPoint curveIndex curvePoint curvePoints)
        curvePoints (seq 0 (Z.to_nat tubeSegmentsBetweenControlPoints)).

Definition SplineSamples (evaluate : double -> Point) (controlPoints : vtkPoints)
  (tubeSegmentsBetweenControlPoints : Z) (tubeLoop : bool) : vtkPoints :=
  let numberControlPoints := length controlPoints in
  let curvePoints := AllocateCurvePoints controlPoints tubeSegmentsBetweenControlPoints tubeLoop in
  let segments := numberSegmentsToInterpolate numberControlPoints tubeLoop in
  let curvePoints :=
    foldl (fun curvePoints controlPointIndex =>
             splineSegment evaluate controlPointIndex tubeSegmentsBetweenControlPoints curvePoints)
          curvePoints (seq 0 segments) in
  setFinalPoint controlPoints tubeSegmentsBetweenControlPoints tubeLoop curvePoints.

Definition SplineCurvePoints (evaluate : double -> Point) (controlPoints : vtkPoints)
  (tubeSegmentsBetweenControlPoints : Z) (tubeLoop : bool) : vtkPoints :=
  closeIfLooped tubeLoop
    (SplineSamples evaluate controlPoints tubeSegmentsBetweenControlPoints tubeLoop).

(** The three [Evaluate] calls of lines 393-395 and 485-487. *)
Definition cardinalEvaluate3 (controlPoints : vtkPoints) (tubeLoop : bool) (t : double) : Point :=
  let '(splineX, splineY, splineZ) := SetCardinalSplineParameters controlPoints tubeLoop in
  mkPoint (CardinalEvaluate splineX t) (CardinalEvaluate splineY t) (CardinalEvaluate splineZ t).

Definition kochanekEvaluate3 (controlPoints : vtkPoints) (tubeLoop : bool)
  (kochanekBias kochanekContinuity kochanekTension : double)
  (kochanekEndsCopyNearestDerivatives : bool) (t : double) : Point :=
  let '(splineX, splineY, splineZ) :=
    SetKochanekSplineParameters controlPoints tubeLoop kochanekBias kochanekContinuity
      kochanekTension kochanekEndsCopyNearestDerivatives in
  mkPoint (KochanekEvaluate splineX t) (KochanekEvaluate splineY t) (KochanekEvaluate splineZ t).

Definition CardinalSplineCurvePoints (controlPoints : vtkPoints)
  (tubeSegmentsBetweenControlPoints : Z) (tubeLoop : bool) : vtkPoints :=
  SplineCurvePoints (cardinalEvaluate3 controlPoints tubeLoop)
    controlPoints tubeSegmentsBetweenControlPoints tubeLoop.

Definition KochanekSplineCurvePoints (controlPoints : vtkPoints)
  (tubeSegmentsBetweenControlPoints : Z) (tubeLoop : bool)
  (kochanekBias kochanekContinuity kochanekTension : double)
  (kochanekEndsCopyNearestDerivatives : bool) : vtkPoints :=
  SplineCurvePoints
    (kochanekEvaluate3 controlPoints tubeLoop kochanekBias kochanekContinuity kochanekTension
       kochanekEndsCopyNearestDerivatives)
    controlPoints tubeSegmentsBetweenControlPoints tubeLoop.

(** ** GenerateCardinalSplineCurveModel (lines 329-416) *)
Definition GenerateCardinalSplineCurveModel (controlPoints : option vtkPoints)
  (outputTubePolyData : option vtkPolyData) (tubeRadius : double) (tubeNumberOfSides : Z)
  (tubeSegmentsBetweenControlPoints : Z) (tubeLoop : bool) : Effect :=
  match controlPoints, outputTubePolyData with
  | None, _ => mkEffect outputTubePolyData [ControlPointsAreNull]
  | Some _, None => mkEffect None [OutputTubeIsNull]
  | Some points, Some _ =>
      let numberControlPoints := GetNumberOfPoints points in
      if (numberControlPoints <=? 0)%Z then mkEffect outputTubePolyData []
      else if (numberControlPoints =? 1)%Z then
        GenerateSphereModel (Some (GetPoint 0 points)) outputTubePolyData tubeRadius tubeNumberOfSides
      else if (numberControlPoints =? 2)%Z then
        GeneratePiecewiseLinearCurveModel controlPoints outputTubePolyData tubeRadius
          tubeNumberOfSides tubeSegmentsBetweenControlPoints tubeLoop
      else
        let curvePoints :=
          CardinalSplineCurvePoints points tubeSegmentsBetweenControlPoints tubeLoop in
        GetTubePolyDataFromPoints (Some curvePoints) outputTubePolyData tubeRadius tubeNumberOfSides
  end.

(** ** GenerateKochanekSplineCurveModel (lines 419-508) *)
Definition GenerateKochanekSplineCurveModel (controlPoints : option vtkPoints)
  (outputTubePolyData : option vtkPolyData) (tubeRadius : double) (tubeNumberOfSides : Z)
  (tubeSegmentsBetweenControlPoints : Z) (tubeLoop : bool)
  (kochanekBias kochanekContinuity kochanekTension : double)
  (kochanekEndsCopyNearestDerivatives : bool) : Effect :=
  match controlPoints, outputTubePolyData with
  | None, _ => mkEffect outputTubePolyData [ControlPointsAreNull]
  | Some _, None => mkEffect None [OutputTubeIsNull]
  | Some points, Some _ =>
      let numberControlPoints := GetNumberOfPoints points in
      if (numberControlPoints <=? 0)%Z then mkEffect outputTubePolyData []
      else if (numberControlPoints =? 1)%Z then
        GenerateSphereModel (Some (GetPoint 0 points)) outputTubePolyData tubeRadius tubeNumberOfSides
      else if (numberControlPoints =? 2)%Z then
        GeneratePiecewiseLinearCurveModel controlPoints outputTubePolyData tubeRadius
          tubeNumberOfSides tubeSegmentsBetweenControlPoints tubeLoop
      else
        let curvePoints :=
          KochanekSplineCurvePoints points tubeSegmentsBetweenControlPoints tubeLoop
            kochanekBias kochanekContinuity kochanekTension kochanekEndsCopyNearestDerivatives in
        GetTubePolyDataFromPoints (Some curvePoints) outputTubePolyData tubeRadius tubeNumberOfSides
  end.

(** ** vtkDoubleArray, as the parameterizers use it *)
Definition GetNumberOfTuples (array : vtkDoubleArray) : Z := Z.of_nat (length array).
Definition GetValue (i : nat) (array : vtkDoubleArray) : double := default zero (array !! i).
Definition RemoveLastTuple (array : vtkDoubleArray) : vtkDoubleArray := removelast array.
Definition InsertNextTuple1 (x : double) (array : vtkDoubleArray) : vtkDoubleArray := array ++ [x].

(** [while (pointParameters->GetNumberOfTuples()) pointParameters->RemoveLastTuple();]
    Each turn shortens the array by one, so [length array] turns are all
    the loop can take. *)
Fixpoint removeTuples (turns : nat) (array : vtkDoubleArray) : vtkDoubleArray :=
  match turns with
  | O => array
  | Datatypes.S turns' =>
      if (GetNumberOfTuples array =? 0)%Z then array
      else removeTuples turns' (RemoveLastTuple array)
  end.

(** Lines 718-724. *)
Definition clearPointParameters (pointParameters : vtkDoubleArray)
  : vtkDoubleArray * list Warning :=
  if (GetNumberOfTuples pointParameters =? 0)%Z then (pointParameters, [])
  else (removeTuples (length pointParameters) pointParameters, [AlreadyHasContents]).

(** How a parameterizer came back: it reached the assignment loop, or it
    left through one of its guarded [return]s. *)
Inductive Completion : Type := ParametersAssigned | ReturnedEarly.

Record ParameterRun : Type := mkParameterRun {
  completion : Completion;
  pointParametersAfter : option vtkDoubleArray;
  parameterWarnings : list Warning }.

(** ** ComputePointParametersFromIndices (lines 696-731) *)
Definition ComputePointParametersFromIndices (points : option vtkPoints)
  (pointParameters : option vtkDoubleArray) : ParameterRun :=
  match points, pointParameters with
  | None, _ => mkParameterRun ReturnedEarly pointParameters [InputControlPointsAreNull]
  | Some _, None => mkParameterRun ReturnedEarly None [OutputControlPointParametersAreNull]
  | Some points, Some array =>
      let numPoints := GetNumberOfPoints points in
      if (numPoints <? 2)%Z
      then mkParameterRun ReturnedEarly pointParameters [NotEnoughPoints numPoints]
      else
        let '(array, log) := clearPointParameters array in
        let array :=
          foldl (fun array v =>
                   InsertNextTuple1 (of_int (Z.of_nat v) / of_int (numPoints - 1)) array)
                array (seq 0 (Z.to_nat numPoints)) in
        mkParameterRun ParametersAssigned (Some array) log
  end.

(** ** GeneratePolynomialCurveModel (lines 511-693) *)

(** Lines 574-581. *)
Definition clampPolynomialOrder (polynomialOrder : Z) : Z * list Warning :=
  let maximumPolynomialOrder := 6%Z in
  if (maximumPolynomialOrder <? polynomialOrder)%Z
  then (maximumPolynomialOrder,
        [PolynomialOrderNotSupported polynomialOrder maximumPolynomialOrder])
  else (polynomialOrder, []).

(** [std::set<double>::insert]: equivalence is "neither is less". *)
Definition setInsert (x : double) (set : list double) : list double :=
  if existsb (fun y => negb (x <? y) && negb (y <? x)) set then set else set ++ [x].

(** Lines 583-593. *)
Definition numberOfPolynomialCoefficients (polynomialOrder : Z) (numPoints : nat)
  (pointParameters : vtkDoubleArray) : Z :=
  let numPolynomialCoefficients := (polynomialOrder + 1)%Z in
  let uniquePointParameters :=
    foldl (fun set i => setInsert (GetValue i pointParameters) set) [] (seq 0 numPoints) in
  let numUniquePointParameters := Z.of_nat (length uniquePointParameters) in
  if (numUniquePointParameters <? numPolynomialCoefficients)%Z
  then numUniquePointParameters
  else numPolynomialCoefficients.

(** Lines 596-606: the design matrix, row-major. *)
Definition independentValues (numPoints numPolynomialCoefficients : nat)
  (pointParameters : vtkDoubleArray) : list double :=
  foldl (fun values c =>
           foldl (fun values p =>
                    let value := dpow (GetValue p pointParameters) c in
                    <[(p * numPolynomialCoefficients + c)%nat := value]> values)
                 values (seq 0 numPoints))
        (replicate (numPoints * numPolynomialCoefficients) zero)
        (seq 0 numPolynomialCoefficients).

Definition coordinate (point : Point) (d : nat) : double :=
  match d with
  | 0%nat => coord0 point
  | 1%nat => coord1 point
  | _ => coord2 point
  end.

(** Lines 616-628: the target matrix, row-major. *)
Definition dependentValues (points : vtkPoints) : list double :=
  let numDimensions := 3%nat in
  let numPoints := length points in
  foldl (fun values p =>
           let currentPoint := GetPoint p points in
           foldl (fun values d =>
                    <[(p * numDimensions + d)%nat := coordinate currentPoint d]> values)
                 values (seq 0 numDimensions))
        (replicate (numPoints * numDimensions) zero)
        (seq 0 numPoints).

(** [vtkPoints::InsertPoint(i, p)] grows the sequence when needed. *)
Definition InsertPoint (i : nat) (p : Point) (points : vtkPoints) : vtkPoints :=
  if (i <? length points)%nat then <[i := p]> points
  else points ++ replicate (i - length points) (mkPoint zero zero zero) ++ [p].

(** Lines 658-667: one sample of the fitted polynomial. *)
Definition polynomialPoint (coefficientValues : list double) (numPolynomialCoefficients : nat)
  (numPointsOnCurve : Z) (p : nat) : Point :=
  let numDimensions := 3%nat in
  let component (d : nat) : double :=
    foldl (fun pointMm_d c =>
             let coefficient := GetValue (c * numDimensions + d) coefficientValues in
             pointMm_d
             + coefficient * dpow (of_int (Z.of_nat p) / of_int (numPointsOnCurve - 1)) c)
          zero (seq 0 numPolynomialCoefficients) in
  mkPoint (component 0%nat) (component 1%nat) (component 2%nat).

(** Lines 652-670: the samples and the cell that visits them. *)
Definition polynomialSamples (coefficientValues : list double) (numPolynomialCoefficients : nat)
  (numPointsOnCurve : Z) : vtkPoints * list nat :=
  foldl (fun '(smoothedPoints, cell) p =>
           (InsertPoint p
              (polynomialPoint coefficientValues numPolynomialCoefficients numPointsOnCurve p)
              smoothedPoints,
            cell ++ [p]))
        ([], []) (seq 0 (Z.to_nat numPointsOnCurve)).

(** How the polynomial generator came back.
    - [PolynomialReturned]: a normal return; the effect is on
      [outputTubePolyData].
    - [PolynomialCopiedToOutputTube]: line 690 deep-copies the line mesh
      through the name [outputTube], which is not this function's output
      parameter [outputTubePolyData]; the effect records that the latter
      is left as it was, [copied] is the mesh that went to [outputTube].
    - [PolynomialThrows]: a [std::vector] whose size depends on the
      number of coefficients (lines 597, 639, 641) is constructed with a
      negative [int]; the size converts to a [size_type] above
      [max_size()] and the constructor throws [std::length_error].  The
      exception leaves the function: the effect records the output
      object, not written yet, and the warnings issued until then.
    With zero coefficients nothing throws: these vectors are empty, the
    loops over the coefficients do not run, and the function goes on to
    the solver and to the samples. *)
Inductive PolynomialOutcome : Type :=
| PolynomialReturned (effect : Effect)
| PolynomialCopiedToOutputTube (effect : Effect) (copied : vtkPolyData)
| PolynomialThrows (effect : Effect).

(** Lines 560-691, once the parameter array is settled. *)
Definition fitPolynomialCurve (points : vtkPoints) (outputTubePolyData : option vtkPolyData)
  (tubeRadius : double) (tubeNumberOfSides : Z) (tubeSegmentsBetweenControlPoints : Z)
  (polynomialOrder : Z) (pointParameters : vtkDoubleArray) (log : list Warning)
  : PolynomialOutcome :=
  let numPoints := GetNumberOfPoints points in
  let '(polynomialOrder, orderLog) := clampPolynomialOrder polynomialOrder in
  let log := log ++ orderLog in
  let numPolynomialCoefficients :=
    numberOfPolynomialCoefficients polynomialOrder (length points) pointParameters in
  let numDimensions := 3%Z in
  let numIndependentValues := (numPoints * numPolynomialCoefficients)%Z in
  let totalNumberCoefficients := (numDimensions * numPolynomialCoefficients)%Z in
  if (numIndependentValues <? 0)%Z || (totalNumberCoefficients <? 0)%Z
  then PolynomialThrows (mkEffect outputTubePolyData log)
  else
    let coefficientValues :=
      SolveLeastSquares numPoints
        (independentValues (length points) (Z.to_nat numPolynomialCoefficients) pointParameters)
        numPolynomialCoefficients
        (dependentValues points)
        numDimensions
        (replicate (Z.to_nat totalNumberCoefficients) zero) in
    let numPointsOnCurve := ((numPoints - 1) * tubeSegmentsBetweenControlPoints + 1)%Z in
    let '(smoothedPoints, smoothedLine) :=
      polynomialSamples coefficientValues (Z.to_nat numPolynomialCoefficients) numPointsOnCurve in
    let smoothedSegments := PolyDataLines smoothedPoints [smoothedLine] in
    if zero <? tubeRadius
    then PolynomialReturned
           (mkEffect (Some (TubeFilterOutput smoothedSegments tubeRadius tubeNumberOfSides true)) log)
    else PolynomialCopiedToOutputTube (mkEffect outputTubePolyData log) smoothedSegments.

Definition GeneratePolynomialCurveModel (points : option vtkPoints)
  (outputTubePolyData : option vtkPolyData) (tubeRadius : double) (tubeNumberOfSides : Z)
  (tubeSegmentsBetweenControlPoints : Z) (tubeLoop : bool) (polynomialOrder : Z)
  (inputPointParameters : option vtkDoubleArray) : PolynomialOutcome :=
  match points, outputTubePolyData with
  | None, _ => PolynomialReturned (mkEffect outputTubePolyData [InputPointsAreNull])
  | Some _, None => PolynomialReturned (mkEffect None [OutputTubeIsNull])
  | Some pts, Some _ =>
      let numPoints := GetNumberOfPoints pts in
      if (numPoints <=? 0)%Z then PolynomialReturned (mkEffect outputTubePolyData [])
      else if (numPoints =? 1)%Z then
        PolynomialReturned
          (GenerateSphereModel (Some (GetPoint 0 pts)) outputTubePolyData tubeRadius tubeNumberOfSides)
      else if (numPoints =? 2)%Z then
        PolynomialReturned
          (GeneratePiecewiseLinearCurveModel points outputTubePolyData tubeRadius
             tubeNumberOfSides tubeSegmentsBetweenControlPoints tubeLoop)
      else
        match inputPointParameters with
        | None =>
            let run := ComputePointParametersFromIndices points (Some []) in
            fitPolynomialCurve pts outputTubePolyData tubeRadius tubeNumberOfSides
              tubeSegmentsBetweenControlPoints polynomialOrder
              (default [] (pointParametersAfter run)) (parameterWarnings run)
        | Some pointParameters =>
            if negb (GetNumberOfTuples pointParameters =? numPoints)%Z
            then PolynomialReturned
                   (mkEffect outputTubePolyData
                      [IncorrectNumberOfPointParameters numPoints
                         (GetNumberOfTuples pointParameters)])
            else fitPolynomialCurve pts outputTubePolyData tubeRadius tubeNumberOfSides
                   tubeSegmentsBetweenControlPoints polynomialOrder pointParameters []
        end
  end.

(** ** ComputePointParametersFromMinimumSpanningTree (lines 734-925) *)

(** Lines 777-783. *)
Definition distance3D (pointU pointV : Point) : double :=
  let distX := coord0 pointU - coord0 pointV in
  let distXsq := distX * distX in
  let distY := coord1 pointU - coord1 pointV in
  let distYsq := distY * distY in
  let distZ := coord2 pointU - coord2 pointV in
  let distZsq := distZ * distZ in
  dsqrt (distXsq + distYsq + distZsq).

Record FarthestPair : Type := mkFarthestPair {
  distances : list double;
  treeStartIndex : nat;
  treeEndIndex : nat;
  maximumDistance : double }.

(** Lines 766-792: the distance matrix and the farthest pair. *)
Definition farthestPair (points : vtkPoints) : FarthestPair :=
  let numPoints := length points in
  foldl (fun st v =>
           foldl (fun st u =>
                    let pointU := GetPoint u points in
                    let pointV := GetPoint v points in
                    let dist3D := distance3D pointU pointV in
                    let distances := <[(v * numPoints + u)%nat := dist3D]> (distances st) in
                    if maximumDistance st <? dist3D
                    then mkFarthestPair distances v u dist3D
                    else mkFarthestPair distances (treeStartIndex st) (treeEndIndex st)
                           (maximumDistance st))
                 st (seq 0 numPoints))
        (mkFarthestPair (replicate (numPoints * numPoints) zero) 0 0 zero)
        (seq 0 numPoints).

(** [graph[v][u]]: row [v] of the flat matrix (lines 794-798). *)
Definition graph (numPoints : nat) (distances : list double) (v u : nat) : double :=
  GetValue (v * numPoints + u) distances.

Record Prim : Type := mkPrim {
  parent : list Z;
  key : list double;
  mstSet : list bool }.

(** Lines 802-815. *)
Definition primInitial (numPoints treeStartIndex : nat) : Prim :=
  mkPrim (<[treeStartIndex := (-1)%Z]> (replicate numPoints 0%Z))
         (<[treeStartIndex := zero]> (replicate numPoints VTK_DOUBLE_MAX))
         (replicate numPoints false).

(** Lines 822-831: the vertex of least key outside the tree, [-1] if none. *)
Definition pickNextPoint (numPoints : nat) (st : Prim) : Z :=
  fst (foldl (fun '(nextPointIndex, minDistance) v =>
                if negb (default false (mstSet st !! v)) && (GetValue v (key st) <? minDistance)
                then (Z.of_nat v, GetValue v (key st))
                else (nextPointIndex, minDistance))
             ((-1)%Z, VTK_DOUBLE_MAX) (seq 0 numPoints)).

(** Lines 839-851. *)
Definition relaxNeighbours (numPoints : nat) (distances : list double)
  (nextPointIndex : nat) (st : Prim) : Prim :=
  foldl (fun st v =>
           if (zero <=? graph numPoints distances nextPointIndex v)
              && negb (default false (mstSet st !! v))
              && (graph numPoints distances nextPointIndex v <? GetValue v (key st))
           then mkPrim (<[v := Z.of_nat nextPointIndex]> (parent st))
                       (<[v := graph numPoints distances nextPointIndex v]> (key st))
                       (mstSet st)
           else st)
        st (seq 0 numPoints).

(** One turn of the loop of lines 818-852.  [None]: no vertex was picked
    and line 834 indexes [mstSet] with [-1]. *)
Definition primStep (numPoints : nat) (distances : list double) (st : Prim) : option Prim :=
  let nextPointIndex := pickNextPoint numPoints st in
  if (nextPointIndex <? 0)%Z then None
  else
    let u := Z.to_nat nextPointIndex in
    let st := mkPrim (parent st) (key st) (<[u := true]> (mstSet st)) in
    Some (relaxNeighbours numPoints distances u st).

Fixpoint primLoop (count : nat) (numPoints : nat) (distances : list double) (st : Prim)
  : option Prim :=
  match count with
  | O => Some st
  | Datatypes.S count' =>
      match primStep numPoints distances st with
      | None => None
      | Some st' => primLoop count' numPoints distances st'
      end
  end.

(** [vector[i]] for an [int] index; [None] when out of bounds. *)
Definition at_int {A : Type} (vector : list A) (i : Z) : option A :=
  if (i <? 0)%Z then None else vector !! Z.to_nat i.

(** Lines 855-861.  The walk pushes one index per turn; [fuel] bounds the
    pushes.  With [fuel] the number of points, running out means an index
    was pushed twice, that is, the source's loop does not end. *)
Fixpoint trunkPath (fuel : nat) (parent : list Z) (currentPathIndex : Z)
  (pathIndices : list Z) : option (list Z) :=
  if (currentPathIndex =? -1)%Z then Some pathIndices
  else
    match fuel with
    | O => None
    | Datatypes.S fuel' =>
        match at_int parent currentPathIndex with
        | None => None
        | Some up => trunkPath fuel' parent up (pathIndices ++ [currentPathIndex])
        end
    end.

(** Lines 864-868. *)
Definition sumOfDistances (numPoints : nat) (distances : list double)
  (pathIndices : list Z) : double :=
  foldl (fun sum i => sum + graph numPoints distances i (i + 1))
        zero (seq 0 (length pathIndices - 1)).

(** Lines 878-885. *)
Definition pathParameters (numPoints : nat) (distances : list double)
  (pathIndices : list Z) (sumOfDistances : double) : list double :=
  let '(pathParameters, currentDistance) :=
    foldl (fun '(pathParameters, currentDistance) i =>
             (pathParameters ++ [currentDistance / sumOfDistances],
              currentDistance + graph numPoints distances i (i + 1)))
          ([], zero) (seq 0 (length pathIndices - 1)) in
  pathParameters ++ [currentDistance / sumOfDistances].

(** The [for j] searches of lines 901-909 and 913-921: the first position
    of [currentIndex] on the path. *)
Fixpoint findAlongPath (pathIndices : list Z) (currentIndex : Z) : option nat :=
  match pathIndices with
  | [] => None
  | index :: rest =>
      if (index =? currentIndex)%Z then Some 0%nat
      else Datatypes.S <$> findAlongPath rest currentIndex
  end.

(** Lines 898-922: climb from vertex [currentIndex] until the path is
    met.  [fuel] bounds the climbs as in [trunkPath]. *)
Fixpoint indexAlongPath (fuel : nat) (parent : list Z) (pathIndices : list Z)
  (currentIndex : Z) : option nat :=
  match findAlongPath pathIndices currentIndex with
  | Some j => Some j
  | None =>
      match fuel with
      | O => None
      | Datatypes.S fuel' =>
          match at_int parent currentIndex with
          | None => None
          | Some up => indexAlongPath fuel' parent pathIndices up
          end
      end
  end.

(** Lines 896-924. *)
Fixpoint assignParameters (vertices : list nat) (numPoints : nat) (parent : list Z)
  (pathIndices : list Z) (pathParameters : list double) (pointParameters : vtkDoubleArray)
  : option vtkDoubleArray :=
  match vertices with
  | [] => Some pointParameters
  | i :: rest =>
      match indexAlongPath numPoints parent pathIndices (Z.of_nat i) with
      | None => None
      | Some j =>
          match pathParameters !! j with
          | None => None
          | Some parameter =>
              assignParameters rest numPoints parent pathIndices pathParameters
                (InsertNextTuple1 parameter pointParameters)
          end
      end
  end.

(** The spanning tree and its trunk (lines 766-861). *)
Definition minimumSpanningTreeTrunk (points : vtkPoints)
  : option (list double * list Z * list Z) :=
  let numPoints := length points in
  let pair := farthestPair points in
  match primLoop (numPoints - 1) numPoints (distances pair)
          (primInitial numPoints (treeStartIndex pair)) with
  | None => None
  | Some tree =>
      match trunkPath numPoints (parent tree) (Z.of_nat (treeEndIndex pair)) [] with
      | None => None
      | Some pathIndices => Some (distances pair, parent tree, pathIndices)
      end
  end.

(** [None]: the source indexes out of bounds or does not come back. *)
Definition ComputePointParametersFromMinimumSpanningTree (points : option vtkPoints)
  (pointParameters : option vtkDoubleArray) : option ParameterRun :=
  match points, pointParameters with
  | None, _ => Some (mkParameterRun ReturnedEarly pointParameters [MstInputPointsAreNull])
  | Some _, None => Some (mkParameterRun ReturnedEarly None [MstOutputPointParametersAreNull])
  | Some pts, Some array =>
      let numPoints := length pts in
      if (GetNumberOfPoints pts <? 2)%Z
      then Some (mkParameterRun ReturnedEarly pointParameters
                   [NotEnoughPoints (GetNumberOfPoints pts)])
      else
        match minimumSpanningTreeTrunk pts with
        | None => None
        | Some (distances, parent, pathIndices) =>
            let sum := sumOfDistances numPoints distances pathIndices in
            if sum =? zero
            then Some (mkParameterRun ReturnedEarly pointParameters
                         [MinimumSpanningTreeHasDistanceZero])
            else
              let parameters := pathParameters numPoints distances pathIndices sum in
              let '(array, log) :=
                if (0 <? GetNumberOfTuples array)%Z
                then (removeTuples (length array) array, [AlreadyHasContents])
                else (array, []) in
              match assignParameters (seq 0 numPoints) numPoints parent pathIndices
                      parameters array with
              | None => None
              | Some array => Some (mkParameterRun ParametersAssigned (Some array) log)
              end
        end
  end.

End Model.

(** A stand-in for the collaborators, to run the generators on concrete
    inputs: splines that return their argument, a solver that leaves the
    coefficient buffer as it is.  Every property below is proved for all
    collaborators. *)
Definition standInCollaborators : @Collaborators binary64 :=
  {| CardinalEvaluate := fun _ t => t;
     KochanekEvaluate := fun _ t => t;
     SolveLeastSquares := fun _ _ _ _ _ mt => mt |}.

(** A point with integer coordinates, in binary64. *)
Definition P64 (x y z : Z) : @Point binary64 := mkPoint (of_int x) (of_int y) (of_int z).

(** A point with integer coordinates, in exact arithmetic. *)
Definition PR (x y z : Z) : @Point exact := mkPoint (of_int x) (of_int y) (of_int z).

(** The midpoint as [CloseLoop] computes it. *)
Definition midpoint {S : Scalar} (point0 point1 : Point) : Point :=
  mkPoint (coord0 point0 * half + coord0 point1 * half)%D
          (coord1 point0 * half + coord1 point1 * half)%D
          (coord2 point0 * half + coord2 point1 * half)%D.

(** The seam of a looped run of [numberControlPoints] control points:
    [samples] are the curve points before [CloseLoop], [dense] the points
    handed to the mesh builder.  All [N * segments + 2] slots are
    allocated; slot 0 and the last slot hold the midpoint of samples 0 and
    1; every slot in between is as sampled. *)
Definition SeamClosed {S : Scalar} (numberControlPoints : nat) (segments : Z)
  (samples dense : vtkPoints) : Prop :=
  let finalIndex := Z.to_nat (Z.of_nat numberControlPoints * segments + 1) in
  let middle := midpoint (GetPoint 0 samples) (GetPoint 1 samples) in
  dense = CloseLoop samples
  /\ length samples = Datatypes.S finalIndex
  /\ length dense = Datatypes.S finalIndex
  /\ dense !! 0%nat = Some middle
  /\ dense !! finalIndex = Some middle
  /\ head dense = last dense
  /\ (forall i, (0 < i < finalIndex)%nat -> dense !! i = samples !! i).

(** What the specification writes for the index-based parameters:
    [parameter[i] = i / (N-1)]. *)
Definition indexParameters {S : Scalar} (numPoints : nat) : list double :=
  map (fun i => (of_int (Z.of_nat i) / of_int (Z.of_nat numPoints - 1))%D) (seq 0 numPoints).

(** The parameter array the polynomial generator works with, when it
    accepts its argument: the index-based parameters for a null argument,
    the argument itself when it has one entry per point. *)
Definition acceptedParameters {S : Scalar} (numPoints : nat)
  (inputPointParameters : option vtkDoubleArray) (pointParameters : vtkDoubleArray) : Prop :=
  (inputPointParameters = None /\ pointParameters = indexParameters numPoints)
  \/ (inputPointParameters = Some pointParameters /\ length pointParameters = numPoints).

(** The line mesh ([smoothedSegments]) a polynomial run built, whichever
    way it left the function. *)
Definition smoothedSegmentsOf {S : Scalar} (outcome : PolynomialOutcome) : option vtkPolyData :=
  match outcome with
  | PolynomialReturned (mkEffect (Some (TubeFilterOutput input _ _ _)) _) => Some input
  | PolynomialCopiedToOutputTube _ copied => Some copied
  | _ => None
  end.

(** The warnings a polynomial run emitted. *)
Definition outcomeWarnings {S : Scalar} (outcome : PolynomialOutcome) : list Warning :=
  match outcome with
  | PolynomialReturned effect => warnings effect
  | PolynomialCopiedToOutputTube effect _ => warnings effect
  | PolynomialThrows effect => warnings effect
  end.

(** The trunk length in the specification's words: the sum of the edge
    lengths between consecutive vertices of the trunk path. *)
Definition trunkEdgeLengths {S : Scalar} (numPoints : nat) (distances : list double)
  (pathIndices : list Z) : list double :=
  map (fun i => graph numPoints distances
                  (Z.to_nat (nth i pathIndices 0%Z))
                  (Z.to_nat (nth (i + 1) pathIndices 0%Z)))
      (seq 0 (length pathIndices - 1)).

Definition trunkLength {S : Scalar} (numPoints : nat) (distances : list double)
  (pathIndices : list Z) : double :=
  foldl dadd zero (trunkEdgeLengths numPoints distances pathIndices).

(** ** Vocabulary of the spanning-tree properties (exact arithmetic) *)

(** The distance between points [u] and [v] of a unit-spaced line. *)
Definition gap (u v : nat) : R := Rabs (INR u - INR v).

(** Points arranged exactly along a line at unit spacing, in index
    order: any two of them are as far apart as their indices. *)
Definition UnitSpaced (points : list (@Point exact)) : Prop :=
  forall u v, (u < length points)%nat -> (v < length points)%nat ->
    @distance3D exact (GetPoint u points) (GetPoint v points) = gap u v.

(** [N] points from [origin] on, one step of [direction] apart. *)
Definition lineOfPoints (origin direction : @Point exact) (N : nat) : list (@Point exact) :=
  map (fun i => @mkPoint exact
                  (coord0 origin + INR i * coord0 direction)%R
                  (coord1 origin + INR i * coord1 direction)%R
                  (coord2 origin + INR i * coord2 direction)%R)
      (seq 0 N).

(** The trunk of a line of [N] points, from the end vertex up. *)
Definition descending (N : nat) : list Z := map Z.of_nat (rev (seq 0 N)).

(** The parameters the spanning-tree parameterizer gives a unit-spaced line. *)
Definition reversedIndexParameters (N : nat) : list (@double exact) :=
  map (fun i => (INR (N - 1 - i) / INR (N - 1))%R) (seq 0 N).

(** [VTK_DOUBLE_MAX] as a real number. *)
Definition MAX : R := @VTK_DOUBLE_MAX exact.

(** Prim's algorithm on a unit-spaced line, started at vertex 0: after
    [k] turns of the loop of lines 818-852 the vertices below [k] are in
    the tree, and vertex [v] has parent [parentAfter k v] and key
    [keyAfter k v]. *)
Definition parentAfter (k v : nat) : Z :=
  if (v =? 0)%nat then (-1)%Z
  else if (k =? 0)%nat then 0%Z
  else (Z.of_nat (Nat.min v k) - 1)%Z.

Definition keyAfter (k v : nat) : R :=
  if (v =? 0)%nat then 0%R
  else if (k =? 0)%nat then MAX
  else if (v <=? k)%nat then 1%R
  else INR (v - k + 1).

(** The distance matrix of a unit-spaced line of [N] points. *)
Definition LineMatrix (N : nat) (D : list (@double exact)) : Prop :=
  length D = (N * N)%nat
  /\ forall v u, (v < N)%nat -> (u < N)%nat -> D !! (v * N + u)%nat = Some (gap v u).

Definition PrimAfter (N k : nat) (st : @Prim exact) : Prop :=
  length (parent st) = N /\ length (key st) = N /\ length (mstSet st) = N
  /\ forall v, (v < N)%nat ->
       parent st !! v = Some (parentAfter k v)
       /\ key st !! v = Some (keyAfter k v)
       /\ mstSet st !! v = Some (v <? k)%nat.

(** The state of the loops of lines 773-792 on a unit-spaced line of [N]
    points, when row [v] is filled up to column [u]. *)
Definition rowsDone (N v u : nat) (st : @FarthestPair exact) : Prop :=
  length (distances st) = (N * N)%nat
  /\ (forall v' u', (v' < v \/ (v' = v /\ u' < u))%nat -> (v' < N)%nat -> (u' < N)%nat ->
        distances st !! (v' * N + u')%nat = Some (gap v' u'))
  /\ treeStartIndex st = 0%nat
  /\ (if (v =? 0)%nat
      then treeEndIndex st = pred u /\ maximumDistance st = INR (pred u)
      else treeEndIndex st = (N - 1)%nat /\ maximumDistance st = INR (N - 1)).

(** [walk] is the walk up the tree from [currentIndex] to the root:
    each vertex is followed by its parent, and the parent of the last
    vertex is [-1]. *)
Fixpoint chain (parent : list Z) (currentIndex : Z) (walk : list Z) : Prop :=
  match walk with
  | [] => currentIndex = (-1)%Z
  | index :: rest =>
      index = currentIndex /\ currentIndex <> (-1)%Z
      /\ exists up, at_int parent currentIndex = Some up /\ chain parent up rest
  end.

(** The running total of lines 879-884 after [j] turns. *)
Definition runningDistance (numPoints : nat) (distances : list (@double exact)) (j : nat) : R :=
  foldl (fun currentDistance i => (currentDistance + graph numPoints distances i (i + 1))%D)
        (@zero exact) (seq 0 j).

(** The root invariant of the loop of lines 818-852: the start vertex
    keeps parent [-1] and key 0, every other parent is a vertex. *)
Definition Rooted (numPoints start : nat) (st : @Prim exact) : Prop :=
  length (parent st) = numPoints
  /\ parent st !! start = Some (-1)%Z
  /\ key st !! start = Some 0%R
  /\ forall v p, v <> start -> parent st !! v = Some p -> (0 <= p)%Z.

(** ** Vocabulary of the sampling properties *)

(** The linear blend of lines 301-305 at sub-step [i]. *)
Definition blend {S : Scalar} (tubeSegmentsBetweenControlPoints : Z)
  (controlPointCurrent controlPointNext : Point) (i : nat) : Point :=
  let interpolationParam :=
    (of_int (Z.of_nat i) / of_int tubeSegmentsBetweenControlPoints)%D in
  mkPoint ((one - interpolationParam) * coord0 controlPointCurrent
           + interpolationParam * coord0 controlPointNext)%D
          ((one - interpolationParam) * coord1 controlPointCurrent
           + interpolationParam * coord1 controlPointNext)%D
          ((one - interpolationParam) * coord2 controlPointCurrent
           + interpolationParam * coord2 controlPointNext)%D.

(** The spline parameter of lines 391 and 483 at segment [k], sub-step [i]. *)
Definition splineParameter {S : Scalar} (tubeSegmentsBetweenControlPoints : Z)
  (k i : nat) : double :=
  (of_int (Z.of_nat k) + of_int (Z.of_nat i) / of_int tubeSegmentsBetweenControlPoints)%D.

(** The number of curve points [AllocateCurvePoints] makes room for. *)
Definition numberOfCurvePoints (numberControlPoints : nat) (segments : nat) (tubeLoop : bool)
  : nat :=
  if tubeLoop then (numberControlPoints * segments + 2)%nat
  else ((numberControlPoints - 1) * segments + 1)%nat.

(** What the sampling loops of lines 271-317 (371-407, 463-499) leave in
    the curve points: every slot of every segment holds its sample, and
    the slot after the last segment holds a control point itself. *)
Definition Sampled {S : Scalar} (value : nat -> nat -> Point) (controlPoints : vtkPoints)
  (segments : nat) (tubeLoop : bool) (samples : vtkPoints) : Prop :=
  let numberControlPoints := length controlPoints in
  let numberSegments := numberSegmentsToInterpolate numberControlPoints tubeLoop in
  length samples = numberOfCurvePoints numberControlPoints segments tubeLoop
  /\ (forall k i, (k < numberSegments)%nat -> (i < segments)%nat ->
        samples !! (k * segments + i)%nat = Some (value k i))
  /\ samples !! (numberSegments * segments)%nat
     = Some (GetPoint (numberSegments mod numberControlPoints) controlPoints).

(** The mesh [GetTubePolyDataFromPoints] builds from a dense point
    sequence: one polyline cell through all the points in order, wrapped
    in a capped tube when the radius is positive. *)
Definition curveMesh {S : Scalar} (curvePoints : vtkPoints) (tubeRadius : double)
  (tubeNumberOfSides : Z) : vtkPolyData :=
  let line := PolyDataLines curvePoints [seq 0 (length curvePoints)] in
  if (zero <? tubeRadius)%D then TubeFilterOutput line tubeRadius tubeNumberOfSides true
  else line.

(** ** Vocabulary of the spanning-tree loop invariants *)

(** The number of vertices in the tree. *)
Fixpoint treeSize (mstSet : list bool) : nat :=
  match mstSet with
  | [] => 0
  | inTree :: rest => (if inTree then 1 else 0) + treeSize rest
  end.

(** Vertex [v] reaches the start vertex in at most [d] steps by parent
    pointers. *)
Fixpoint Up (parent : list Z) (start d v : nat) : Prop :=
  match d with
  | O => v = start
  | Datatypes.S d' =>
      v = start \/ exists u, parent !! v = Some (Z.of_nat u) /\ Up parent start d' u
  end.

(** The same, through vertices of the tree only. *)
Fixpoint Climbs {S : Scalar} (tree : Prim) (start d v : nat) : Prop :=
  mstSet tree !! v = Some true
  /\ match d with
     | O => v = start
     | Datatypes.S d' =>
         v = start
         \/ exists u, parent tree !! v = Some (Z.of_nat u) /\ Climbs tree start d' u
     end.

(** The invariant of the loop of lines 818-852 once [k >= 1] vertices
    are in the tree: every tree vertex reaches the start vertex inside
    the tree in fewer than [k] steps; every other vertex has a key below
    [VTK_DOUBLE_MAX] and a parent in the tree. *)
Definition Grown (numPoints start k : nat) (st : @Prim exact) : Prop :=
  length (parent st) = numPoints
  /\ length (key st) = numPoints
  /\ length (mstSet st) = numPoints
  /\ treeSize (mstSet st) = k
  /\ (forall v, mstSet st !! v = Some true -> Climbs st start (k - 1) v)
  /\ (forall v, mstSet st !! v = Some false ->
        (@GetValue exact v (key st) < MAX)%R
        /\ exists u, parent st !! v = Some (Z.of_nat u) /\ mstSet st !! u = Some true).

(** Whether the test of lines 844-846 passes for vertex [v]. *)
Definition relaxes {S : Scalar} (numPoints : nat) (distances : list double)
  (nextPointIndex : nat) (st : Prim) (v : nat) : bool :=
  ((zero <=? graph numPoints distances nextPointIndex v)
   && negb (default false (mstSet st !! v))
   && (graph numPoints distances nextPointIndex v <? GetValue v (key st)))%D.

(** Reads the operations of [exact] as operations on [R]. *)
Ltac reals :=
  change (@double exact) with R in *;
  change (@dltb exact) with Rltb in *;
  change (@dleb exact) with Rleb in *;
  change (@deqb exact) with Reqb in *;
  change (@dadd exact) with Rplus in *;
  change (@ddiv exact) with Rdiv in *;
  change (@zero exact) with 0%R in *.

(** * Properties *)

(** Settles the [int] comparisons of the dispatch on the number of points. *)
Ltac decide_counts :=
  unfold GetNumberOfPoints, GetNumberOfTuples in *;
  repeat match goal with
         | |- context [(?a <=? ?b)%Z] => destruct (Z.leb_spec a b); try lia
         | |- context [(?a <? ?b)%Z] => destruct (Z.ltb_spec a b); try lia
         | |- context [(?a =? ?b)%Z] => destruct (Z.eqb_spec a b); try lia
         end.

Section Dispatch.
Context {S : Scalar} {C : Collaborators}.

(** C7. Degenerate point counts are handled alike by the four generators:
    with no point the output object is left as it was and nothing is
    reported; with one point the output is the sphere source's mesh,
    centred at that point, of radius [tubeRadius] and of resolution
    [tubeNumberOfSides] in both directions. *)
Theorem degenerate_point_counts (points : vtkPoints) (mesh : vtkPolyData)
  (tubeRadius : double) (tubeNumberOfSides segments : Z) (tubeLoop : bool)
  (bias continuity tension : double) (endsCopy : bool)
  (polynomialOrder : Z) (pointParameters : option vtkDoubleArray) :
  let linear := GeneratePiecewiseLinearCurveModel (Some points) (Some mesh) tubeRadius
                  tubeNumberOfSides segments tubeLoop in
  let cardinal := GenerateCardinalSplineCurveModel (Some points) (Some mesh) tubeRadius
                    tubeNumberOfSides segments tubeLoop in
  let kochanek := GenerateKochanekSplineCurveModel (Some points) (Some mesh) tubeRadius
                    tubeNumberOfSides segments tubeLoop bias continuity tension endsCopy in
  let polynomial := GeneratePolynomialCurveModel (Some points) (Some mesh) tubeRadius
                      tubeNumberOfSides segments tubeLoop polynomialOrder pointParameters in
  ((GetNumberOfPoints points <= 0)%Z ->
     let untouched := mkEffect (Some mesh) [] in
     linear = untouched /\ cardinal = untouched /\ kochanek = untouched
     /\ polynomial = PolynomialReturned untouched)
  /\ (forall point, points = [point] ->
        let sphere :=
          mkEffect (Some (SphereSourceOutput point tubeRadius tubeNumberOfSides tubeNumberOfSides))
                   [] in
        linear = sphere /\ cardinal = sphere /\ kochanek = sphere
        /\ polynomial = PolynomialReturned sphere).
Proof.
  cbv zeta. split.
  - intros Hcount.
    unfold GeneratePiecewiseLinearCurveModel, GenerateCardinalSplineCurveModel,
      GenerateKochanekSplineCurveModel, GeneratePolynomialCurveModel.
    decide_counts. repeat split; reflexivity.
  - intros point ->. repeat split; reflexivity.
Qed.

(** C3. On exactly two control points the cardinal, Kochanek and
    polynomial generators are the piecewise-linear generator: same effect
    on the output object, same warnings, for every configuration (and for
    a null output pointer as well). *)
Theorem two_points_are_linear (points : vtkPoints) (output : option vtkPolyData)
  (tubeRadius : double) (tubeNumberOfSides segments : Z) (tubeLoop : bool)
  (bias continuity tension : double) (endsCopy : bool)
  (polynomialOrder : Z) (pointParameters : option vtkDoubleArray) :
  length points = 2%nat ->
  let linear := GeneratePiecewiseLinearCurveModel (Some points) output tubeRadius
                  tubeNumberOfSides segments tubeLoop in
  GenerateCardinalSplineCurveModel (Some points) output tubeRadius tubeNumberOfSides
    segments tubeLoop = linear
  /\ GenerateKochanekSplineCurveModel (Some points) output tubeRadius tubeNumberOfSides
       segments tubeLoop bias continuity tension endsCopy = linear
  /\ GeneratePolynomialCurveModel (Some points) output tubeRadius tubeNumberOfSides
       segments tubeLoop polynomialOrder pointParameters = PolynomialReturned linear.
Proof.
  intros Hlen linear. subst linear.
  unfold GenerateCardinalSplineCurveModel, GenerateKochanekSplineCurveModel,
    GeneratePolynomialCurveModel.
  destruct output as [mesh|]; [ | repeat split; reflexivity ].
  decide_counts. repeat split; reflexivity.
Qed.

End Dispatch.

Lemma degenerate_point_counts_witness :
  (@GetNumberOfPoints binary64 [] <= 0)%Z
  /\ @GenerateCardinalSplineCurveModel binary64 standInCollaborators (Some [])
       (Some PolyDataInitialized) (of_int 1) 8 5 false
     = mkEffect (Some PolyDataInitialized) [].
Proof.
  split; [ vm_compute; discriminate | ].
  apply (@degenerate_point_counts binary64 standInCollaborators [] PolyDataInitialized
           (of_int 1) 8%Z 5%Z false (of_int 0) (of_int 0) (of_int 0) false 3%Z None).
  vm_compute; discriminate.
Defined.

Lemma two_points_are_linear_witness :
  length [P64 0 0 0; P64 1 0 0] = 2%nat
  /\ @GenerateCardinalSplineCurveModel binary64 standInCollaborators
       (Some [P64 0 0 0; P64 1 0 0]) (Some PolyDataInitialized) (of_int 1) 8 5 true
     = GeneratePiecewiseLinearCurveModel
         (Some [P64 0 0 0; P64 1 0 0]) (Some PolyDataInitialized) (of_int 1) 8 5 true.
Proof.
  split; [ reflexivity | ].
  apply (@two_points_are_linear binary64 standInCollaborators [P64 0 0 0; P64 1 0 0]
           (Some PolyDataInitialized) (of_int 1) 8%Z 5%Z true
           (of_int 0) (of_int 0) (of_int 0) false 3%Z None).
  reflexivity.
Defined.

(** ** The index-based parameterizer *)
Section IndexParameters.
Context {S : Scalar}.

Lemma removeTuples_clears (array : vtkDoubleArray) :
  removeTuples (length array) array = [].
Proof.
  remember (length array) as n eqn:Hn.
  revert array Hn. induction n as [|n IH]; intros array Hn.
  - destruct array; [reflexivity | discriminate].
  - cbn [removeTuples]. unfold GetNumberOfTuples.
    destruct (Z.eqb_spec (Z.of_nat (length array)) 0) as [Hz|_]; [lia|].
    apply IH. unfold RemoveLastTuple.
    destruct array as [|x array] using rev_ind; [discriminate|].
    rewrite removelast_last. rewrite length_app in Hn. cbn in Hn. lia.
Qed.

Lemma clearPointParameters_clears (array : vtkDoubleArray) :
  fst (clearPointParameters array) = [].
Proof.
  unfold clearPointParameters, GetNumberOfTuples.
  destruct (Z.eqb_spec (Z.of_nat (length array)) 0) as [Hz|_]; cbn.
  - destruct array; [reflexivity | cbn in Hz; lia].
  - apply removeTuples_clears.
Qed.

Lemma foldl_InsertNextTuple1 {A : Type} (f : A -> double) (l : list A) (array : vtkDoubleArray) :
  foldl (fun array v => InsertNextTuple1 (f v) array) array l = array ++ map f l.
Proof.
  revert array. induction l as [|v l IH]; intros array; cbn.
  - now rewrite app_nil_r.
  - rewrite IH. unfold InsertNextTuple1. now rewrite <- app_assoc.
Qed.

(** With two points or more the parameterizer reaches its assignment
    loop and leaves exactly the parameters [i / (N-1)], whatever the
    array held before; prior contents only cost a warning. *)
Lemma ComputePointParametersFromIndices_run (points : vtkPoints) (prior : vtkDoubleArray) :
  (2 <= length points)%nat ->
  ComputePointParametersFromIndices (Some points) (Some prior)
  = mkParameterRun ParametersAssigned (Some (indexParameters (length points)))
      (snd (clearPointParameters prior)).
Proof.
  intros Hn. unfold ComputePointParametersFromIndices.
  decide_counts.
  pose proof (clearPointParameters_clears prior) as Hclear.
  destruct (clearPointParameters prior) as [array log]. cbn in Hclear. subst array.
  rewrite foldl_InsertNextTuple1. cbn [app snd].
  unfold indexParameters. now rewrite Nat2Z.id.
Qed.

Lemma length_indexParameters (numPoints : nat) :
  length (indexParameters numPoints) = numPoints.
Proof. unfold indexParameters. now rewrite length_map, length_seq. Qed.

Lemma lookup_indexParameters (numPoints i : nat) :
  (i < numPoints)%nat ->
  indexParameters numPoints !! i
  = Some (of_int (Z.of_nat i) / of_int (Z.of_nat numPoints - 1))%D.
Proof.
  intros Hi. unfold indexParameters.
  change (map ?f ?l) with (f <$> l).
  rewrite list_lookup_fmap, lookup_seq_lt by assumption. reflexivity.
Qed.

End IndexParameters.

(** C5. Index-based parameterization, in exact arithmetic.  With fewer
    than two points the parameterizer gives up: it reports that there are
    not enough points and leaves the array alone.  With [N >= 2] points it
    assigns [parameter[i] = i / (N-1)] for every [i]; so the first
    parameter is 0, the last is 1, and the parameters increase strictly
    with the index. *)
Theorem index_parameterization (points : list (@Point exact)) (prior : list (@double exact)) :
  let N := length points in
  let run := @ComputePointParametersFromIndices exact (Some points) (Some prior) in
  ((N < 2)%nat ->
     run = @mkParameterRun exact ReturnedEarly (Some prior) [NotEnoughPoints (Z.of_nat N)])
  /\ ((2 <= N)%nat ->
      exists parameters : list R,
        completion run = ParametersAssigned
        /\ pointParametersAfter run = Some parameters
        /\ length parameters = N
        /\ (forall i, (i < N)%nat -> parameters !! i = Some (INR i / INR (N - 1))%R)
        /\ parameters !! 0%nat = Some 0%R
        /\ parameters !! (N - 1)%nat = Some 1%R
        /\ (forall i j x y, (i < j)%nat ->
              parameters !! i = Some x -> parameters !! j = Some y -> (x < y)%R)).
Proof.
  intros N run. subst run. split.
  - intros Hn. unfold ComputePointParametersFromIndices. decide_counts. reflexivity.
  - intros Hn. rewrite ComputePointParametersFromIndices_run by assumption.
    fold N. exists (@indexParameters exact N). cbn [completion pointParametersAfter].
    assert (Hentry : forall i, (i < N)%nat ->
              @indexParameters exact N !! i = Some (INR i / INR (N - 1))%R).
    { intros i Hi. refine (eq_trans (@lookup_indexParameters exact N i Hi) _). cbn.
      rewrite !INR_IZR_INZ. do 3 f_equal. lia. }
    assert (Hpos : (0 < INR (N - 1))%R) by (apply lt_0_INR; lia).
    repeat split.
    + apply (@length_indexParameters exact).
    + exact Hentry.
    + rewrite Hentry by lia. cbn. f_equal. lra.
    + rewrite Hentry by lia. f_equal. field. lra.
    + intros i j x y Hij Hi Hj.
      assert (Hj' : (j < N)%nat).
      { apply lookup_lt_Some in Hj. now rewrite (@length_indexParameters exact) in Hj. }
      rewrite Hentry in Hi by lia. rewrite Hentry in Hj by lia.
      injection Hi as <-. injection Hj as <-.
      apply Rmult_lt_compat_r; [ now apply Rinv_0_lt_compat | now apply lt_INR ].
Qed.

Lemma index_parameterization_witness :
  (2 <= length [PR 0 0 0; PR 5 0 0; PR 7 1 0])%nat
  /\ exists parameters : list R,
       pointParametersAfter
         (@ComputePointParametersFromIndices exact (Some [PR 0 0 0; PR 5 0 0; PR 7 1 0])
            (Some [3%R : @double exact]))
       = Some parameters
       /\ parameters !! 0%nat = Some 0%R /\ parameters !! 2%nat = Some 1%R.
Proof.
  split; [ cbn; lia | ].
  destruct (index_parameterization [PR 0 0 0; PR 5 0 0; PR 7 1 0] [3%R : @double exact]) as [_ Hrun].
  destruct Hrun as (parameters & _ & Hafter & _ & _ & Hfirst & Hlast & _); [ cbn; lia | ].
  exists parameters. repeat split; assumption.
Defined.

(** ** The polynomial generator and its parameter array *)
Section AbsentParameters.
Context {S : Scalar} {C : Collaborators}.

Lemma GeneratePolynomialCurveModel_absent (points : vtkPoints) (mesh : vtkPolyData)
  (tubeRadius : double) (tubeNumberOfSides segments : Z) (tubeLoop : bool)
  (polynomialOrder : Z) :
  (3 <= length points)%nat ->
  GeneratePolynomialCurveModel (Some points) (Some mesh) tubeRadius tubeNumberOfSides
    segments tubeLoop polynomialOrder None
  = fitPolynomialCurve points (Some mesh) tubeRadius tubeNumberOfSides segments
      polynomialOrder (indexParameters (length points)) [].
Proof.
  intros Hn. unfold GeneratePolynomialCurveModel.
  rewrite ComputePointParametersFromIndices_run by lia.
  decide_counts. reflexivity.
Qed.

Lemma GeneratePolynomialCurveModel_present (points : vtkPoints) (mesh : vtkPolyData)
  (tubeRadius : double) (tubeNumberOfSides segments : Z) (tubeLoop : bool)
  (polynomialOrder : Z) (pointParameters : vtkDoubleArray) :
  (3 <= length points)%nat ->
  GeneratePolynomialCurveModel (Some points) (Some mesh) tubeRadius tubeNumberOfSides
    segments tubeLoop polynomialOrder (Some pointParameters)
  = if negb (GetNumberOfTuples pointParameters =? GetNumberOfPoints points)%Z
    then PolynomialReturned
           (mkEffect (Some mesh)
              [IncorrectNumberOfPointParameters (GetNumberOfPoints points)
                 (GetNumberOfTuples pointParameters)])
    else fitPolynomialCurve points (Some mesh) tubeRadius tubeNumberOfSides segments
           polynomialOrder pointParameters [].
Proof.
  intros Hn. unfold GeneratePolynomialCurveModel.
  destruct (Z.leb_spec (GetNumberOfPoints points) 0); [ unfold GetNumberOfPoints in *; lia | ].
  destruct (Z.eqb_spec (GetNumberOfPoints points) 1); [ unfold GetNumberOfPoints in *; lia | ].
  destruct (Z.eqb_spec (GetNumberOfPoints points) 2); [ unfold GetNumberOfPoints in *; lia | ].
  reflexivity.
Qed.

Lemma GeneratePolynomialCurveModel_fit (points : vtkPoints) (mesh : vtkPolyData)
  (tubeRadius : double) (tubeNumberOfSides segments : Z) (tubeLoop : bool)
  (polynomialOrder : Z) (inputPointParameters : option vtkDoubleArray)
  (pointParameters : vtkDoubleArray) :
  (3 <= length points)%nat ->
  acceptedParameters (length points) inputPointParameters pointParameters ->
  GeneratePolynomialCurveModel (Some points) (Some mesh) tubeRadius tubeNumberOfSides
    segments tubeLoop polynomialOrder inputPointParameters
  = fitPolynomialCurve points (Some mesh) tubeRadius tubeNumberOfSides segments
      polynomialOrder pointParameters [].
Proof.
  intros Hn [[-> ->] | [-> Hlen]].
  - now apply GeneratePolynomialCurveModel_absent.
  - rewrite GeneratePolynomialCurveModel_present by assumption.
    unfold GetNumberOfTuples, GetNumberOfPoints. now rewrite Hlen, Z.eqb_refl.
Qed.

(** C9. From three points on, a null parameter array is no error for the
    polynomial generator: it goes on to the fit with the index-based
    parameters and no warning, and its outcome is the one obtained by
    passing the array that [ComputePointParametersFromIndices] computes
    for the same points (whatever that array held before). *)
Theorem absent_parameters_are_index_parameters (points : vtkPoints)
  (output : option vtkPolyData) (tubeRadius : double) (tubeNumberOfSides segments : Z)
  (tubeLoop : bool) (polynomialOrder : Z) (prior : vtkDoubleArray) :
  (3 <= length points)%nat ->
  let absent := GeneratePolynomialCurveModel (Some points) output tubeRadius
                  tubeNumberOfSides segments tubeLoop polynomialOrder None in
  let run := ComputePointParametersFromIndices (Some points) (Some prior) in
  absent = GeneratePolynomialCurveModel (Some points) output tubeRadius tubeNumberOfSides
             segments tubeLoop polynomialOrder (pointParametersAfter run)
  /\ (forall mesh, output = Some mesh ->
        absent = fitPolynomialCurve points output tubeRadius tubeNumberOfSides segments
                   polynomialOrder (indexParameters (length points)) []).
Proof.
  intros Hn absent run. subst absent run.
  rewrite ComputePointParametersFromIndices_run by lia.
  cbn [pointParametersAfter].
  destruct output as [mesh|]; [ | split; [reflexivity | discriminate] ].
  rewrite GeneratePolynomialCurveModel_absent, GeneratePolynomialCurveModel_present by assumption.
  unfold GetNumberOfTuples, GetNumberOfPoints. rewrite length_indexParameters, Z.eqb_refl.
  split; [ reflexivity | intros; reflexivity ].
Qed.

End AbsentParameters.

Lemma absent_parameters_are_index_parameters_witness :
  (3 <= length [P64 0 0 0; P64 1 2 0; P64 2 0 0])%nat
  /\ @GeneratePolynomialCurveModel binary64 standInCollaborators
       (Some [P64 0 0 0; P64 1 2 0; P64 2 0 0]) (Some PolyDataInitialized)
       (of_int 1) 8 5 false 3 None
     = @GeneratePolynomialCurveModel binary64 standInCollaborators
         (Some [P64 0 0 0; P64 1 2 0; P64 2 0 0]) (Some PolyDataInitialized)
         (of_int 1) 8 5 false 3
         (pointParametersAfter
            (ComputePointParametersFromIndices (Some [P64 0 0 0; P64 1 2 0; P64 2 0 0])
               (Some [of_int 9]))).
Proof.
  split; [ cbn; lia | ].
  apply (@absent_parameters_are_index_parameters binary64 standInCollaborators
           [P64 0 0 0; P64 1 2 0; P64 2 0 0] (Some PolyDataInitialized)
           (of_int 1) 8%Z 5%Z false 3%Z [of_int 9]).
  cbn; lia.
Defined.

(** ** Prior contents of the parameter array *)
Section PriorContents.
Context {S : Scalar}.

(** The assignment loop appends one entry per vertex, in vertex order:
    the path parameter of the first path vertex met on the way up. *)
Lemma assignParameters_appends (vertices : list nat) (numPoints : nat) (parent pathIndices : list Z)
  (parameters array array' : vtkDoubleArray) :
  assignParameters vertices numPoints parent pathIndices parameters array = Some array' ->
  exists entries,
    array' = array ++ entries
    /\ length entries = length vertices
    /\ forall k v, vertices !! k = Some v ->
         exists j, indexAlongPath numPoints parent pathIndices (Z.of_nat v) = Some j
                   /\ entries !! k = parameters !! j.
Proof.
  revert array. induction vertices as [|i rest IH]; intros array Hrun; cbn in Hrun.
  - injection Hrun as <-. exists []. rewrite app_nil_r. repeat split.
    intros k v Hk. discriminate.
  - destruct (indexAlongPath numPoints parent pathIndices (Z.of_nat i)) as [j|] eqn:Hj;
      [ | discriminate ].
    destruct (parameters !! j) as [parameter|] eqn:Hparameter; [ | discriminate ].
    apply IH in Hrun as (entries & -> & Hlen & Hentries).
    exists (parameter :: entries). unfold InsertNextTuple1.
    rewrite <- app_assoc. repeat split.
    + cbn. now rewrite Hlen.
    + intros [|k] v Hk; cbn in Hk.
      * injection Hk as <-. exists j. split; [assumption | now rewrite Hparameter].
      * apply Hentries, Hk.
Qed.

(** The spanning-tree parameterizer looks at the array it is given only
    to empty it: its run on any array is its run on the empty array,
    but for the warning that the array had contents and, on an early
    return, for the array handed back as it was. *)
Lemma ComputePointParametersFromMinimumSpanningTree_prior
  (points : vtkPoints) (prior : vtkDoubleArray) :
  ComputePointParametersFromMinimumSpanningTree (Some points) (Some prior)
  = match ComputePointParametersFromMinimumSpanningTree (Some points) (Some []) with
    | None => None
    | Some run =>
        match completion run with
        | ParametersAssigned =>
            Some (mkParameterRun ParametersAssigned (pointParametersAfter run)
                    (if (0 <? GetNumberOfTuples prior)%Z then [AlreadyHasContents] else []))
        | ReturnedEarly =>
            Some (mkParameterRun ReturnedEarly (Some prior) (parameterWarnings run))
        end
    end.
Proof.
  unfold ComputePointParametersFromMinimumSpanningTree.
  destruct (GetNumberOfPoints points <? 2)%Z; [ reflexivity | ].
  destruct (minimumSpanningTreeTrunk points) as [[[distances parent] pathIndices]|];
    [ | reflexivity ].
  destruct (deqb _ _); [ reflexivity | ].
  assert (Hcleared :
            (if (0 <? GetNumberOfTuples prior)%Z
             then (removeTuples (length prior) prior, [AlreadyHasContents])
             else (prior, []))
            = ([], if (0 <? GetNumberOfTuples prior)%Z then [AlreadyHasContents] else [])).
  { unfold GetNumberOfTuples. destruct (Z.ltb_spec 0 (Z.of_nat (length prior))).
    - now rewrite removeTuples_clears.
    - destruct prior; [reflexivity | cbn in *; lia]. }
  rewrite Hcleared.
  change (0 <? GetNumberOfTuples [])%Z with false. cbv iota.
  destruct (assignParameters _ _ _ _ _ []) as [array|]; reflexivity.
Qed.

(** C10. Both parameterizers empty the output array before they write.
    Whenever one of them reaches its assignment loop, the array holds
    exactly one entry per input point, in point order, and it is the
    array the same call leaves when the array was empty beforehand.
    What the array held decides nothing else: the spanning-tree
    parameterizer comes back on an array with contents exactly when it
    comes back on the empty array, and whenever it assigns parameters on
    the empty array it assigns the same ones on any array, with the
    warning that the array had contents when it had. *)
Theorem parameterizers_clear_prior_contents (points : vtkPoints) (prior : vtkDoubleArray) :
  (forall run,
     ComputePointParametersFromIndices (Some points) (Some prior) = run ->
     completion run = ParametersAssigned ->
     exists parameters,
       pointParametersAfter run = Some parameters
       /\ length parameters = length points
       /\ pointParametersAfter (ComputePointParametersFromIndices (Some points) (Some []))
          = Some parameters
       /\ forall i, (i < length points)%nat ->
            parameters !! i
            = Some (of_int (Z.of_nat i) / of_int (Z.of_nat (length points) - 1))%D)
  /\ (forall run,
        ComputePointParametersFromMinimumSpanningTree (Some points) (Some prior) = Some run ->
        completion run = ParametersAssigned ->
        exists parameters,
          pointParametersAfter run = Some parameters
          /\ length parameters = length points
          /\ ComputePointParametersFromMinimumSpanningTree (Some points) (Some [])
             = Some (mkParameterRun ParametersAssigned (Some parameters) [])
          /\ exists distances parent pathIndices,
               minimumSpanningTreeTrunk points = Some (distances, parent, pathIndices)
               /\ forall i, (i < length points)%nat ->
                    exists j,
                      indexAlongPath (length points) parent pathIndices (Z.of_nat i) = Some j
                      /\ parameters !! i
                         = pathParameters (length points) distances pathIndices
                             (sumOfDistances (length points) distances pathIndices) !! j)
  /\ (forall parameters log,
        ComputePointParametersFromMinimumSpanningTree (Some points) (Some [])
        = Some (mkParameterRun ParametersAssigned parameters log) ->
        ComputePointParametersFromMinimumSpanningTree (Some points) (Some prior)
        = Some (mkParameterRun ParametersAssigned parameters
                  (if (0 <? GetNumberOfTuples prior)%Z then [AlreadyHasContents] else []))
        /\ exists entries, parameters = Some entries /\ length entries = length points)
  /\ (ComputePointParametersFromMinimumSpanningTree (Some points) (Some prior) = None
      <-> ComputePointParametersFromMinimumSpanningTree (Some points) (Some []) = None).
Proof.
  split; [ | split; [ | split ] ].
  - intros run <- Hdone.
    assert (Hn : (2 <= length points)%nat).
    { unfold ComputePointParametersFromIndices in Hdone. revert Hdone.
      decide_counts. discriminate. }
    rewrite !ComputePointParametersFromIndices_run by assumption.
    exists (indexParameters (length points)). cbn [pointParametersAfter].
    repeat split.
    + apply length_indexParameters.
    + apply lookup_indexParameters.
  - intros run Hrun Hdone.
    unfold ComputePointParametersFromMinimumSpanningTree in *.
    destruct (GetNumberOfPoints points <? 2)%Z.
    { injection Hrun as <-. discriminate. }
    destruct (minimumSpanningTreeTrunk points) as [[[distances parent] pathIndices]|];
      [ | discriminate ].
    destruct (deqb _ _).
    { injection Hrun as <-. discriminate. }
    assert (Hcleared :
              (if (0 <? GetNumberOfTuples prior)%Z
               then (removeTuples (length prior) prior, [AlreadyHasContents])
               else (prior, []))
              = ([], if (0 <? GetNumberOfTuples prior)%Z then [AlreadyHasContents] else [])).
    { unfold GetNumberOfTuples. destruct (Z.ltb_spec 0 (Z.of_nat (length prior))).
      - now rewrite removeTuples_clears.
      - destruct prior; [reflexivity | cbn in *; lia]. }
    rewrite Hcleared in Hrun.
    change (0 <? GetNumberOfTuples [])%Z with false. cbv iota.
    destruct (assignParameters _ _ _ _ _ []) as [array|] eqn:Hassign; [ | discriminate ].
    injection Hrun as <-. cbn [pointParametersAfter].
    apply assignParameters_appends in Hassign as (entries & -> & Hlen & Hentries).
    rewrite length_seq in Hlen. cbn [app].
    exists entries.
    split; [reflexivity | ]. split; [assumption | ]. split; [reflexivity | ].
    exists distances, parent, pathIndices. split; [reflexivity | ].
    intros i Hi. apply Hentries. now rewrite lookup_seq_lt.
  - intros parameters log Hempty.
    rewrite ComputePointParametersFromMinimumSpanningTree_prior, Hempty.
    cbn [completion pointParametersAfter]. split; [ reflexivity | ].
    unfold ComputePointParametersFromMinimumSpanningTree in Hempty.
    destruct (GetNumberOfPoints points <? 2)%Z; [ discriminate | ].
    destruct (minimumSpanningTreeTrunk points) as [[[distances parent] pathIndices]|];
      [ | discriminate ].
    destruct (deqb _ _); [ discriminate | ].
    change (0 <? GetNumberOfTuples [])%Z with false in Hempty. cbv iota in Hempty.
    destruct (assignParameters _ _ _ _ _ []) as [array|] eqn:Hassign; [ | discriminate ].
    injection Hempty as <- _.
    apply assignParameters_appends in Hassign as (entries & -> & Hlen & _).
    rewrite length_seq in Hlen. exists entries. split; [ reflexivity | assumption ].
  - rewrite ComputePointParametersFromMinimumSpanningTree_prior.
    destruct (ComputePointParametersFromMinimumSpanningTree (Some points) (Some []))
      as [run|]; [ | split; reflexivity ].
    destruct (completion run); split; discriminate.
Qed.

End PriorContents.

Lemma parameterizers_clear_prior_contents_witness :
  (exists parameters,
     pointParametersAfter
       (@ComputePointParametersFromIndices binary64
          (Some [P64 0 0 0; P64 10 0 0; P64 1 0 0]) (Some [of_int 7; of_int 8]))
     = Some parameters
     /\ length parameters = 3%nat)
  /\ (exists parameters,
        @ComputePointParametersFromMinimumSpanningTree binary64
          (Some [P64 0 0 0; P64 10 0 0; P64 1 0 0]) (Some [of_int 7; of_int 8])
        = Some (mkParameterRun ParametersAssigned (Some parameters) [AlreadyHasContents])
        /\ @ComputePointParametersFromMinimumSpanningTree binary64
             (Some [P64 0 0 0; P64 10 0 0; P64 1 0 0]) (Some [])
           = Some (mkParameterRun ParametersAssigned (Some parameters) [])
        /\ length parameters = 3%nat).
Proof.
  destruct (@parameterizers_clear_prior_contents binary64
              [P64 0 0 0; P64 10 0 0; P64 1 0 0] [of_int 7; of_int 8])
    as (Hindices & _ & Hmst & _).
  split.
  - destruct (Hindices _ eq_refl) as (parameters & Hafter & Hlen & _).
    + vm_compute. reflexivity.
    + exists parameters. split; assumption.
  - assert (Hempty : @ComputePointParametersFromMinimumSpanningTree binary64
                       (Some [P64 0 0 0; P64 10 0 0; P64 1 0 0]) (Some [])
                     = Some (mkParameterRun ParametersAssigned
                               (Some [of_int 1; of_int 0; (of_int 10 / of_int 19)%D]) []))
      by (vm_compute; reflexivity).
    destruct (Hmst _ _ Hempty) as (Hprior & entries & Hentries & Hlen).
    injection Hentries as <-.
    eexists. split; [ exact Hprior | split; [ exact Hempty | exact Hlen ] ].
Defined.

(** ** The seam of a looped curve *)
Section Seam.
Context {S : Scalar} {C : Collaborators}.

Lemma foldl_invariant {A B : Type} (P : A -> Prop) (f : A -> B -> A) (l : list B) (a : A) :
  (forall a b, P a -> P (f a b)) -> P a -> P (foldl f a l).
Proof.
  intros Hstep. revert a. induction l as [|b l IH]; intros a Ha; cbn; auto.
Qed.

Lemma length_linearSegment (current next : Point) (index : nat) (segments : Z)
  (curvePoints : vtkPoints) :
  length (linearSegment current next index segments curvePoints) = length curvePoints.
Proof.
  unfold linearSegment.
  apply (foldl_invariant (fun points => length points = length curvePoints)); [ | reflexivity ].
  intros points i Hlen. unfold SetPoint. now rewrite length_insert.
Qed.

Lemma length_splineSegment (evaluate : double -> Point) (index : nat) (segments : Z)
  (curvePoints : vtkPoints) :
  length (splineSegment evaluate index segments curvePoints) = length curvePoints.
Proof.
  unfold splineSegment.
  apply (foldl_invariant (fun points => length points = length curvePoints)); [ | reflexivity ].
  intros points i Hlen. unfold SetPoint. now rewrite length_insert.
Qed.

Lemma length_setFinalPoint (controlPoints : vtkPoints) (segments : Z) (tubeLoop : bool)
  (curvePoints : vtkPoints) :
  length (setFinalPoint controlPoints segments tubeLoop curvePoints) = length curvePoints.
Proof. unfold setFinalPoint, SetPoint. apply length_insert. Qed.

Lemma length_PiecewiseLinearSamples (controlPoints : vtkPoints) (segments : Z) (tubeLoop : bool) :
  length (PiecewiseLinearSamples controlPoints segments tubeLoop)
  = length (AllocateCurvePoints controlPoints segments tubeLoop).
Proof.
  unfold PiecewiseLinearSamples.
  set (allocated := AllocateCurvePoints controlPoints segments tubeLoop).
  assert (Hloop : length (snd (foldl (linearStep controlPoints segments) (1%nat, allocated)
                                 (seq 0 (numberSegmentsToInterpolate (length controlPoints) tubeLoop))))
                  = length allocated).
  { apply (foldl_invariant (fun st => length (snd st) = length allocated)); [ | reflexivity ].
    intros [next points] index Hlen. cbn in *. now rewrite length_linearSegment. }
  destruct (foldl _ _ _) as [next points]. cbn in Hloop.
  now rewrite length_setFinalPoint.
Qed.

Lemma length_SplineSamples (evaluate : double -> Point) (controlPoints : vtkPoints)
  (segments : Z) (tubeLoop : bool) :
  length (SplineSamples evaluate controlPoints segments tubeLoop)
  = length (AllocateCurvePoints controlPoints segments tubeLoop).
Proof.
  unfold SplineSamples. rewrite length_setFinalPoint.
  apply (foldl_invariant
           (fun points => length points
                          = length (AllocateCurvePoints controlPoints segments tubeLoop)));
    [ | reflexivity ].
  intros points index Hlen. now rewrite length_splineSegment.
Qed.

Lemma length_AllocateCurvePoints_looped (controlPoints : vtkPoints) (segments : Z) :
  length (AllocateCurvePoints controlPoints segments true)
  = Z.to_nat (Z.of_nat (length controlPoints) * segments + 2).
Proof. unfold AllocateCurvePoints, SetNumberOfPoints, GetNumberOfPoints. apply length_replicate. Qed.

(** [CloseLoop] on a sequence of two slots or more. *)
Lemma CloseLoop_closes (numberControlPoints : nat) (segments : Z) (samples : vtkPoints) :
  (1 <= segments)%Z ->
  length samples = Z.to_nat (Z.of_nat numberControlPoints * segments + 2) ->
  SeamClosed numberControlPoints segments samples (CloseLoop samples).
Proof.
  intros Hsegments Hlen. unfold SeamClosed. cbv zeta.
  set (finalIndex := Z.to_nat (Z.of_nat numberControlPoints * segments + 1)).
  assert (Hlen' : length samples = Datatypes.S finalIndex) by (subst finalIndex; nia).
  assert (Hclosed : CloseLoop samples
                    = <[finalIndex := midpoint (GetPoint 0 samples) (GetPoint 1 samples)]>
                        (<[0%nat := midpoint (GetPoint 0 samples) (GetPoint 1 samples)]> samples)).
  { unfold CloseLoop, SetPoint, GetNumberOfPoints. cbv zeta.
    rewrite length_insert, Hlen'. fold (midpoint (GetPoint 0 samples) (GetPoint 1 samples)).
    f_equal. lia. }
  assert (Hfirst : CloseLoop samples !! 0%nat
                   = Some (midpoint (GetPoint 0 samples) (GetPoint 1 samples))).
  { rewrite Hclosed. destruct finalIndex as [|finalIndex'] eqn:Hfinal.
    - apply list_lookup_insert_eq. rewrite length_insert. lia.
    - rewrite list_lookup_insert_ne by lia. apply list_lookup_insert_eq. lia. }
  assert (Hlast : CloseLoop samples !! finalIndex
                  = Some (midpoint (GetPoint 0 samples) (GetPoint 1 samples))).
  { rewrite Hclosed. apply list_lookup_insert_eq. rewrite length_insert. lia. }
  assert (Hlength : length (CloseLoop samples) = Datatypes.S finalIndex).
  { rewrite Hclosed, !length_insert. exact Hlen'. }
  repeat split; try assumption.
  - rewrite head_lookup, last_lookup, Hlength. cbn [pred]. now rewrite Hfirst, Hlast.
  - intros i Hi. rewrite Hclosed. now rewrite !list_lookup_insert_ne by lia.
Qed.

(** C6. A looped run of the linear, cardinal or Kochanek generator on
    two control points or more hands the mesh builder a sequence that
    [CloseLoop] has closed: point 0 of the sampled curve is replaced by
    the midpoint of points 0 and 1, the same midpoint is written into the
    last allocated slot, and so the first and the last point of the dense
    sequence are identical.  (On two points the spline generators sample
    as the linear one does.) *)
Theorem looped_curve_seam (controlPoints : vtkPoints) (mesh : vtkPolyData)
  (tubeRadius : double) (tubeNumberOfSides segments : Z)
  (bias continuity tension : double) (endsCopy : bool) :
  (2 <= length controlPoints)%nat ->
  (1 <= segments)%Z ->
  let N := length controlPoints in
  let linearSamples := PiecewiseLinearSamples controlPoints segments true in
  let cardinalSamples :=
    if (N =? 2)%nat then linearSamples
    else SplineSamples (cardinalEvaluate3 controlPoints true) controlPoints segments true in
  let kochanekSamples :=
    if (N =? 2)%nat then linearSamples
    else SplineSamples
           (kochanekEvaluate3 controlPoints true bias continuity tension endsCopy)
           controlPoints segments true in
  let closes (effect : Effect) (samples : vtkPoints) :=
    effect = GetTubePolyDataFromPoints (Some (CloseLoop samples)) (Some mesh) tubeRadius
               tubeNumberOfSides
    /\ SeamClosed N segments samples (CloseLoop samples) in
  closes (GeneratePiecewiseLinearCurveModel (Some controlPoints) (Some mesh) tubeRadius
            tubeNumberOfSides segments true) linearSamples
  /\ closes (GenerateCardinalSplineCurveModel (Some controlPoints) (Some mesh) tubeRadius
               tubeNumberOfSides segments true) cardinalSamples
  /\ closes (GenerateKochanekSplineCurveModel (Some controlPoints) (Some mesh) tubeRadius
               tubeNumberOfSides segments true bias continuity tension endsCopy)
       kochanekSamples.
Proof.
  intros Hn Hsegments N linearSamples cardinalSamples kochanekSamples closes.
  assert (Hlinear : closes (GeneratePiecewiseLinearCurveModel (Some controlPoints) (Some mesh)
                              tubeRadius tubeNumberOfSides segments true) linearSamples).
  { unfold GeneratePiecewiseLinearCurveModel. decide_counts.
    split; [ reflexivity | ].
    apply CloseLoop_closes; [ assumption | ].
    subst linearSamples.
    now rewrite length_PiecewiseLinearSamples, length_AllocateCurvePoints_looped. }
  split; [ exact Hlinear | split ].
  - subst cardinalSamples. unfold GenerateCardinalSplineCurveModel.
    destruct (Nat.eqb_spec N 2) as [Htwo|Hmore]; subst N; decide_counts;
      [ exact Hlinear | ].
    split; [ reflexivity | ].
    apply CloseLoop_closes; [ assumption | ].
    now rewrite length_SplineSamples, length_AllocateCurvePoints_looped.
  - subst kochanekSamples. unfold GenerateKochanekSplineCurveModel.
    destruct (Nat.eqb_spec N 2) as [Htwo|Hmore]; subst N; decide_counts;
      [ exact Hlinear | ].
    split; [ reflexivity | ].
    apply CloseLoop_closes; [ assumption | ].
    now rewrite length_SplineSamples, length_AllocateCurvePoints_looped.
Qed.

End Seam.

Lemma looped_curve_seam_witness :
  (2 <= length [P64 0 0 0; P64 4 0 0; P64 4 4 0])%nat
  /\ (1 <= 2)%Z
  /\ SeamClosed 3 2
       (PiecewiseLinearSamples [P64 0 0 0; P64 4 0 0; P64 4 4 0] 2 true)
       (CloseLoop (PiecewiseLinearSamples [P64 0 0 0; P64 4 0 0; P64 4 4 0] 2 true)).
Proof.
  split; [ cbn; lia | split; [ lia | ] ].
  destruct (@looped_curve_seam binary64 standInCollaborators
              [P64 0 0 0; P64 4 0 0; P64 4 4 0] PolyDataInitialized (of_int 1) 8%Z 2%Z
              (of_int 0) (of_int 0) (of_int 0) false) as [[_ Hseam] _];
    [ cbn; lia | lia | exact Hseam ].
Defined.

(** ** The polynomial fit: order and samples *)
Section PolynomialFit.
Context {S : Scalar} {C : Collaborators}.

Lemma InsertPoint_at_end (point : Point) (points : vtkPoints) :
  InsertPoint (length points) point points = points ++ [point].
Proof.
  unfold InsertPoint. rewrite Nat.ltb_irrefl, Nat.sub_diag. reflexivity.
Qed.

(** The sampling loop appends: sample [p] is the polynomial at
    [p / (numPointsOnCurve - 1)], and the cell visits the samples in order. *)
Lemma polynomialSamples_map (coefficientValues : list double) (numPolynomialCoefficients : nat)
  (numPointsOnCurve : Z) :
  polynomialSamples coefficientValues numPolynomialCoefficients numPointsOnCurve
  = (map (polynomialPoint coefficientValues numPolynomialCoefficients numPointsOnCurve)
         (seq 0 (Z.to_nat numPointsOnCurve)),
     seq 0 (Z.to_nat numPointsOnCurve)).
Proof.
  unfold polynomialSamples.
  generalize (polynomialPoint coefficientValues numPolynomialCoefficients numPointsOnCurve).
  intros sample. induction (Z.to_nat numPointsOnCurve) as [|n IH]; [ reflexivity | ].
  rewrite seq_S, foldl_app, IH. cbn [foldl Nat.add].
  rewrite map_app. cbn [map].
  replace n with (length (map sample (seq 0 n))) at 1 by now rewrite length_map, length_seq.
  now rewrite InsertPoint_at_end.
Qed.

(** The sizes of the vectors of lines 597, 639 and 641 are negative
    exactly when the number of coefficients is. *)
Lemma negative_vector_size (numPoints : nat) (numPolynomialCoefficients : Z) :
  ((Z.of_nat numPoints * numPolynomialCoefficients <? 0)
   || (3 * numPolynomialCoefficients <? 0))%Z
  = (numPolynomialCoefficients <? 0)%Z.
Proof.
  destruct (Z.ltb_spec numPolynomialCoefficients 0),
    (Z.ltb_spec (Z.of_nat numPoints * numPolynomialCoefficients) 0),
    (Z.ltb_spec (3 * numPolynomialCoefficients) 0); try reflexivity; nia.
Qed.

(** Lines 560-691 in one piece: the run throws when the number of
    coefficients is negative; otherwise it solves, samples the polynomial
    and wraps the line mesh. *)
Lemma fitPolynomialCurve_run (points : vtkPoints) (output : option vtkPolyData)
  (tubeRadius : double) (tubeNumberOfSides segments polynomialOrder : Z)
  (pointParameters : vtkDoubleArray) (log : list Warning) :
  let clamped := fst (clampPolynomialOrder polynomialOrder) in
  let log' := log ++ snd (clampPolynomialOrder polynomialOrder) in
  let numPolynomialCoefficients :=
    numberOfPolynomialCoefficients clamped (length points) pointParameters in
  let numPointsOnCurve := ((GetNumberOfPoints points - 1) * segments + 1)%Z in
  fitPolynomialCurve points output tubeRadius tubeNumberOfSides segments polynomialOrder
    pointParameters log
  = if (numPolynomialCoefficients <? 0)%Z then PolynomialThrows (mkEffect output log')
    else
      let coefficientValues :=
        SolveLeastSquares (GetNumberOfPoints points)
          (independentValues (length points) (Z.to_nat numPolynomialCoefficients)
             pointParameters)
          numPolynomialCoefficients (dependentValues points) 3
          (replicate (Z.to_nat (3 * numPolynomialCoefficients)) zero) in
      let smoothedSegments :=
        PolyDataLines
          (map (polynomialPoint coefficientValues (Z.to_nat numPolynomialCoefficients)
                  numPointsOnCurve)
               (seq 0 (Z.to_nat numPointsOnCurve)))
          [seq 0 (Z.to_nat numPointsOnCurve)] in
      if (zero <? tubeRadius)%D
      then PolynomialReturned
             (mkEffect (Some (TubeFilterOutput smoothedSegments tubeRadius tubeNumberOfSides
                                true)) log')
      else PolynomialCopiedToOutputTube (mkEffect output log') smoothedSegments.
Proof.
  cbv zeta. unfold fitPolynomialCurve.
  destruct (clampPolynomialOrder polynomialOrder) as [clamped orderLog]. cbn [fst snd].
  unfold GetNumberOfPoints. rewrite negative_vector_size.
  destruct (_ <? 0)%Z; [ reflexivity | ].
  now rewrite polynomialSamples_map.
Qed.

Lemma length_setInsert (x : double) (set : list double) :
  (1 <= length (setInsert x set))%nat /\ (length set <= length (setInsert x set))%nat.
Proof.
  unfold setInsert. destruct (existsb _ set) eqn:Hexists.
  - destruct set; [ discriminate | cbn; lia ].
  - rewrite length_app. cbn. lia.
Qed.

(** The coefficient count is the clamped order plus one, cut down to the
    number of distinct parameters, of which there is at least one. *)
Lemma numberOfPolynomialCoefficients_bounds (polynomialOrder : Z) (numPoints : nat)
  (pointParameters : vtkDoubleArray) :
  (1 <= numPoints)%nat -> (0 <= polynomialOrder)%Z ->
  (1 <= numberOfPolynomialCoefficients polynomialOrder numPoints pointParameters
   <= polynomialOrder + 1)%Z.
Proof.
  intros Hn Horder. unfold numberOfPolynomialCoefficients.
  set (unique := foldl _ _ _).
  assert (Hunique : (1 <= length unique)%nat).
  { subst unique. destruct numPoints as [|n]; [ lia | ].
    cbn [seq foldl].
    apply (foldl_invariant (fun set : list double => (1 <= length set)%nat)).
    - intros set i _. apply length_setInsert.
    - apply length_setInsert. }
  destruct (Z.ltb_spec (Z.of_nat (length unique)) (polynomialOrder + 1)); lia.
Qed.

(** Lines 560-691 with the order in range: the fit goes through and its
    line mesh holds the [(N-1) * segments + 1] samples of the polynomial,
    in one cell. *)
Lemma fitPolynomialCurve_samples (points : vtkPoints) (output : option vtkPolyData)
  (tubeRadius : double) (tubeNumberOfSides segments polynomialOrder : Z)
  (pointParameters : vtkDoubleArray) (log : list Warning) (mesh : vtkPolyData) :
  smoothedSegmentsOf
    (fitPolynomialCurve points output tubeRadius tubeNumberOfSides segments polynomialOrder
       pointParameters log) = Some mesh ->
  exists coefficientValues numPolynomialCoefficients,
    let numPointsOnCurve := ((GetNumberOfPoints points - 1) * segments + 1)%Z in
    mesh = PolyDataLines
             (map (polynomialPoint coefficientValues numPolynomialCoefficients numPointsOnCurve)
                  (seq 0 (Z.to_nat numPointsOnCurve)))
             [seq 0 (Z.to_nat numPointsOnCurve)].
Proof.
  rewrite fitPolynomialCurve_run. cbv zeta.
  destruct (_ <? 0)%Z; [ discriminate | ].
  destruct (zero <? tubeRadius)%D; cbn; intros [= <-]; eauto.
Qed.

Lemma fitPolynomialCurve_defined (points : vtkPoints) (output : option vtkPolyData)
  (tubeRadius : double) (tubeNumberOfSides segments polynomialOrder : Z)
  (pointParameters : vtkDoubleArray) (log : list Warning) :
  (1 <= length points)%nat -> (0 <= polynomialOrder)%Z ->
  exists mesh,
    smoothedSegmentsOf
      (fitPolynomialCurve points output tubeRadius tubeNumberOfSides segments polynomialOrder
         pointParameters log) = Some mesh.
Proof.
  intros Hn Horder. rewrite fitPolynomialCurve_run. cbv zeta.
  assert (Hclamped : (0 <= fst (clampPolynomialOrder polynomialOrder))%Z).
  { unfold clampPolynomialOrder. destruct (6 <? polynomialOrder)%Z; cbn; lia. }
  pose proof (numberOfPolynomialCoefficients_bounds _ (length points) pointParameters
                Hn Hclamped) as Hcount.
  destruct (Z.ltb_spec
              (numberOfPolynomialCoefficients (fst (clampPolynomialOrder polynomialOrder))
                 (length points) pointParameters) 0); [ lia | ].
  destruct (zero <? tubeRadius)%D; cbn; eauto.
Qed.

(** C8. From three points on, the polynomial generator does not look at
    [tubeLoop]: the looped and the open run have the same outcome.  The
    curve is never closed: whenever the fit is reached (no parameter
    array, or one entry per point), the line mesh holds exactly the
    [(N-1) * segmentsBetweenControlPoints + 1] samples of the polynomial,
    in one cell. *)
Theorem polynomial_ignores_tubeLoop (points : vtkPoints) (output : vtkPolyData)
  (tubeRadius : double) (tubeNumberOfSides segments polynomialOrder : Z)
  (inputPointParameters : option vtkDoubleArray) :
  (3 <= length points)%nat ->
  (0 <= segments)%Z ->
  let generate tubeLoop :=
    GeneratePolynomialCurveModel (Some points) (Some output) tubeRadius tubeNumberOfSides
      segments tubeLoop polynomialOrder inputPointParameters in
  let numPointsOnCurve := ((Z.of_nat (length points) - 1) * segments + 1)%Z in
  generate true = generate false
  /\ forall pointParameters,
       acceptedParameters (length points) inputPointParameters pointParameters ->
       generate true
       = fitPolynomialCurve points (Some output) tubeRadius tubeNumberOfSides segments
           polynomialOrder pointParameters []
       /\ (forall mesh, smoothedSegmentsOf (generate true) = Some mesh ->
             exists dense,
               mesh = PolyDataLines dense [seq 0 (length dense)]
               /\ Z.of_nat (length dense) = numPointsOnCurve
               /\ exists coefficientValues numPolynomialCoefficients,
                    dense = map (polynomialPoint coefficientValues numPolynomialCoefficients
                                   numPointsOnCurve)
                                (seq 0 (Z.to_nat numPointsOnCurve)))
       /\ ((0 <= polynomialOrder)%Z ->
           exists mesh, smoothedSegmentsOf (generate true) = Some mesh).
Proof.
  intros Hn Hsegments generate numPointsOnCurve.
  split.
  { subst generate. cbv beta. destruct inputPointParameters as [pointParameters|].
    - now rewrite !GeneratePolynomialCurveModel_present by assumption.
    - now rewrite !GeneratePolynomialCurveModel_absent by assumption. }
  intros pointParameters Hparameters.
  assert (Hfit : generate true
                 = fitPolynomialCurve points (Some output) tubeRadius tubeNumberOfSides segments
                     polynomialOrder pointParameters []).
  { subst generate. cbv beta. now apply GeneratePolynomialCurveModel_fit. }
  split; [ exact Hfit | ]. rewrite Hfit. split.
  - intros mesh Hmesh.
    apply fitPolynomialCurve_samples in Hmesh as (coefficientValues & count & ->).
    unfold GetNumberOfPoints. fold numPointsOnCurve.
    eexists. split; [ | split; [ | eauto ] ].
    + now rewrite length_map, length_seq.
    + rewrite length_map, length_seq. subst numPointsOnCurve. nia.
  - intros Horder. apply fitPolynomialCurve_defined; [ lia | assumption ].
Qed.

End PolynomialFit.

Lemma polynomial_ignores_tubeLoop_witness :
  (3 <= length [P64 0 0 0; P64 1 2 0; P64 2 0 0])%nat
  /\ (0 <= 5)%Z
  /\ @GeneratePolynomialCurveModel binary64 standInCollaborators
       (Some [P64 0 0 0; P64 1 2 0; P64 2 0 0]) (Some PolyDataInitialized)
       (of_int 1) 8 5 true 3 None
     = @GeneratePolynomialCurveModel binary64 standInCollaborators
         (Some [P64 0 0 0; P64 1 2 0; P64 2 0 0]) (Some PolyDataInitialized)
         (of_int 1) 8 5 false 3 None.
Proof.
  split; [ cbn; lia | split; [ lia | ] ].
  destruct (@polynomial_ignores_tubeLoop binary64 standInCollaborators
              [P64 0 0 0; P64 1 2 0; P64 2 0 0] PolyDataInitialized (of_int 1) 8%Z 5%Z 3%Z None)
    as [Hsame _]; [ cbn; lia | lia | exact Hsame ].
Defined.

(** ** The polynomial order *)
Section PolynomialOrder.
Context {S : Scalar} {C : Collaborators}.

Lemma fitPolynomialCurve_above_maximum (points : vtkPoints) (output : option vtkPolyData)
  (tubeRadius : double) (tubeNumberOfSides segments polynomialOrder : Z)
  (pointParameters : vtkDoubleArray) (log : list Warning) :
  (6 < polynomialOrder)%Z ->
  fitPolynomialCurve points output tubeRadius tubeNumberOfSides segments polynomialOrder
    pointParameters log
  = fitPolynomialCurve points output tubeRadius tubeNumberOfSides segments 6
      pointParameters (log ++ [PolynomialOrderNotSupported polynomialOrder 6]).
Proof.
  intros Horder. unfold fitPolynomialCurve, clampPolynomialOrder.
  destruct (Z.ltb_spec 6 polynomialOrder); [ | lia ].
  cbn [Z.ltb Z.compare Pos.compare Pos.compare_cont]. now rewrite app_nil_r.
Qed.

Lemma fitPolynomialCurve_warnings (points : vtkPoints) (output : option vtkPolyData)
  (tubeRadius : double) (tubeNumberOfSides segments polynomialOrder : Z)
  (pointParameters : vtkDoubleArray) (log : list Warning) :
  (1 <= length points)%nat -> (0 <= polynomialOrder)%Z ->
  outcomeWarnings
    (fitPolynomialCurve points output tubeRadius tubeNumberOfSides segments polynomialOrder
       pointParameters log)
  = log ++ snd (clampPolynomialOrder polynomialOrder).
Proof.
  intros Hn Horder. rewrite fitPolynomialCurve_run. cbv zeta.
  destruct (_ <? 0)%Z; [ reflexivity | ].
  destruct (zero <? tubeRadius)%D; reflexivity.
Qed.

Lemma clampPolynomialOrder_min (polynomialOrder : Z) :
  clampPolynomialOrder polynomialOrder
  = (Z.min polynomialOrder 6,
     if (6 <? polynomialOrder)%Z then [PolynomialOrderNotSupported polynomialOrder 6] else []).
Proof.
  unfold clampPolynomialOrder.
  destruct (Z.ltb_spec 6 polynomialOrder); f_equal; lia.
Qed.

(** C4, as the code has it.  The order is capped from above only: the
    order used is [min polynomialOrder 6].  An order above 6 is no
    failure: the generator warns that the order is not supported, goes on
    with order 6 and builds the curve.  A requested order of 0 or more
    gives an order in [0,6], and from one to seven coefficients.  (Nothing
    raises a negative order.) *)
Theorem polynomial_order_is_capped (points : vtkPoints) (mesh : vtkPolyData)
  (tubeRadius : double) (tubeNumberOfSides segments : Z) (tubeLoop : bool)
  (polynomialOrder : Z) (inputPointParameters : option vtkDoubleArray) :
  let clamped := fst (clampPolynomialOrder polynomialOrder) in
  let downgrade := PolynomialOrderNotSupported polynomialOrder 6 in
  clamped = Z.min polynomialOrder 6
  /\ ((6 < polynomialOrder)%Z ->
      clampPolynomialOrder polynomialOrder = (6%Z, [downgrade])
      /\ forall pointParameters,
           (3 <= length points)%nat ->
           acceptedParameters (length points) inputPointParameters pointParameters ->
           let outcome :=
             GeneratePolynomialCurveModel (Some points) (Some mesh) tubeRadius
               tubeNumberOfSides segments tubeLoop polynomialOrder inputPointParameters in
           outcome = fitPolynomialCurve points (Some mesh) tubeRadius tubeNumberOfSides
                       segments 6 pointParameters [downgrade]
           /\ outcomeWarnings outcome = [downgrade]
           /\ exists curve, smoothedSegmentsOf outcome = Some curve)
  /\ ((0 <= polynomialOrder)%Z ->
      (0 <= clamped <= 6)%Z
      /\ snd (clampPolynomialOrder polynomialOrder)
         = (if (6 <? polynomialOrder)%Z then [downgrade] else [])
      /\ forall pointParameters,
           (1 <= length points)%nat ->
           (1 <= numberOfPolynomialCoefficients clamped (length points) pointParameters <= 7)%Z).
Proof.
  intros clamped downgrade. subst clamped downgrade.
  rewrite !clampPolynomialOrder_min. cbn [fst snd].
  destruct (Z.ltb_spec 6 polynomialOrder) as [Habove|Hbelow].
  - replace (Z.min polynomialOrder 6) with 6%Z by lia.
    split; [ lia | split ].
    + intros _. split; [ reflexivity | ]. intros pointParameters Hn Haccepted. cbv zeta.
      rewrite (GeneratePolynomialCurveModel_fit _ _ _ _ _ _ _ _ pointParameters)
        by assumption.
      rewrite fitPolynomialCurve_above_maximum by assumption. cbn [app].
      split; [ reflexivity | split ].
      * now rewrite fitPolynomialCurve_warnings by lia.
      * apply fitPolynomialCurve_defined; lia.
    + intros Horder. split; [ lia | split; [ reflexivity | ] ].
      intros pointParameters Hn.
      pose proof (numberOfPolynomialCoefficients_bounds 6 (length points) pointParameters Hn).
      lia.
  - replace (Z.min polynomialOrder 6) with polynomialOrder by lia.
    split; [ lia | split; [ lia | ] ].
    intros Horder. split; [ lia | split; [ reflexivity | ] ].
    intros pointParameters Hn.
    pose proof (numberOfPolynomialCoefficients_bounds polynomialOrder (length points)
                  pointParameters Hn Horder).
    lia.
Qed.

End PolynomialOrder.

Lemma polynomial_order_is_capped_witness :
  (6 < 10)%Z
  /\ (3 <= length [P64 0 0 0; P64 1 2 0; P64 2 0 0])%nat
  /\ outcomeWarnings
       (@GeneratePolynomialCurveModel binary64 standInCollaborators
          (Some [P64 0 0 0; P64 1 2 0; P64 2 0 0]) (Some PolyDataInitialized)
          (of_int 1) 8 5 false 10 None)
     = [PolynomialOrderNotSupported 10 6].
Proof.
  split; [ lia | split; [ cbn; lia | ] ].
  destruct (@polynomial_order_is_capped binary64 standInCollaborators
              [P64 0 0 0; P64 1 2 0; P64 2 0 0] PolyDataInitialized (of_int 1) 8%Z 5%Z
              false 10%Z None) as (_ & Habove & _).
  destruct Habove as [_ Hrun]; [ lia | ].
  destruct (Hrun (indexParameters 3)) as (_ & Hwarnings & _);
    [ cbn; lia | left; split; reflexivity | exact Hwarnings ].
Defined.

(** C4 as stated fails below the range: a requested order of -1 is used
    as it is, and the generator then sizes its buffers by zero: no
    coefficient is fitted, and the curve it returns, of
    [2 * 5 + 1 = 11] points, has every point at the origin.  An order of
    -2 is used as it is too, and the first buffer is given a negative
    size. *)
Lemma polynomial_order_negative_counterexample :
  fst (clampPolynomialOrder (-1)) = (-1)%Z
  /\ ~ (0 <= fst (clampPolynomialOrder (-1)) <= 6)%Z
  /\ @GeneratePolynomialCurveModel binary64 standInCollaborators
       (Some [P64 0 0 0; P64 1 2 0; P64 2 0 0]) (Some PolyDataInitialized)
       (of_int 1) 8 5 false (-1) None
     = PolynomialReturned
         (mkEffect
            (Some (TubeFilterOutput
                     (PolyDataLines (replicate 11 (P64 0 0 0)) [seq 0 11])
                     (of_int 1) 8 true)) [])
  /\ @GeneratePolynomialCurveModel binary64 standInCollaborators
       (Some [P64 0 0 0; P64 1 2 0; P64 2 0 0]) (Some PolyDataInitialized)
       (of_int 1) 8 5 false (-2) None
     = PolynomialThrows (mkEffect (Some PolyDataInitialized) []).
Proof.
  split; [ reflexivity | split; [ | split ] ].
  - cbn. lia.
  - vm_compute. reflexivity.
  - vm_compute. reflexivity.
Qed.

(** ** Radius zero *)
Section RadiusZero.
Context {S : Scalar} {C : Collaborators}.

(** The extrusion bypass of [GetTubePolyDataFromPoints]: when the radius
    is not positive the output is the bare line mesh, one cell that
    visits every point in order. *)
Lemma GetTubePolyDataFromPoints_bypass (points : vtkPoints) (mesh : vtkPolyData)
  (tubeRadius : double) (tubeNumberOfSides : Z) :
  (zero <? tubeRadius)%D = false ->
  GetTubePolyDataFromPoints (Some points) (Some mesh) tubeRadius tubeNumberOfSides
  = mkEffect (Some (PolyDataLines points [seq 0 (length points)])) [].
Proof. intros Hradius. unfold GetTubePolyDataFromPoints. now rewrite Hradius. Qed.

(** The same branch of the polynomial fit (line 690) does not reach the
    output object: the run throws before it writes, or the line mesh went
    to [outputTube]; either way [outputTubePolyData] is as before. *)
Lemma fitPolynomialCurve_radius_not_positive (points : vtkPoints) (output : option vtkPolyData)
  (tubeRadius : double) (tubeNumberOfSides segments polynomialOrder : Z)
  (pointParameters : vtkDoubleArray) (log : list Warning) :
  (zero <? tubeRadius)%D = false ->
  let outcome := fitPolynomialCurve points output tubeRadius tubeNumberOfSides segments
                   polynomialOrder pointParameters log in
  (exists log', outcome = PolynomialThrows (mkEffect output log'))
  \/ exists log' line, outcome = PolynomialCopiedToOutputTube (mkEffect output log') line.
Proof.
  intros Hradius. cbv zeta. rewrite fitPolynomialCurve_run. cbv zeta.
  destruct (_ <? 0)%Z; [ left; eauto | right ].
  rewrite Hradius. eauto.
Qed.

End RadiusZero.

(** C2, on the code.  With [tubeRadius = 0], [GetTubePolyDataFromPoints]
    returns the bare line mesh.  The polynomial generator builds the same
    kind of mesh, but its radius-0 branch copies it through [outputTube]:
    on three points the output object [outputTubePolyData] comes back as
    it went in, not as the line mesh. *)
Theorem radius_zero_polynomial_output_untouched (C : @Collaborators binary64) :
  let points := [P64 0 0 0; P64 1 0 0; P64 2 0 0] in
  @GetTubePolyDataFromPoints binary64 (Some points) (Some PolyDataInitialized) (of_int 0) 8
  = mkEffect (Some (PolyDataLines points [[0; 1; 2]%nat])) []
  /\ exists smoothedPoints,
       @GeneratePolynomialCurveModel binary64 C (Some points)
         (Some PolyDataInitialized) (of_int 0) 8 1 false 3 None
       = PolynomialCopiedToOutputTube (mkEffect (Some PolyDataInitialized) [])
           (PolyDataLines smoothedPoints [[0; 1; 2]%nat]).
Proof.
  cbv zeta. split; [ vm_compute; reflexivity | ].
  rewrite GeneratePolynomialCurveModel_absent by (cbn; lia).
  unfold fitPolynomialCurve.
  change (clampPolynomialOrder 3) with (3%Z, @nil Warning). cbv iota beta.
  rewrite polynomialSamples_map.
  eexists. vm_compute. reflexivity.
Qed.

(** C1, on the code (binary64).  Points 0, 1, 2 at x = 0, 10, 1 on a
    line: the farthest pair is (0, 1), the tree is 0 - 2 - 1 and the
    trunk path, walked from the end vertex to the start vertex, is
    1, 2, 0.  Its edges are 9 and 1 long, so the trunk length is 10, and
    vertex 2 lies at distance 1 from the start vertex and 9 from the end
    vertex.  The loops of lines 865-868 and 880-884 add [graph[i][i + 1]],
    the distances between the points of index [i] and [i + 1], whatever
    the path is: the total comes out as
    [graph[0][1] + graph[1][2] = 10 + 9 = 19], and vertex 2 receives
    10/19, which is neither 1/10 nor 9/10.  On four points at unit
    spacing every [graph[i][i + 1]] is 1, the total is the trunk length,
    and the parameters are those of the index-based parameterizer in
    reverse order: 1, 2/3, 1/3, 0. *)
Theorem spanning_tree_trunk_length_miscounted :
  let points := [P64 0 0 0; P64 10 0 0; P64 1 0 0] in
  let unit := [P64 0 0 0; P64 1 0 0; P64 2 0 0; P64 3 0 0] in
  (exists distances,
     @minimumSpanningTreeTrunk binary64 points
     = Some (distances, [-1; 2; 0]%Z, [1; 2; 0]%Z)
     /\ treeStartIndex (@farthestPair binary64 points) = 0%nat
     /\ treeEndIndex (@farthestPair binary64 points) = 1%nat
     /\ trunkEdgeLengths 3 distances [1; 2; 0]%Z = [of_int 9; of_int 1]
     /\ trunkLength 3 distances [1; 2; 0]%Z = of_int 10
     /\ graph 3 distances 0 1 = of_int 10
     /\ graph 3 distances 1 2 = of_int 9
     /\ sumOfDistances 3 distances [1; 2; 0]%Z = of_int 19)
  /\ @ComputePointParametersFromMinimumSpanningTree binary64 (Some points) (Some [])
     = Some (mkParameterRun ParametersAssigned
               (Some [of_int 1; of_int 0; (of_int 10 / of_int 19)%D]) [])
  /\ @deqb binary64 (of_int 10 / of_int 19)%D (of_int 1 / of_int 10)%D = false
  /\ @deqb binary64 (of_int 10 / of_int 19)%D (of_int 9 / of_int 10)%D = false
  /\ @ComputePointParametersFromMinimumSpanningTree binary64 (Some unit) (Some [])
     = Some (mkParameterRun ParametersAssigned
               (Some [of_int 1; (of_int 2 / of_int 3)%D; (of_int 1 / of_int 3)%D; of_int 0])
               [])
  /\ @indexParameters binary64 4
     = [of_int 0; (of_int 1 / of_int 3)%D; (of_int 2 / of_int 3)%D; of_int 1].
Proof.
  cbv zeta. split; [ | repeat split; vm_compute; reflexivity ].
  eexists. split; [ vm_compute; reflexivity | ].
  repeat split; vm_compute; reflexivity.
Qed.

(** ** The spanning-tree parameterizer in exact arithmetic *)

Lemma foldl_seq_invariant {A : Type} (P : nat -> A -> Prop) (f : A -> nat -> A) (n : nat) (a : A) :
  P 0%nat a ->
  (forall i a, (i < n)%nat -> P i a -> P (Datatypes.S i) (f a i)) ->
  P n (foldl f a (seq 0 n)).
Proof.
  intros Hstart. induction n as [|n IH]; intros Hstep; [ exact Hstart | ].
  rewrite seq_S, foldl_app. cbn [foldl Nat.add].
  apply Hstep; [ lia | ]. apply IH. intros i b Hi. apply Hstep. lia.
Qed.

Lemma gap_sym (u v : nat) : gap u v = gap v u.
Proof. unfold gap. apply Rabs_minus_sym. Qed.

Lemma gap_le (u v : nat) : (u <= v)%nat -> gap u v = (INR v - INR u)%R.
Proof.
  intros Huv. unfold gap. apply le_INR in Huv.
  rewrite Rabs_minus_sym. apply Rabs_pos_eq. lra.
Qed.

Lemma gap_bound (u v n : nat) : (u < n)%nat -> (v < n)%nat -> (gap u v <= INR (n - 1))%R.
Proof.
  intros Hu Hv.
  destruct (Nat.le_ge_cases u v) as [Huv|Huv].
  - rewrite gap_le by assumption. rewrite <- minus_INR by assumption. apply le_INR. lia.
  - rewrite gap_sym, gap_le by assumption. rewrite <- minus_INR by assumption. apply le_INR. lia.
Qed.

Section Line.
Variable points : list (@Point exact).
Let N := length points.
Hypothesis Hline : UnitSpaced points.
Hypothesis HN : (2 <= N)%nat.

Lemma farthestPair_line :
  rowsDone N N 0 (farthestPair points).
Proof.
  unfold farthestPair. fold N.
  apply (foldl_seq_invariant (fun v st => rowsDone N v 0 st)).
  - unfold rowsDone. cbn. rewrite length_replicate. repeat split; try reflexivity.
    intros v' u' [H|[_ H]]; lia.
  - intros v st Hv Hrow.
    cbv beta.
    match goal with
    | |- rowsDone _ _ _ (foldl ?f st (seq 0 N)) =>
        assert (Hend : rowsDone N v N (foldl f st (seq 0 N)));
        [ | revert Hend; generalize (foldl f st (seq 0 N)) ]
    end.
    { apply (foldl_seq_invariant (fun u st => rowsDone N v u st)); [ exact Hrow | ].
      clear st Hrow. intros u st Hu (Hlen & Hentries & Hstart & Htrack). cbv zeta.
      rewrite (Hline u v Hu Hv). reals.
      assert (Hnew : length (<[(v * N + u)%nat := gap u v]> (distances st)) = (N * N)%nat)
        by now rewrite length_insert.
      assert (Hentries' : forall v' u', (v' < v \/ (v' = v /\ u' < Datatypes.S u))%nat ->
                (v' < N)%nat -> (u' < N)%nat ->
                <[(v * N + u)%nat := gap u v]> (distances st) !! (v' * N + u')%nat
                = Some (gap v' u')).
      { intros v' u' Hdone Hv' Hu'.
        destruct (decide (v' = v /\ u' = u)) as [[-> ->]|Hne].
        - rewrite list_lookup_insert_eq by (rewrite Hlen; nia). now rewrite gap_sym.
        - rewrite list_lookup_insert_ne.
          + apply Hentries; [ lia | assumption | assumption ].
          + destruct Hdone as [Hlt|[-> Hlt]]; [ | lia ].
            assert (v' * N + N <= v * N)%nat by nia. lia. }
      assert (Hd : gap u v = if (v =? 0)%nat then INR u else gap u v).
      { destruct (Nat.eqb_spec v 0) as [->|_]; [ | reflexivity ].
        rewrite gap_sym, gap_le by lia. cbn [INR]. lra. }
      assert (Hbound : (gap u v <= INR (N - 1))%R) by now apply gap_bound.
      set (d := gap u v) in *.
      change (dltb (maximumDistance st) d) with (Rltb (maximumDistance st) d).
      unfold Rltb, rowsDone.
      destruct (Rlt_dec (maximumDistance st) d) as [Hlt|Hge];
        cbn [treeStartIndex treeEndIndex maximumDistance distances];
        (split; [ exact Hnew | split; [ exact Hentries' | ] ]).
      - destruct (Nat.eqb_spec v 0) as [->|Hv0]; destruct Htrack as [Hend Hmax].
        + repeat split. cbn [pred]. exact Hd.
        + exfalso. lra.
      - split; [ exact Hstart | ].
        destruct (Nat.eqb_spec v 0) as [->|Hv0]; destruct Htrack as [Hend Hmax];
          [ | split; assumption ].
        assert (u = 0)%nat as ->.
        { destruct u as [|u']; [ reflexivity | ]. exfalso. apply Hge.
          rewrite Hmax, Hd. apply lt_INR. cbn. lia. }
        split; assumption. }
    intros st' (Hlen & Hentries & Hstart & Htrack).
    unfold rowsDone. split; [ exact Hlen | split; [ | split; [ exact Hstart | ] ] ].
    + intros v' u' Hdone Hv' Hu'. apply Hentries; [ lia | assumption | assumption ].
    + cbn [Nat.eqb]. rewrite Nat.sub_1_r. destruct (v =? 0)%nat; [ exact Htrack | ].
      now rewrite <- Nat.sub_1_r.
Qed.

End Line.

Section PrimOnLine.
Variable N : nat.
Variable D : list (@double exact).
Hypothesis HD : LineMatrix N D.
Hypothesis HN : (2 <= N)%nat.
Hypothesis HMAX : (INR N < MAX)%R.

Lemma graph_line (v u : nat) : (v < N)%nat -> (u < N)%nat -> graph N D v u = gap v u.
Proof.
  intros Hv Hu. unfold graph, GetValue. destruct HD as [_ Hentries].
  reals. now rewrite (Hentries v u Hv Hu).
Qed.

Lemma primInitial_line : PrimAfter N 0 (primInitial N 0).
Proof.
  unfold PrimAfter, primInitial. cbn [parent key mstSet].
  rewrite !length_insert, !length_replicate. repeat split; try reflexivity.
  - destruct v as [|v].
    + apply list_lookup_insert_eq. rewrite length_replicate. lia.
    + rewrite list_lookup_insert_ne by lia. now apply lookup_replicate_2.
  - destruct v as [|v].
    + rewrite list_lookup_insert_eq by (rewrite length_replicate; lia). reflexivity.
    + rewrite list_lookup_insert_ne by lia. now apply lookup_replicate_2.
  - rewrite lookup_replicate_2 by assumption. reflexivity.
Qed.

Lemma keyAfter_self_lt (k v : nat) : (v < N)%nat -> (k < v)%nat -> ~ (keyAfter k v < keyAfter k k)%R.
Proof.
  intros Hv Hk. unfold keyAfter.
  destruct (Nat.eqb_spec v 0); [ lia | ].
  destruct (Nat.eqb_spec k 0) as [->|Hk0].
  - apply lt_INR in Hv. pose proof (pos_INR N). lra.
  - rewrite Nat.leb_refl. destruct (Nat.leb_spec v k); [ lia | ].
    assert (1 < INR (v - k + 1))%R by (apply (lt_INR 1); lia). lra.
Qed.

Lemma keyAfter_self_lt_MAX (k : nat) : (k < N)%nat -> (keyAfter k k < MAX)%R.
Proof.
  intros Hk. unfold keyAfter. apply lt_INR in Hk as HkR.
  assert (2 <= INR N)%R by (apply (le_INR 2); lia).
  destruct (Nat.eqb_spec k 0); [ lra | ]. rewrite Nat.leb_refl. lra.
Qed.

Lemma pickNextPoint_line (k : nat) (st : @Prim exact) :
  (k < N)%nat -> PrimAfter N k st -> pickNextPoint N st = Z.of_nat k.
Proof.
  intros Hk (_ & _ & _ & Hst). unfold pickNextPoint.
  match goal with
  | |- fst (foldl ?f ?a ?l) = _ =>
      assert (Hloop : (fun v state => state = if (v <=? k)%nat then ((-1)%Z, MAX)
                                               else (Z.of_nat k, keyAfter k k))
                        N (foldl f a l))
  end.
  { apply foldl_seq_invariant; [ reflexivity | ].
    intros v state Hv ->. destruct (Hst v Hv) as (_ & Hkey & Hmst).
    unfold GetValue. reals.
    destruct (Nat.leb_spec v k) as [Hle|Hgt]; cbv iota beta; rewrite Hkey, Hmst; cbn [default from_option]; unfold Datatypes.id.
    - destruct (Nat.ltb_spec v k) as [Hlt|Hge]; cbn [negb andb].
      + destruct (Nat.leb_spec (Datatypes.S v) k); [ reflexivity | lia ].
      + assert (v = k) as -> by lia.
        unfold Rltb. destruct (Rlt_dec (keyAfter k k) MAX) as [_|Hno].
        * destruct (Nat.leb_spec (Datatypes.S k) k); [ lia | reflexivity ].
        * exfalso. apply Hno. now apply keyAfter_self_lt_MAX.
    - destruct (Nat.ltb_spec v k) as [Hlt|Hge]; [ lia | ]. cbn [negb andb].
      unfold Rltb. destruct (Rlt_dec (keyAfter k v) (keyAfter k k)) as [Hlt|_].
      + exfalso. revert Hlt. now apply keyAfter_self_lt.
      + destruct (Nat.leb_spec (Datatypes.S v) k); [ lia | reflexivity ]. }
  cbv beta in Hloop. rewrite Hloop. destruct (Nat.leb_spec N k); [ lia | reflexivity ].
Qed.

Lemma after_le (k j : nat) :
  (j <= k)%nat ->
  parentAfter (Datatypes.S k) j = parentAfter k j /\ keyAfter (Datatypes.S k) j = keyAfter k j.
Proof.
  intros Hj. unfold parentAfter, keyAfter.
  destruct (Nat.eqb_spec j 0); [ split; reflexivity | ].
  destruct (Nat.eqb_spec k 0); [ lia | ]. cbn [Nat.eqb].
  destruct (Nat.leb_spec j k); [ | lia ].
  destruct (Nat.leb_spec j (Datatypes.S k)); [ | lia ].
  split; [ f_equal; lia | reflexivity ].
Qed.

Lemma after_gt (k j : nat) :
  (k < j)%nat -> (j < N)%nat ->
  parentAfter (Datatypes.S k) j = Z.of_nat k
  /\ keyAfter (Datatypes.S k) j = gap k j
  /\ (gap k j < keyAfter k j)%R
  /\ (0 <= gap k j)%R.
Proof.
  intros Hk Hj. unfold parentAfter, keyAfter. rewrite gap_le by lia.
  destruct (Nat.eqb_spec j 0); [ lia | ]. cbn [Nat.eqb].
  assert (HjR : (INR j - INR k = INR (j - k))%R) by (rewrite minus_INR by lia; reflexivity).
  assert (Hpos : (1 <= INR (j - k))%R) by (apply (le_INR 1); lia).
  split; [ lia | split; [ | split; [ | lra ] ] ].
  - destruct (Nat.leb_spec j (Datatypes.S k)).
    + assert (j = Datatypes.S k) as -> by lia. rewrite S_INR. lra.
    + rewrite HjR. f_equal. lia.
  - destruct (Nat.eqb_spec k 0) as [->|Hk0].
    + apply lt_INR in Hj. cbn [INR]. lra.
    + destruct (Nat.leb_spec j k); [ lia | ].
      rewrite HjR. replace (j - k + 1)%nat with (Datatypes.S (j - k)) by lia.
      rewrite S_INR. lra.
Qed.

Lemma relaxNeighbours_line (k : nat) (st : @Prim exact) :
  (k < N)%nat -> PrimAfter N k st ->
  PrimAfter N (Datatypes.S k)
    (relaxNeighbours N D k (mkPrim (parent st) (key st) (<[k := true]> (mstSet st)))).
Proof.
  intros Hk (Hparent & Hkey & Hmst & Hst). unfold relaxNeighbours.
  pose (Inv := fun (j : nat) (st' : @Prim exact) =>
           length (parent st') = N /\ length (key st') = N /\ length (mstSet st') = N
           /\ forall v, (v < N)%nat ->
                mstSet st' !! v = Some (v <? Datatypes.S k)%nat
                /\ parent st' !! v
                   = Some (parentAfter (if (v <? j)%nat then Datatypes.S k else k) v)
                /\ key st' !! v
                   = Some (keyAfter (if (v <? j)%nat then Datatypes.S k else k) v)).
  match goal with
  | |- PrimAfter _ _ (foldl ?f ?a ?l) => assert (Hloop : Inv N (foldl f a l))
  end.
  { apply (foldl_seq_invariant Inv); unfold Inv.
    - cbn [parent key mstSet]. rewrite length_insert.
      split; [ assumption | split; [ assumption | split; [ assumption | ] ] ].
      intros v Hv. destruct (Hst v Hv) as (Hp & Hk' & Hm).
      change (v <? 0)%nat with false. cbv iota.
      split; [ | split; assumption ].
      destruct (decide (v = k)) as [->|Hne].
      + rewrite list_lookup_insert_eq by lia. f_equal. symmetry. apply Nat.ltb_lt. lia.
      + rewrite list_lookup_insert_ne by lia. rewrite Hm. f_equal.
        destruct (Nat.ltb_spec v k), (Nat.ltb_spec v (Datatypes.S k)); lia || reflexivity.
    - cbv beta. intros j st' Hj (Hparent' & Hkey' & Hmst' & Hst').
      destruct (Hst' j Hj) as (Hmstj & Hparentj & Hkeyj).
      rewrite Nat.ltb_irrefl in Hparentj, Hkeyj.
      rewrite graph_line by assumption. unfold GetValue. reals.
      rewrite Hmstj, Hkeyj. cbn [default from_option]. unfold Datatypes.id.
      destruct (Nat.ltb_spec j (Datatypes.S k)) as [Hle|Hgt]; cbn [negb].
      + rewrite andb_false_r. cbn [andb].
        split; [ assumption | split; [ assumption | split; [ assumption | ] ] ].
        intros v Hv. destruct (Hst' v Hv) as (Hm & Hp & Hk').
        split; [ exact Hm | ].
        destruct (Nat.ltb_spec v (Datatypes.S j)) as [Hvj|Hvj];
          destruct (Nat.ltb_spec v j) as [Hvj'|Hvj']; try lia; try (split; assumption).
        assert (v = j) as -> by lia.
        destruct (after_le k j) as [-> ->]; [ lia | split; assumption ].
      + destruct (after_gt k j) as (Hp & Hk' & Hlt & Hpos); [ lia | assumption | ].
        unfold Rleb, Rltb.
        destruct (Rle_dec 0 (gap k j)) as [_|Hno]; [ | contradiction ].
        destruct (Rlt_dec (gap k j) (keyAfter k j)) as [_|Hno]; [ | contradiction ].
        cbn [andb parent key mstSet]. rewrite !length_insert.
        split; [ assumption | split; [ assumption | split; [ assumption | ] ] ].
        intros v Hv. destruct (Hst' v Hv) as (Hm & Hpv & Hkv).
        split; [ exact Hm | ].
        destruct (decide (v = j)) as [->|Hne].
        * rewrite !list_lookup_insert_eq by lia.
          destruct (Nat.ltb_spec j (Datatypes.S j)); [ | lia ].
          rewrite Hp, Hk'. split; reflexivity.
        * rewrite !list_lookup_insert_ne by lia.
          destruct (Nat.ltb_spec v (Datatypes.S j)) as [Hvj|Hvj];
            destruct (Nat.ltb_spec v j) as [Hvj'|Hvj']; try lia; split; assumption. }
  destruct Hloop as (Hparent' & Hkey' & Hmst' & Hst').
  unfold PrimAfter. split; [ assumption | split; [ assumption | split; [ assumption | ] ] ].
  intros v Hv. destruct (Hst' v Hv) as (Hm & Hp & Hk').
  destruct (Nat.ltb_spec v N); [ | lia ]. repeat split; assumption.
Qed.

Lemma primStep_line (k : nat) (st : @Prim exact) :
  (k < N)%nat -> PrimAfter N k st ->
  exists st', primStep N D st = Some st' /\ PrimAfter N (Datatypes.S k) st'.
Proof.
  intros Hk Hst. unfold primStep. rewrite (pickNextPoint_line k st Hk Hst).
  destruct (Z.ltb_spec (Z.of_nat k) 0); [ lia | ].
  rewrite Nat2Z.id. eexists. split; [ reflexivity | ]. now apply relaxNeighbours_line.
Qed.

Lemma primLoop_line (count k : nat) (st : @Prim exact) :
  (k + count <= N)%nat -> PrimAfter N k st ->
  exists st', primLoop count N D st = Some st' /\ PrimAfter N (k + count) st'.
Proof.
  revert k st. induction count as [|count IH]; intros k st Hk Hst.
  - exists st. rewrite Nat.add_0_r. split; [ reflexivity | assumption ].
  - cbn [primLoop]. destruct (primStep_line k st) as (st1 & -> & Hst1); [ lia | assumption | ].
    destruct (IH (Datatypes.S k) st1) as (st' & Hloop & Hst'); [ lia | assumption | ].
    exists st'. split; [ exact Hloop | ]. now replace (k + Datatypes.S count)%nat
      with (Datatypes.S k + count)%nat by lia.
Qed.

End PrimOnLine.

Lemma descending_S (n : nat) : descending (Datatypes.S n) = Z.of_nat n :: descending n.
Proof. unfold descending. now rewrite seq_S, rev_app_distr. Qed.

Lemma length_descending (N : nat) : length (descending N) = N.
Proof. unfold descending. now rewrite length_map, length_rev, length_seq. Qed.

Lemma trunkPath_line (N : nat) (parent : list Z) :
  (forall v, (v < N)%nat -> parent !! v = Some (Z.of_nat v - 1)%Z) ->
  forall m fuel acc, (m < N)%nat -> (m < fuel)%nat ->
    trunkPath fuel parent (Z.of_nat m) acc = Some (acc ++ descending (Datatypes.S m)).
Proof.
  intros Hparent. induction m as [|m IH]; intros fuel acc Hm Hfuel.
  - destruct fuel as [|fuel]; [ lia | ]. cbn [trunkPath].
    change (Z.of_nat 0 =? -1)%Z with false. cbv iota.
    unfold at_int. change (Z.of_nat 0 <? 0)%Z with false. cbv iota.
    change (Z.to_nat (Z.of_nat 0)) with 0%nat. rewrite (Hparent 0%nat Hm).
    change (Z.of_nat 0 - 1)%Z with (-1)%Z. destruct fuel; reflexivity.
  - destruct fuel as [|fuel]; [ lia | ]. cbn [trunkPath].
    destruct (Z.eqb_spec (Z.of_nat (Datatypes.S m)) (-1)); [ lia | ].
    unfold at_int. destruct (Z.ltb_spec (Z.of_nat (Datatypes.S m)) 0); [ lia | ].
    rewrite Nat2Z.id, (Hparent (Datatypes.S m) Hm).
    replace (Z.of_nat (Datatypes.S m) - 1)%Z with (Z.of_nat m) by lia.
    rewrite IH by lia. rewrite (descending_S (Datatypes.S m)), <- app_assoc. reflexivity.
Qed.

Lemma findAlongPath_descending (N i : nat) :
  (i < N)%nat -> findAlongPath (descending N) (Z.of_nat i) = Some (N - 1 - i)%nat.
Proof.
  induction N as [|n IH]; intros Hi; [ lia | ].
  rewrite descending_S. cbn [findAlongPath].
  destruct (Z.eqb_spec (Z.of_nat n) (Z.of_nat i)) as [Heq|Hne].
  - f_equal. lia.
  - rewrite IH by lia. cbn. f_equal. lia.
Qed.

Lemma assignParameters_map (numPoints : nat) (parent pathIndices : list Z)
  (parameters : list (@double exact)) (position : nat -> nat) (value : nat -> R)
  (vertices : list nat) (array : list (@double exact)) :
  (forall v, In v vertices ->
     indexAlongPath numPoints parent pathIndices (Z.of_nat v) = Some (position v)
     /\ parameters !! position v = Some (value v)) ->
  assignParameters vertices numPoints parent pathIndices parameters array
  = Some (array ++ map value vertices).
Proof.
  revert array. induction vertices as [|v rest IH]; intros array Hall; cbn.
  - now rewrite app_nil_r.
  - destruct (Hall v) as [Hposition Hvalue]; [ now left | ].
    reals. rewrite Hposition, Hvalue. rewrite IH by (intros w Hw; apply Hall; now right).
    unfold InsertNextTuple1. now rewrite <- app_assoc.
Qed.

Section ParametersOnLine.
Variable N : nat.
Variable D : list (@double exact).
Hypothesis HD : LineMatrix N D.
Hypothesis HN : (2 <= N)%nat.

Lemma graph_next (i : nat) : (Datatypes.S i < N)%nat -> graph N D i (i + 1) = 1%R.
Proof.
  intros Hi. rewrite (graph_line N D HD) by lia. rewrite gap_le by lia.
  rewrite Nat.add_1_r, S_INR. lra.
Qed.

Lemma sumOfDistances_line (pathIndices : list Z) :
  length pathIndices = N -> sumOfDistances N D pathIndices = INR (N - 1).
Proof.
  intros Hlen. unfold sumOfDistances. rewrite Hlen.
  apply (foldl_seq_invariant (fun i (sum : R) => sum = INR i)); [ reflexivity | ].
  intros i sum Hi ->. rewrite graph_next by lia. reals. rewrite S_INR. reflexivity.
Qed.

Lemma pathParameters_line (pathIndices : list Z) (total : R) :
  length pathIndices = N ->
  pathParameters N D pathIndices total = map (fun j => (INR j / total)%R) (seq 0 N).
Proof.
  intros Hlen. unfold pathParameters. rewrite Hlen.
  pose (Inv := fun (i : nat) (state : list R * R) =>
                 state = (map (fun j => (INR j / total)%R) (seq 0 i), INR i)).
  match goal with
  | |- (let '(_, _) := foldl ?f ?a ?l in _) = _ => assert (Hloop : Inv (N - 1)%nat (foldl f a l))
  end.
  { apply (foldl_seq_invariant Inv); unfold Inv; [ reflexivity | ].
    intros i state Hi ->. rewrite graph_next by lia. reals.
    rewrite seq_S, map_app, S_INR. reflexivity. }
  unfold Inv in Hloop. reals. rewrite Hloop.
  replace N with (Datatypes.S (N - 1)) at 3 by lia. now rewrite seq_S, map_app.
Qed.

End ParametersOnLine.

Lemma int_below_VTK_DOUBLE_MAX (N : nat) : (Z.of_nat N <= 2147483647)%Z -> (INR N < MAX)%R.
Proof.
  intros HN. rewrite INR_IZR_INZ. unfold MAX. cbn [VTK_DOUBLE_MAX exact].
  apply IZR_lt. eapply Z.le_lt_trans; [ exact HN | ]. reflexivity.
Qed.

Lemma UnitSpaced_lineOfPoints (origin direction : @Point exact) (N : nat) :
  (coord0 direction * coord0 direction + coord1 direction * coord1 direction
   + coord2 direction * coord2 direction = 1)%R ->
  UnitSpaced (lineOfPoints origin direction N).
Proof.
  intros Hunit u v Hu Hv. unfold lineOfPoints in *. rewrite length_map, length_seq in Hu, Hv.
  unfold GetPoint.
  change (map ?f ?l) with (f <$> l).
  rewrite !list_lookup_fmap, !lookup_seq_lt by assumption. cbn [fmap option_fmap option_map default from_option].
  unfold Datatypes.id, distance3D. cbn [coord0 coord1 coord2]. reals.
  change (@dsqrt exact) with sqrt. change (@dsub exact) with Rminus. change (@dmul exact) with Rmult.
  cbn [Nat.add].
  match goal with
  | |- sqrt ?x = _ => replace x with (Rsqr (INR u - INR v))
  end.
  - apply sqrt_Rsqr_abs.
  - unfold Rsqr.
    transitivity ((INR u - INR v) * (INR u - INR v)
                  * (coord0 direction * coord0 direction + coord1 direction * coord1 direction
                     + coord2 direction * coord2 direction))%R.
    + rewrite Hunit. ring.
    + ring.
Qed.

Lemma indexAlongPath_found (fuel : nat) (parent pathIndices : list Z) (currentIndex : Z) (j : nat) :
  findAlongPath pathIndices currentIndex = Some j ->
  indexAlongPath fuel parent pathIndices currentIndex = Some j.
Proof. intros Hfound. destruct fuel; cbn; now rewrite Hfound. Qed.

(** The run of the spanning-tree parameterizer on a unit-spaced line. *)
Lemma ComputePointParametersFromMinimumSpanningTree_line
  (points : list (@Point exact)) (prior : list (@double exact)) :
  UnitSpaced points ->
  (2 <= length points)%nat ->
  (Z.of_nat (length points) <= 2147483647)%Z ->
  minimumSpanningTreeTrunk points
  = Some (distances (farthestPair points),
          map (fun v => (Z.of_nat v - 1)%Z) (seq 0 (length points)),
          descending (length points))
  /\ sumOfDistances (length points) (distances (farthestPair points))
       (descending (length points)) = INR (length points - 1)
  /\ @ComputePointParametersFromMinimumSpanningTree exact (Some points) (Some prior)
     = Some (mkParameterRun ParametersAssigned
               (Some (reversedIndexParameters (length points)))
               (if (0 <? GetNumberOfTuples prior)%Z then [AlreadyHasContents] else [])).
Proof.
  intros Hline HN Hint. set (N := length points) in *.
  pose proof (int_below_VTK_DOUBLE_MAX N Hint) as HMAX.
  destruct (farthestPair_line points Hline HN) as (Hlen & Hentries & Hstart & Htrack).
  fold N in Hlen, Hentries, Htrack.
  destruct (Nat.eqb_spec N 0) as [|_]; [ lia | ]. destruct Htrack as [Hend _].
  set (D := distances (farthestPair points)) in *.
  assert (HD : LineMatrix N D).
  { split; [ exact Hlen | ]. intros v u Hv Hu. apply Hentries; [ lia | assumption | assumption ]. }
  destruct (primLoop_line N D HD HN HMAX (N - 1) 0 (primInitial N 0))
    as (tree & Hloop & Hparent & _ & _ & Htree); [ lia | now apply primInitial_line | ].
  cbn [Nat.add] in Htree.
  assert (Hparents : forall v, (v < N)%nat -> parent tree !! v = Some (Z.of_nat v - 1)%Z).
  { intros v Hv. destruct (Htree v Hv) as (-> & _ & _). f_equal. unfold parentAfter.
    destruct (Nat.eqb_spec v 0) as [->|_]; [ reflexivity | ].
    destruct (Nat.eqb_spec (N - 1) 0); lia. }
  assert (Hlist : parent tree = map (fun v => (Z.of_nat v - 1)%Z) (seq 0 N)).
  { apply list_eq. intros v. change (map ?f ?l) with (f <$> l). rewrite list_lookup_fmap.
    destruct (Nat.lt_ge_cases v N) as [Hv|Hv].
    - rewrite Hparents, lookup_seq_lt by assumption. reflexivity.
    - rewrite lookup_ge_None_2 by lia. rewrite lookup_seq_ge by lia. reflexivity. }
  assert (Htrunk : minimumSpanningTreeTrunk points = Some (D, parent tree, descending N)).
  { unfold minimumSpanningTreeTrunk. fold N D. rewrite Hstart, Hloop, Hend.
    rewrite (trunkPath_line N (parent tree) Hparents (N - 1) N []) by lia.
    cbn [app]. now replace (Datatypes.S (N - 1)) with N by lia. }
  assert (Hsum : sumOfDistances N D (descending N) = INR (N - 1)).
  { apply sumOfDistances_line; [ assumption | assumption | apply length_descending ]. }
  split; [ now rewrite <- Hlist | split; [ exact Hsum | ] ].
  unfold ComputePointParametersFromMinimumSpanningTree.
  destruct (Z.ltb_spec (GetNumberOfPoints points) 2) as [Hfew|_];
    [ unfold GetNumberOfPoints in Hfew; lia | ].
  rewrite Htrunk. fold N. rewrite Hsum.
  assert (Hcleared :
            (if (0 <? GetNumberOfTuples prior)%Z
             then (removeTuples (length prior) prior, [AlreadyHasContents])
             else (prior, []))
            = ([], if (0 <? GetNumberOfTuples prior)%Z then [AlreadyHasContents] else [])).
  { unfold GetNumberOfTuples. destruct (Z.ltb_spec 0 (Z.of_nat (length prior))).
    - now rewrite (@removeTuples_clears exact).
    - destruct prior; [ reflexivity | cbn in *; lia ]. }
  assert (Hpositive : (0 < INR (N - 1))%R) by (apply lt_0_INR; lia).
  reals. unfold Reqb. destruct (Req_dec_T (INR (N - 1)) 0) as [Hzero|_]; [ lra | ].
  rewrite (pathParameters_line N D HD HN) by apply length_descending.
  rewrite Hcleared.
  rewrite (assignParameters_map N (parent tree) (descending N) _
             (fun v => (N - 1 - v)%nat) (fun v => (INR (N - 1 - v) / INR (N - 1))%R)).
  - reflexivity.
  - intros v Hv. apply in_seq in Hv. split.
    + apply indexAlongPath_found, findAlongPath_descending. lia.
    + change (map ?f ?l) with (f <$> l). rewrite list_lookup_fmap, lookup_seq_lt by lia.
      reflexivity.
Qed.

Lemma farthestPair_bounds (points : list (@Point exact)) :
  (1 <= length points)%nat ->
  (treeStartIndex (farthestPair points) < length points)%nat
  /\ (treeEndIndex (farthestPair points) < length points)%nat.
Proof.
  intros HN. unfold farthestPair.
  pose (Inv := fun (_ : nat) (st : @FarthestPair exact) =>
                 (treeStartIndex st < length points)%nat
                 /\ (treeEndIndex st < length points)%nat).
  apply (foldl_seq_invariant Inv); unfold Inv; [ cbn; lia | ].
  intros v st Hv Hst.
  apply (foldl_seq_invariant Inv); unfold Inv; [ exact Hst | ].
  intros u st' Hu Hst'. cbv zeta.
  destruct (dltb _ _); cbn [treeStartIndex treeEndIndex]; [ lia | exact Hst' ].
Qed.

Section Root.
Variable numPoints : nat.
Variable start : nat.
Variable D : list (@double exact).
Hypothesis Hstart : (start < numPoints)%nat.

Lemma primInitial_Rooted : Rooted numPoints start (primInitial numPoints start).
Proof.
  unfold Rooted, primInitial. cbn [parent key].
  rewrite length_insert, length_replicate.
  split; [ reflexivity | split; [ | split ] ].
  - apply list_lookup_insert_eq. now rewrite length_replicate.
  - rewrite list_lookup_insert_eq by now rewrite length_replicate. reflexivity.
  - intros v p Hv Hp. rewrite list_lookup_insert_ne in Hp by lia.
    apply lookup_replicate_1 in Hp as [-> _]. lia.
Qed.

Lemma relaxNeighbours_Rooted (nextPointIndex : nat) (st : @Prim exact) :
  Rooted numPoints start st ->
  Rooted numPoints start (relaxNeighbours numPoints D nextPointIndex st).
Proof.
  intros Hst. unfold relaxNeighbours.
  apply (foldl_invariant (Rooted numPoints start)); [ | exact Hst ].
  clear st Hst. intros st v (Hlen & Hroot & Hkey & Hothers).
  destruct (dleb _ _ && _ && _) eqn:Hcond; [ | repeat split; assumption ].
  apply andb_prop in Hcond as [Hcond Hless]. apply andb_prop in Hcond as [Hpositive _].
  assert (Hv : v <> start).
  { intros ->. unfold GetValue in Hless. reals. rewrite Hkey in Hless.
    cbn [default from_option] in Hless. unfold Datatypes.id, Rltb, Rleb in *.
    destruct (Rle_dec 0 _); [ | discriminate ]. destruct (Rlt_dec _ 0); [ lra | discriminate ]. }
  unfold Rooted. cbn [parent key]. rewrite length_insert.
  split; [ assumption | split; [ | split ] ].
  - now rewrite list_lookup_insert_ne.
  - reals. now rewrite list_lookup_insert_ne.
  - intros w p Hw Hp. destruct (decide (w = v)) as [->|Hne].
    + apply list_lookup_insert_Some in Hp as [(_ & <- & _)|[? _]]; lia.
    + rewrite list_lookup_insert_ne in Hp by lia. eapply Hothers; eassumption.
Qed.

Lemma primLoop_Rooted (count : nat) (st tree : @Prim exact) :
  Rooted numPoints start st ->
  primLoop count numPoints D st = Some tree ->
  Rooted numPoints start tree.
Proof.
  revert st. induction count as [|count IH]; intros st Hst Hloop; cbn in Hloop.
  - now injection Hloop as <-.
  - unfold primStep in Hloop. destruct (_ <? 0)%Z; [ discriminate | ].
    eapply IH; [ | exact Hloop ]. apply relaxNeighbours_Rooted.
    destruct Hst as (Hlen & Hroot & Hkey & Hothers). repeat split; assumption.
Qed.

(** Only the start vertex has parent [-1]. *)
Lemma Rooted_root (tree : @Prim exact) (x : Z) :
  Rooted numPoints start tree ->
  at_int (parent tree) x = Some (-1)%Z -> x = Z.of_nat start.
Proof.
  intros (_ & _ & _ & Hothers) Hx. unfold at_int in Hx.
  destruct (Z.ltb_spec x 0); [ discriminate | ].
  destruct (decide (Z.to_nat x = start)) as [<-|Hne]; [ lia | ].
  specialize (Hothers _ _ Hne Hx). lia.
Qed.

End Root.

Lemma trunkPath_chain (fuel : nat) (parent : list Z) (currentPathIndex : Z)
  (pathIndices path : list Z) :
  trunkPath fuel parent currentPathIndex pathIndices = Some path ->
  exists walk, path = pathIndices ++ walk /\ chain parent currentPathIndex walk.
Proof.
  revert currentPathIndex pathIndices.
  induction fuel as [|fuel IH]; intros c acc Hpath; cbn in Hpath;
    destruct (Z.eqb_spec c (-1)) as [->|Hc]; try discriminate.
  - injection Hpath as <-. exists []. now rewrite app_nil_r.
  - injection Hpath as <-. exists []. now rewrite app_nil_r.
  - destruct (at_int parent c) as [up|] eqn:Hup; [ | discriminate ].
    apply IH in Hpath as (walk & -> & Hwalk).
    exists (c :: walk). rewrite <- app_assoc. split; [ reflexivity | ].
    cbn. eauto.
Qed.

Lemma chain_lookup (parent : list Z) (walk : list Z) (c : Z) (k : nat) (x : Z) :
  chain parent c walk -> walk !! k = Some x ->
  x <> (-1)%Z
  /\ exists up, at_int parent x = Some up
                /\ (walk !! Datatypes.S k = None -> up = (-1)%Z)
                /\ (forall y, walk !! Datatypes.S k = Some y -> up = y).
Proof.
  revert c k. induction walk as [|index rest IH]; intros c k Hchain Hk; [ discriminate | ].
  destruct Hchain as (-> & Hc & up & Hup & Hrest).
  destruct k as [|k]; cbn in Hk.
  - injection Hk as <-. split; [ assumption | ]. exists up. split; [ assumption | ].
    destruct rest as [|next rest']; cbn in *.
    + split; [ intros _; exact Hrest | discriminate ].
    + destruct Hrest as (-> & _). split; [ discriminate | now intros y [= <-] ].
  - apply (IH up k Hrest Hk).
Qed.

Lemma findAlongPath_lookup (pathIndices : list Z) (currentIndex : Z) (j : nat) :
  findAlongPath pathIndices currentIndex = Some j -> pathIndices !! j = Some currentIndex.
Proof.
  revert j. induction pathIndices as [|index rest IH]; intros j Hj; [ discriminate | ].
  cbn in Hj. destruct (Z.eqb_spec index currentIndex) as [->|Hne].
  - now injection Hj as <-.
  - destruct (findAlongPath rest currentIndex) as [j'|]; [ | discriminate ].
    injection Hj as <-. cbn. now apply IH.
Qed.

Lemma findAlongPath_first (pathIndices : list Z) (currentIndex : Z) (j : nat) :
  pathIndices !! j = Some currentIndex ->
  (forall k x, (k < j)%nat -> pathIndices !! k = Some x -> x <> currentIndex) ->
  findAlongPath pathIndices currentIndex = Some j.
Proof.
  revert j. induction pathIndices as [|index rest IH]; intros j Hj Hfirst; [ discriminate | ].
  cbn. destruct j as [|j]; cbn in Hj.
  - injection Hj as ->. now rewrite Z.eqb_refl.
  - destruct (Z.eqb_spec index currentIndex) as [Heq|_].
    + exfalso. apply (Hfirst 0%nat index); [ lia | reflexivity | assumption ].
    + rewrite (IH j Hj); [ reflexivity | ].
      intros k x Hk Hx. apply (Hfirst (Datatypes.S k) x); [ lia | exact Hx ].
Qed.

Lemma runningDistance_S (numPoints : nat) (distances : list (@double exact)) (j : nat) :
  runningDistance numPoints distances (Datatypes.S j)
  = (runningDistance numPoints distances j + graph numPoints distances j (j + 1))%R.
Proof. unfold runningDistance. now rewrite seq_S, foldl_app. Qed.

Lemma pathParameters_running (numPoints : nat) (distances : list (@double exact))
  (pathIndices : list Z) (total : R) :
  pathParameters numPoints distances pathIndices total
  = map (fun j => (runningDistance numPoints distances j / total)%R)
        (seq 0 (Datatypes.S (length pathIndices - 1))).
Proof.
  unfold pathParameters.
  pose (Inv := fun (i : nat) (state : list R * R) =>
                 state = (map (fun j => (runningDistance numPoints distances j / total)%R)
                              (seq 0 i),
                          runningDistance numPoints distances i)).
  match goal with
  | |- (let '(_, _) := foldl ?f ?a ?l in _) = _ =>
      assert (Hloop : Inv (length pathIndices - 1)%nat (foldl f a l))
  end.
  { apply (foldl_seq_invariant Inv); unfold Inv; [ reflexivity | ].
    intros i state Hi ->. rewrite seq_S, map_app, runningDistance_S. reflexivity. }
  unfold Inv in Hloop. reals. rewrite Hloop. now rewrite seq_S, map_app.
Qed.

Lemma at_int_of_nat {A : Type} (vector : list A) (v : nat) :
  at_int vector (Z.of_nat v) = vector !! v.
Proof.
  unfold at_int. destruct (Z.ltb_spec (Z.of_nat v) 0); [ lia | ]. now rewrite Nat2Z.id.
Qed.

(** A successful run of the spanning-tree parameterizer, in exact
    arithmetic: the trunk is the walk by parent pointers from the end
    vertex to the start vertex, and a vertex that sits on the trunk at
    position [j] gets the running total after [j] turns over the total. *)
Lemma ComputePointParametersFromMinimumSpanningTree_trunk
  (points : list (@Point exact)) (prior : list (@double exact)) (run : @ParameterRun exact) :
  @ComputePointParametersFromMinimumSpanningTree exact (Some points) (Some prior) = Some run ->
  completion run = ParametersAssigned ->
  let N := length points in
  let pair := farthestPair points in
  exists distances parent pathIndices parameters,
    minimumSpanningTreeTrunk points = Some (distances, parent, pathIndices)
    /\ pointParametersAfter run = Some parameters
    /\ chain parent (Z.of_nat (treeEndIndex pair)) pathIndices
    /\ head pathIndices = Some (Z.of_nat (treeEndIndex pair))
    /\ last pathIndices = Some (Z.of_nat (treeStartIndex pair))
    /\ runningDistance N distances (length pathIndices - 1) <> 0%R
    /\ (forall v j, findAlongPath pathIndices (Z.of_nat v) = Some j ->
          parameters !! v
          = Some (runningDistance N distances j
                  / runningDistance N distances (length pathIndices - 1))%R)
    /\ findAlongPath pathIndices (Z.of_nat (treeEndIndex pair)) = Some 0%nat
    /\ findAlongPath pathIndices (Z.of_nat (treeStartIndex pair))
       = Some (length pathIndices - 1)%nat.
Proof.
  intros Hrun Hdone N pair.
  unfold ComputePointParametersFromMinimumSpanningTree in Hrun.
  destruct (Z.ltb_spec (GetNumberOfPoints points) 2) as [_|HN].
  { injection Hrun as <-. discriminate. }
  unfold GetNumberOfPoints in HN. fold N in HN.
  destruct (minimumSpanningTreeTrunk points) as [[[distances parent] pathIndices]|] eqn:Htrunk;
    [ | discriminate ].
  exists distances, parent, pathIndices.
  (* the tree and the walk *)
  pose proof Htrunk as Htree. unfold minimumSpanningTreeTrunk in Htree. fold N pair in Htree.
  destruct (primLoop _ _ _ _) as [tree|] eqn:Hloop; [ | discriminate ].
  destruct (trunkPath _ _ _ _) as [path|] eqn:Hpath; [ | discriminate ].
  injection Htree as <- <- <-.
  destruct (farthestPair_bounds points) as [Hstart Hend]; [ lia | ]. fold N pair in Hstart, Hend.
  assert (Hrooted : Rooted N (treeStartIndex pair) tree).
  { eapply primLoop_Rooted; [ .. | exact Hloop ]; try exact Hstart.
    now apply primInitial_Rooted. }
  apply trunkPath_chain in Hpath as (walk & -> & Hchain). cbn [app] in *.
  assert (Hhead : exists rest, walk = Z.of_nat (treeEndIndex pair) :: rest).
  { destruct walk as [|index rest]; cbn in Hchain; [ lia | ].
    destruct Hchain as (-> & _). eauto. }
  destruct Hhead as (rest & Hwalk).
  assert (Hlength : length walk = Datatypes.S (length walk - 1)) by (rewrite Hwalk; cbn; lia).
  assert (Hlast : walk !! (length walk - 1)%nat = Some (Z.of_nat (treeStartIndex pair))).
  { destruct (lookup_lt_is_Some_2 walk (length walk - 1)) as [final Hfinal]; [ lia | ].
    destruct (chain_lookup _ _ _ _ _ Hchain Hfinal) as (_ & up & Hup & Hnone & _).
    rewrite Hnone in Hup by (apply lookup_ge_None_2; lia).
    assert (final = Z.of_nat (treeStartIndex pair)) as -> by (eapply Rooted_root; eassumption).
    exact Hfinal. }
  assert (Hroot : at_int (parent tree) (Z.of_nat (treeStartIndex pair)) = Some (-1)%Z).
  { rewrite at_int_of_nat. now destruct Hrooted as (_ & -> & _). }
  assert (HfindEnd : findAlongPath walk (Z.of_nat (treeEndIndex pair)) = Some 0%nat).
  { rewrite Hwalk. cbn. now rewrite Z.eqb_refl. }
  assert (HfindStart : findAlongPath walk (Z.of_nat (treeStartIndex pair))
                       = Some (length walk - 1)%nat).
  { apply findAlongPath_first; [ exact Hlast | ].
    intros k x Hk Hx ->.
    destruct (lookup_lt_is_Some_2 walk (Datatypes.S k)) as [y Hy]; [ lia | ].
    destruct (chain_lookup _ _ _ _ _ Hchain Hx) as (_ & up & Hup & _ & Hnext).
    destruct (chain_lookup _ _ _ _ _ Hchain Hy) as (Hy1 & _).
    rewrite Hroot in Hup. injection Hup as <-. now rewrite <- (Hnext y Hy) in Hy1. }
  (* the rest of the run *)
  fold N in Hrun.
  change (sumOfDistances N (distances pair) walk)
    with (runningDistance N (distances pair) (length walk - 1)) in Hrun.
  set (total := runningDistance N (distances pair) (length walk - 1)) in *.
  destruct (@deqb exact total (@zero exact)) eqn:Htotal.
  { injection Hrun as <-. discriminate. }
  assert (Hnonzero : total <> 0%R).
  { reals. unfold Reqb in Htotal. now destruct (Req_dec_T total 0). }
  rewrite pathParameters_running in Hrun.
  assert (Hcleared :
            (if (0 <? GetNumberOfTuples prior)%Z
             then (removeTuples (length prior) prior, [AlreadyHasContents])
             else (prior, []))
            = ([], if (0 <? GetNumberOfTuples prior)%Z then [AlreadyHasContents] else [])).
  { unfold GetNumberOfTuples. destruct (Z.ltb_spec 0 (Z.of_nat (length prior))).
    - now rewrite (@removeTuples_clears exact).
    - destruct prior; [ reflexivity | cbn in *; lia ]. }
  rewrite Hcleared in Hrun. clear Hcleared.
  destruct (assignParameters _ _ _ _ _ _) as [array|] eqn:Hassign; [ | discriminate ].
  injection Hrun as <-. cbn [pointParametersAfter].
  apply (@assignParameters_appends exact) in Hassign as (entries & -> & _ & Hentries).
  cbn [app]. exists entries.
  split; [ reflexivity | split; [ reflexivity | split; [ exact Hchain | ] ] ].
  split; [ now rewrite Hwalk | split; [ now rewrite last_lookup, <- Nat.sub_1_r | ] ].
  split; [ exact Hnonzero | split; [ | split; assumption ] ].
  intros v j Hj.
  pose proof (findAlongPath_lookup _ _ _ Hj) as Hvj.
  assert (Hv : (v < N)%nat).
  { destruct (chain_lookup _ _ _ _ _ Hchain Hvj) as (_ & up & Hup & _).
    rewrite at_int_of_nat in Hup. apply lookup_lt_Some in Hup.
    now destruct Hrooted as (<- & _). }
  destruct (Hentries v v) as (j' & Hj' & Hparameter); [ now apply lookup_seq_lt | ].
  rewrite (indexAlongPath_found _ _ _ _ _ Hj) in Hj'. injection Hj' as <-.
  apply lookup_lt_Some in Hvj.
  refine (eq_trans Hparameter _).
  change (map ?f ?l) with (f <$> l). rewrite list_lookup_fmap, lookup_seq_lt by lia.
  reflexivity.
Qed.

Lemma nth_descending (N i : nat) :
  (i < N)%nat -> nth i (descending N) 0%Z = Z.of_nat (N - 1 - i).
Proof.
  intros Hi. unfold descending.
  rewrite (nth_indep _ 0%Z (Z.of_nat 0)) by now rewrite length_map, length_rev, length_seq.
  rewrite map_nth. f_equal.
  rewrite rev_nth by now rewrite length_seq.
  rewrite length_seq, seq_nth by lia. lia.
Qed.

(** On a unit-spaced line the edges of the trunk add up to [N - 1]. *)
Lemma trunkLength_line (N : nat) (D : list (@double exact)) :
  LineMatrix N D -> (2 <= N)%nat ->
  @trunkLength exact N D (descending N) = INR (N - 1).
Proof.
  intros HD HN. unfold trunkLength, trunkEdgeLengths.
  rewrite length_descending.
  change (map ?f ?l) with (f <$> l). rewrite foldl_fmap.
  apply (foldl_seq_invariant (fun i (sum : R) => sum = INR i)); [ reflexivity | ].
  intros i sum Hi ->.
  rewrite !nth_descending, !Nat2Z.id by lia.
  rewrite (graph_line N D HD) by lia. rewrite gap_sym, gap_le by lia.
  reals. rewrite S_INR. rewrite <- minus_INR by lia.
  replace (N - 1 - i - (N - 1 - (i + 1)))%nat with 1%nat by lia. reflexivity.
Qed.

(** X20. In exact arithmetic, for [N >= 2] points arranged along a line
    at unit spacing, in index order ([N] an [int]): the farthest pair is
    (0, N-1), the trunk visits the points from the last to the first,
    its length is [N - 1], which is also the total the code adds up, and
    point [i] receives [(N-1-i) / (N-1)]: the index-based parameters in
    reverse order. *)
Theorem unit_spaced_line_is_parameterized_in_reverse (points : list (@Point exact))
  (prior : list (@double exact)) :
  UnitSpaced points ->
  (2 <= length points)%nat ->
  (Z.of_nat (length points) <= 2147483647)%Z ->
  let N := length points in
  exists distances parent,
    minimumSpanningTreeTrunk points = Some (distances, parent, descending N)
    /\ treeStartIndex (farthestPair points) = 0%nat
    /\ treeEndIndex (farthestPair points) = (N - 1)%nat
    /\ @trunkLength exact N distances (descending N) = INR (N - 1)
    /\ sumOfDistances N distances (descending N) = INR (N - 1)
    /\ @ComputePointParametersFromMinimumSpanningTree exact (Some points) (Some prior)
       = Some (mkParameterRun ParametersAssigned (Some (reversedIndexParameters N))
                 (if (0 <? GetNumberOfTuples prior)%Z then [AlreadyHasContents] else []))
    /\ forall i, (i < N)%nat ->
         reversedIndexParameters N !! i = Some (INR (N - 1 - i) / INR (N - 1))%R.
Proof.
  intros Hline HN Hint N.
  destruct (ComputePointParametersFromMinimumSpanningTree_line points prior Hline HN Hint)
    as (Htrunk & Hsum & Hrun).
  destruct (farthestPair_line points Hline HN) as (Hlen & Hentries & Hstart & Htrack).
  fold N in Htrunk, Hsum, Hrun, Hlen, Hentries, Htrack.
  destruct (Nat.eqb_spec N 0) as [|_]; [ lia | ]. destruct Htrack as [Hend _].
  eexists _, _. split; [ exact Htrunk | ].
  split; [ exact Hstart | split; [ exact Hend | split; [ | split; [ exact Hsum | ] ] ] ].
  - apply trunkLength_line; [ | assumption ].
    split; [ exact Hlen | ]. intros v u Hv Hu. apply Hentries; [ lia | assumption | assumption ].
  - split; [ exact Hrun | ].
    intros i Hi. unfold reversedIndexParameters.
    change (map ?f ?l) with (f <$> l). rewrite list_lookup_fmap, lookup_seq_lt by assumption.
    reflexivity.
Qed.

Lemma unit_spaced_line_is_parameterized_in_reverse_witness :
  UnitSpaced (lineOfPoints (PR 0 0 0) (PR 1 0 0) 3)
  /\ (2 <= length (lineOfPoints (PR 0 0 0) (PR 1 0 0) 3))%nat
  /\ (Z.of_nat (length (lineOfPoints (PR 0 0 0) (PR 1 0 0) 3)) <= 2147483647)%Z
  /\ @ComputePointParametersFromMinimumSpanningTree exact
       (Some (lineOfPoints (PR 0 0 0) (PR 1 0 0) 3)) (Some [])
     = Some (mkParameterRun ParametersAssigned (Some (reversedIndexParameters 3)) [])
  /\ reversedIndexParameters 3 !! 0%nat = Some (INR 2 / INR 2)%R.
Proof.
  assert (Hline : UnitSpaced (lineOfPoints (PR 0 0 0) (PR 1 0 0) 3)).
  { apply UnitSpaced_lineOfPoints. cbn. lra. }
  assert (Hcount : (2 <= length (lineOfPoints (PR 0 0 0) (PR 1 0 0) 3))%nat) by (cbn; lia).
  assert (Hint : (Z.of_nat (length (lineOfPoints (PR 0 0 0) (PR 1 0 0) 3)) <= 2147483647)%Z)
    by (cbn; lia).
  destruct (unit_spaced_line_is_parameterized_in_reverse
              (lineOfPoints (PR 0 0 0) (PR 1 0 0) 3) [] Hline Hcount Hint)
    as (distances & parent & _ & _ & _ & _ & _ & Hrun & Hentry).
  split; [ exact Hline | split; [ exact Hcount | split; [ exact Hint | split ] ] ].
  - exact Hrun.
  - apply (Hentry 0%nat). cbn. lia.
Defined.

(** * The curve points of the interpolating generators *)

Section Samplers.
Context {S : Scalar}.

(** One segment of samples: [s] consecutive slots from [k * s] on are
    written, nothing else changes. *)
Lemma segment_written (value : nat -> Point) (k s : nat) (curvePoints : vtkPoints) :
  let written :=
    foldl (fun curvePoints i => SetPoint (k * s + i) (value i) curvePoints)
          curvePoints (seq 0 s) in
  length written = length curvePoints
  /\ (forall i, (i < s)%nat -> (k * s + i < length curvePoints)%nat ->
        written !! (k * s + i)%nat = Some (value i))
  /\ (forall j, (j < k * s \/ k * s + s <= j)%nat -> written !! j = curvePoints !! j).
Proof.
  cbv zeta.
  pose (Inv := fun (n : nat) (points : vtkPoints) =>
                 length points = length curvePoints
                 /\ (forall i, (i < n)%nat -> (k * s + i < length curvePoints)%nat ->
                       points !! (k * s + i)%nat = Some (value i))
                 /\ (forall j, (j < k * s \/ k * s + n <= j)%nat ->
                       points !! j = curvePoints !! j)).
  apply (foldl_seq_invariant Inv); unfold Inv.
  - repeat split; intros; lia || reflexivity.
  - intros n points Hn (Hlen & Hwritten & Hother). unfold SetPoint.
    rewrite length_insert. split; [ exact Hlen | split ].
    + intros i Hi Hrange. destruct (decide (i = n)) as [->|Hne].
      * apply list_lookup_insert_eq. lia.
      * rewrite list_lookup_insert_ne by lia. apply Hwritten; [ lia | assumption ].
    + intros j Hj. rewrite list_lookup_insert_ne by lia. apply Hother. lia.
Qed.

Lemma linearSegment_written (current next : Point) (k : nat) (segments : Z)
  (curvePoints : vtkPoints) :
  let s := Z.to_nat segments in
  let written := linearSegment current next k segments curvePoints in
  length written = length curvePoints
  /\ (forall i, (i < s)%nat -> (k * s + i < length curvePoints)%nat ->
        written !! (k * s + i)%nat = Some (blend segments current next i))
  /\ (forall j, (j < k * s \/ k * s + s <= j)%nat -> written !! j = curvePoints !! j).
Proof. exact (segment_written (blend segments current next) k (Z.to_nat segments) curvePoints). Qed.

Lemma splineSegment_written (evaluate : double -> Point) (k : nat) (segments : Z)
  (curvePoints : vtkPoints) :
  let s := Z.to_nat segments in
  let written := splineSegment evaluate k segments curvePoints in
  length written = length curvePoints
  /\ (forall i, (i < s)%nat -> (k * s + i < length curvePoints)%nat ->
        written !! (k * s + i)%nat = Some (evaluate (splineParameter segments k i)))
  /\ (forall j, (j < k * s \/ k * s + s <= j)%nat -> written !! j = curvePoints !! j).
Proof.
  exact (segment_written (fun i => evaluate (splineParameter segments k i)) k
           (Z.to_nat segments) curvePoints).
Qed.

Lemma length_AllocateCurvePoints (controlPoints : vtkPoints) (segments : Z) (tubeLoop : bool) :
  (1 <= length controlPoints)%nat -> (0 <= segments)%Z ->
  length (AllocateCurvePoints controlPoints segments tubeLoop)
  = numberOfCurvePoints (length controlPoints) (Z.to_nat segments) tubeLoop.
Proof.
  intros HN Hsegments.
  unfold AllocateCurvePoints, SetNumberOfPoints, GetNumberOfPoints, numberOfCurvePoints.
  destruct tubeLoop; rewrite length_replicate; nia.
Qed.

(** Writing the final control point (lines 312-317) after the segments. *)
Lemma setFinalPoint_Sampled (value : nat -> nat -> Point) (controlPoints : vtkPoints)
  (segments : Z) (tubeLoop : bool) (curvePoints : vtkPoints) :
  (1 <= length controlPoints)%nat -> (0 <= segments)%Z ->
  length curvePoints
  = numberOfCurvePoints (length controlPoints) (Z.to_nat segments) tubeLoop ->
  (forall k i, (k < numberSegmentsToInterpolate (length controlPoints) tubeLoop)%nat ->
     (i < Z.to_nat segments)%nat ->
     curvePoints !! (k * Z.to_nat segments + i)%nat = Some (value k i)) ->
  Sampled value controlPoints (Z.to_nat segments) tubeLoop
    (setFinalPoint controlPoints segments tubeLoop curvePoints).
Proof.
  intros HN Hsegments Hlen Hentries. unfold Sampled, setFinalPoint, SetPoint. cbv zeta.
  set (M := numberSegmentsToInterpolate (length controlPoints) tubeLoop) in *.
  replace (Z.to_nat (segments * Z.of_nat M)) with (M * Z.to_nat segments)%nat by nia.
  assert (Hfinal : (M * Z.to_nat segments < length curvePoints)%nat).
  { rewrite Hlen. subst M. unfold numberSegmentsToInterpolate, numberOfCurvePoints.
    destruct tubeLoop; lia. }
  rewrite length_insert. split; [ exact Hlen | split ].
  - intros k i Hk Hi. rewrite list_lookup_insert_ne by nia. now apply Hentries.
  - now apply list_lookup_insert_eq.
Qed.

(** The linear sampler: segment [k] holds the blends of control points
    [k] and [k + 1] (wrapping round to 0 on a loop). *)
Lemma PiecewiseLinearSamples_Sampled (controlPoints : vtkPoints) (segments : Z)
  (tubeLoop : bool) :
  (1 <= length controlPoints)%nat -> (0 <= segments)%Z ->
  Sampled (fun k i =>
             blend segments (GetPoint k controlPoints)
               (GetPoint (Datatypes.S k mod length controlPoints) controlPoints) i)
    controlPoints (Z.to_nat segments) tubeLoop
    (PiecewiseLinearSamples controlPoints segments tubeLoop).
Proof.
  intros HN Hsegments. unfold PiecewiseLinearSamples.
  set (N := length controlPoints) in *. set (s := Z.to_nat segments).
  set (M := numberSegmentsToInterpolate N tubeLoop).
  set (allocated := AllocateCurvePoints controlPoints segments tubeLoop).
  assert (HM : (M <= N)%nat) by (subst M; unfold numberSegmentsToInterpolate; destruct tubeLoop; lia).
  assert (Hallocated : length allocated = numberOfCurvePoints N s tubeLoop)
    by now apply length_AllocateCurvePoints.
  assert (Hroom : (M * s < numberOfCurvePoints N s tubeLoop)%nat).
  { subst M. unfold numberSegmentsToInterpolate, numberOfCurvePoints. destruct tubeLoop; lia. }
  pose (Inv := fun (K : nat) (st : nat * vtkPoints) =>
                 ((K < N)%nat -> fst st = Datatypes.S K)
                 /\ length (snd st) = numberOfCurvePoints N s tubeLoop
                 /\ forall k i, (k < K)%nat -> (i < s)%nat ->
                      snd st !! (k * s + i)%nat
                      = Some (blend segments (GetPoint k controlPoints)
                                (GetPoint (Datatypes.S k mod N) controlPoints) i)).
  assert (Hloop : Inv M (foldl (linearStep controlPoints segments) (1%nat, allocated) (seq 0 M))).
  { apply (foldl_seq_invariant Inv); unfold Inv.
    - cbn [fst snd]. split; [ reflexivity | split; [ assumption | intros; lia ] ].
    - intros K [next points] HK (Hnext & Hlen & Hentries). cbn [fst snd] in *.
      rewrite Hnext by lia. clear Hnext.
      unfold linearStep. fold N.
      assert (Hwrap : (if (N <=? Datatypes.S K)%nat then 0%nat else Datatypes.S K)
                      = (Datatypes.S K mod N)%nat).
      { destruct (Nat.leb_spec N (Datatypes.S K)).
        - assert (Datatypes.S K = N) as -> by lia. now rewrite Nat.Div0.mod_same.
        - now rewrite Nat.mod_small. }
      rewrite Hwrap. cbn [fst snd].
      destruct (linearSegment_written (GetPoint K controlPoints)
                  (GetPoint (Datatypes.S K mod N) controlPoints) K segments points)
        as (Hlen' & Hwritten & Hother). fold s in Hwritten, Hother.
      split; [ | split; [ congruence | ] ].
      + intros Hlt. now rewrite Nat.mod_small.
      + intros k i Hk Hi. destruct (decide (k = K)) as [->|Hne].
        * apply Hwritten; [ assumption | ]. rewrite Hlen. nia.
        * rewrite Hother by nia. apply Hentries; [ lia | assumption ]. }
  destruct (foldl _ _ _) as [next points]. destruct Hloop as (_ & Hlen & Hentries).
  cbn [snd] in *. now apply setFinalPoint_Sampled.
Qed.

(** The spline samplers: slot [k * s + i] holds the splines' value at
    [k + i / s]. *)
Lemma SplineSamples_Sampled (evaluate : double -> Point) (controlPoints : vtkPoints)
  (segments : Z) (tubeLoop : bool) :
  (1 <= length controlPoints)%nat -> (0 <= segments)%Z ->
  Sampled (fun k i => evaluate (splineParameter segments k i))
    controlPoints (Z.to_nat segments) tubeLoop
    (SplineSamples evaluate controlPoints segments tubeLoop).
Proof.
  intros HN Hsegments. unfold SplineSamples.
  set (N := length controlPoints) in *. set (s := Z.to_nat segments).
  set (M := numberSegmentsToInterpolate N tubeLoop).
  set (allocated := AllocateCurvePoints controlPoints segments tubeLoop).
  assert (Hallocated : length allocated = numberOfCurvePoints N s tubeLoop)
    by now apply length_AllocateCurvePoints.
  assert (Hroom : (M * s < numberOfCurvePoints N s tubeLoop)%nat).
  { subst M. unfold numberSegmentsToInterpolate, numberOfCurvePoints. destruct tubeLoop; lia. }
  pose (Inv := fun (K : nat) (points : vtkPoints) =>
                 length points = numberOfCurvePoints N s tubeLoop
                 /\ forall k i, (k < K)%nat -> (i < s)%nat ->
                      points !! (k * s + i)%nat
                      = Some (evaluate (splineParameter segments k i))).
  match goal with
  | |- Sampled _ _ _ _ (setFinalPoint _ _ _ (foldl ?f ?a ?l)) =>
      assert (Hloop : Inv M (foldl f a l))
  end.
  { apply (foldl_seq_invariant Inv); unfold Inv.
    - split; [ assumption | intros; lia ].
    - intros K points HK (Hlen & Hentries).
      destruct (splineSegment_written evaluate K segments points)
        as (Hlen' & Hwritten & Hother). fold s in Hwritten, Hother.
      split; [ congruence | ].
      intros k i Hk Hi. destruct (decide (k = K)) as [->|Hne].
      + apply Hwritten; [ assumption | ]. rewrite Hlen. nia.
      + rewrite Hother by nia. apply Hentries; [ lia | assumption ]. }
  destruct Hloop as (Hlen & Hentries). now apply setFinalPoint_Sampled.
Qed.

End Samplers.

Section SamplerTheorems.
Context {S : Scalar} {C : Collaborators}.

(** X1. The piecewise-linear generator, on two control points or more,
    fills every slot it allocates before the mesh is built: segment [k]
    holds the blends of control point [k] and its successor (control
    point 0 after the last one, on a loop), and the slot after the last
    segment holds a control point itself, the last one on an open curve
    and point 0 on a loop.  An open curve is handed to the mesh builder
    as sampled, a loop after [CloseLoop]. *)
Theorem linear_generator_samples (controlPoints : vtkPoints) (mesh : vtkPolyData)
  (tubeRadius : double) (tubeNumberOfSides segments : Z) (tubeLoop : bool) :
  (2 <= length controlPoints)%nat ->
  (0 <= segments)%Z ->
  let samples := PiecewiseLinearSamples controlPoints segments tubeLoop in
  Sampled (fun k i =>
             blend segments (GetPoint k controlPoints)
               (GetPoint (Datatypes.S k mod length controlPoints) controlPoints) i)
    controlPoints (Z.to_nat segments) tubeLoop samples
  /\ GeneratePiecewiseLinearCurveModel (Some controlPoints) (Some mesh) tubeRadius
       tubeNumberOfSides segments tubeLoop
     = GetTubePolyDataFromPoints
         (Some (if tubeLoop then CloseLoop samples else samples))
         (Some mesh) tubeRadius tubeNumberOfSides.
Proof.
  intros HN Hsegments samples. split.
  - apply PiecewiseLinearSamples_Sampled; [ lia | assumption ].
  - unfold GeneratePiecewiseLinearCurveModel. decide_counts.
    unfold PiecewiseLinearCurvePoints, closeIfLooped. reflexivity.
Qed.

(** X2. The cardinal and Kochanek generators, on three control points or
    more, fill every slot they allocate: slot [k * s + i] holds the three
    splines evaluated at [k + i / s], and the slot after the last segment
    holds a control point itself (not a spline value), the last one on an
    open curve and point 0 on a loop. *)
Theorem spline_generators_sample (controlPoints : vtkPoints) (mesh : vtkPolyData)
  (tubeRadius : double) (tubeNumberOfSides segments : Z) (tubeLoop : bool)
  (bias continuity tension : double) (endsCopy : bool) :
  (3 <= length controlPoints)%nat ->
  (0 <= segments)%Z ->
  let cardinal := cardinalEvaluate3 controlPoints tubeLoop in
  let kochanek :=
    kochanekEvaluate3 controlPoints tubeLoop bias continuity tension endsCopy in
  let cardinalSamples := SplineSamples cardinal controlPoints segments tubeLoop in
  let kochanekSamples := SplineSamples kochanek controlPoints segments tubeLoop in
  Sampled (fun k i => cardinal (splineParameter segments k i))
    controlPoints (Z.to_nat segments) tubeLoop cardinalSamples
  /\ Sampled (fun k i => kochanek (splineParameter segments k i))
       controlPoints (Z.to_nat segments) tubeLoop kochanekSamples
  /\ GenerateCardinalSplineCurveModel (Some controlPoints) (Some mesh) tubeRadius
       tubeNumberOfSides segments tubeLoop
     = GetTubePolyDataFromPoints
         (Some (if tubeLoop then CloseLoop cardinalSamples else cardinalSamples))
         (Some mesh) tubeRadius tubeNumberOfSides
  /\ GenerateKochanekSplineCurveModel (Some controlPoints) (Some mesh) tubeRadius
       tubeNumberOfSides segments tubeLoop bias continuity tension endsCopy
     = GetTubePolyDataFromPoints
         (Some (if tubeLoop then CloseLoop kochanekSamples else kochanekSamples))
         (Some mesh) tubeRadius tubeNumberOfSides.
Proof.
  intros HN Hsegments cardinal kochanek cardinalSamples kochanekSamples.
  split; [ apply SplineSamples_Sampled; [ lia | assumption ] | ].
  split; [ apply SplineSamples_Sampled; [ lia | assumption ] | ].
  split.
  - unfold GenerateCardinalSplineCurveModel. decide_counts. reflexivity.
  - unfold GenerateKochanekSplineCurveModel. decide_counts. reflexivity.
Qed.

End SamplerTheorems.

Lemma linear_generator_samples_witness :
  (2 <= length [P64 0 0 0; P64 4 0 0])%nat
  /\ (0 <= 2)%Z
  /\ Sampled (fun k i =>
                blend 2 (GetPoint k [P64 0 0 0; P64 4 0 0])
                  (GetPoint (Datatypes.S k mod 2) [P64 0 0 0; P64 4 0 0]) i)
       [P64 0 0 0; P64 4 0 0] 2 true
       (@PiecewiseLinearSamples binary64 [P64 0 0 0; P64 4 0 0] 2 true).
Proof.
  split; [ cbn; lia | split; [ lia | ] ].
  destruct (@linear_generator_samples binary64 [P64 0 0 0; P64 4 0 0] PolyDataInitialized
              (of_int 1) 8 2 true) as [Hsampled _]; [ cbn; lia | lia | exact Hsampled ].
Defined.

Lemma spline_generators_sample_witness :
  (3 <= length [P64 0 0 0; P64 4 0 0; P64 4 4 0])%nat
  /\ (0 <= 2)%Z
  /\ @GenerateCardinalSplineCurveModel binary64 standInCollaborators
       (Some [P64 0 0 0; P64 4 0 0; P64 4 4 0]) (Some PolyDataInitialized)
       (of_int 1) 8 2 false
     = GetTubePolyDataFromPoints
         (Some (@SplineSamples binary64
                  (@cardinalEvaluate3 binary64 standInCollaborators
                     [P64 0 0 0; P64 4 0 0; P64 4 4 0] false)
                  [P64 0 0 0; P64 4 0 0; P64 4 4 0] 2 false))
         (Some PolyDataInitialized) (of_int 1) 8.
Proof.
  split; [ cbn; lia | split; [ lia | ] ].
  destruct (@spline_generators_sample binary64 standInCollaborators
              [P64 0 0 0; P64 4 0 0; P64 4 4 0] PolyDataInitialized (of_int 1) 8 2 false
              (of_int 0) (of_int 0) (of_int 0) false) as (_ & _ & Hcardinal & _);
    [ cbn; lia | lia | exact Hcardinal ].
Defined.

Lemma blend_start (segments : Z) (current next : @Point exact) :
  @blend exact segments current next 0 = current.
Proof.
  unfold blend. destruct current as [x y z], next as [x' y' z']. cbn.
  unfold Rdiv. rewrite !Rmult_0_l. f_equal; lra.
Qed.

(** X3. In exact arithmetic an open piecewise-linear curve passes through
    every control point: with [s] segments between control points the
    dense sequence has [(N-1) * s + 1] points and point [k * s] is
    control point [k]; with [s = 1] the dense sequence is the sequence of
    control points. *)
Theorem open_linear_curve_through_control_points (controlPoints : list (@Point exact))
  (segments : Z) :
  (2 <= length controlPoints)%nat ->
  (1 <= segments)%Z ->
  let dense := @PiecewiseLinearCurvePoints exact controlPoints segments false in
  length dense = ((length controlPoints - 1) * Z.to_nat segments + 1)%nat
  /\ (forall k, (k < length controlPoints)%nat ->
        dense !! (k * Z.to_nat segments)%nat = controlPoints !! k)
  /\ (segments = 1%Z -> dense = controlPoints).
Proof.
  intros HN Hsegments dense. subst dense.
  unfold PiecewiseLinearCurvePoints, closeIfLooped.
  destruct (@PiecewiseLinearSamples_Sampled exact controlPoints segments false)
    as (Hlen & Hentries & Hfinal); [ lia | lia | ].
  cbn [numberSegmentsToInterpolate numberOfCurvePoints] in *.
  assert (Hthrough : forall k, (k < length controlPoints)%nat ->
            @PiecewiseLinearSamples exact controlPoints segments false
              !! (k * Z.to_nat segments)%nat = controlPoints !! k).
  { intros k Hk. destruct (lookup_lt_is_Some_2 controlPoints k Hk) as [point Hpoint].
    destruct (decide (k = length controlPoints - 1)%nat) as [->|Hne].
    - rewrite Hfinal, Nat.mod_small by lia. unfold GetPoint. now rewrite Hpoint.
    - specialize (Hentries k 0%nat). rewrite Nat.add_0_r in Hentries.
      rewrite Hentries by lia. rewrite blend_start. unfold GetPoint. now rewrite Hpoint. }
  split; [ exact Hlen | split; [ exact Hthrough | ] ].
  intros ->. apply list_eq. intros k.
  destruct (Nat.lt_ge_cases k (length controlPoints)) as [Hk|Hk].
  - rewrite <- (Hthrough k Hk). f_equal. cbn. lia.
  - rewrite !lookup_ge_None_2; [ reflexivity | lia | ]. rewrite Hlen. cbn. lia.
Qed.

Lemma open_linear_curve_through_control_points_witness :
  (2 <= length [PR 0 0 0; PR 2 0 0; PR 2 2 0])%nat
  /\ (1 <= 2)%Z
  /\ @PiecewiseLinearCurvePoints exact [PR 0 0 0; PR 2 0 0; PR 2 2 0] 2 false !! 2%nat
     = Some (PR 2 0 0).
Proof.
  split; [ cbn; lia | split; [ lia | ] ].
  destruct (open_linear_curve_through_control_points [PR 0 0 0; PR 2 0 0; PR 2 2 0] 2)
    as (_ & Hthrough & _); [ cbn; lia | lia | ].
  apply (Hthrough 1%nat). cbn. lia.
Defined.

(** * The splines and the mesh builder *)

Section Splines.
Context {S : Scalar} {C : Collaborators}.

Lemma splineKnots_map (controlPoints : vtkPoints) (coordinate : Point -> double) :
  splineKnots controlPoints coordinate
  = map (fun i => (of_int (Z.of_nat i), coordinate (GetPoint i controlPoints)))
        (seq 0 (length controlPoints)).
Proof.
  unfold splineKnots. generalize (length controlPoints). intros n.
  induction n as [|n IH]; [ reflexivity | ].
  rewrite seq_S, foldl_app, map_app, IH. reflexivity.
Qed.

Lemma splineKnots_lookup (controlPoints : vtkPoints) (coordinate : Point -> double)
  (i : nat) (point : Point) :
  controlPoints !! i = Some point ->
  splineKnots controlPoints coordinate !! i = Some (of_int (Z.of_nat i), coordinate point).
Proof.
  intros Hpoint. rewrite splineKnots_map.
  change (map ?f ?l) with (f <$> l).
  rewrite list_lookup_fmap, lookup_seq_lt by (now apply lookup_lt_Some in Hpoint).
  cbn. unfold GetPoint. now rewrite Hpoint.
Qed.

Lemma length_splineKnots (controlPoints : vtkPoints) (coordinate : Point -> double) :
  length (splineKnots controlPoints coordinate) = length controlPoints.
Proof. rewrite splineKnots_map. now rewrite length_map, length_seq. Qed.

(** X4. Both spline set-ups give each of the three coordinate splines
    one knot per control point: knot [i] sits at parameter [i] and holds
    that coordinate of control point [i].  The splines are closed
    exactly when [tubeLoop] is set. *)
Theorem spline_knots_are_the_control_points (controlPoints : vtkPoints) (tubeLoop : bool)
  (bias continuity tension : double) (endsCopy : bool) :
  let cardinal := SetCardinalSplineParameters controlPoints tubeLoop in
  let kochanek :=
    SetKochanekSplineParameters controlPoints tubeLoop bias continuity tension endsCopy in
  let knot (i : nat) (x : double) := Some (of_int (Z.of_nat i), x) in
  (forall i point, controlPoints !! i = Some point ->
     cardinalPoints cardinal.1.1 !! i = knot i (coord0 point)
     /\ cardinalPoints cardinal.1.2 !! i = knot i (coord1 point)
     /\ cardinalPoints cardinal.2 !! i = knot i (coord2 point)
     /\ kochanekPoints kochanek.1.1 !! i = knot i (coord0 point)
     /\ kochanekPoints kochanek.1.2 !! i = knot i (coord1 point)
     /\ kochanekPoints kochanek.2 !! i = knot i (coord2 point))
  /\ Forall (fun knots => length knots = length controlPoints)
       [cardinalPoints cardinal.1.1; cardinalPoints cardinal.1.2; cardinalPoints cardinal.2;
        kochanekPoints kochanek.1.1; kochanekPoints kochanek.1.2; kochanekPoints kochanek.2]
  /\ Forall (fun closed => closed = tubeLoop)
       [cardinalClosed cardinal.1.1; cardinalClosed cardinal.1.2; cardinalClosed cardinal.2;
        kochanekClosed kochanek.1.1; kochanekClosed kochanek.1.2; kochanekClosed kochanek.2].
Proof.
  cbv zeta. unfold SetCardinalSplineParameters, SetKochanekSplineParameters.
  destruct endsCopy; cbn [fst snd cardinalPoints kochanekPoints cardinalClosed kochanekClosed].
  all: split; [ intros i point Hpoint; repeat split; now apply splineKnots_lookup | ].
  all: split; [ repeat constructor; apply length_splineKnots | ].
  all: destruct tubeLoop; repeat constructor.
Qed.

(** X5. What the three interpolating generators leave in the output
    object once there are enough control points (two for the linear
    one, three for the splines): one polyline cell that visits all the
    dense curve points in order, wrapped in a capped tube of the given
    radius and number of sides when the radius is positive, and the bare
    polyline otherwise.  What the object held before is gone, and no
    warning is issued. *)
Theorem interpolating_generators_output (controlPoints : vtkPoints) (mesh : vtkPolyData)
  (tubeRadius : double) (tubeNumberOfSides segments : Z) (tubeLoop : bool)
  (bias continuity tension : double) (endsCopy : bool) :
  (2 <= length controlPoints)%nat ->
  GeneratePiecewiseLinearCurveModel (Some controlPoints) (Some mesh) tubeRadius
    tubeNumberOfSides segments tubeLoop
  = mkEffect
      (Some (curveMesh (PiecewiseLinearCurvePoints controlPoints segments tubeLoop)
               tubeRadius tubeNumberOfSides)) []
  /\ ((3 <= length controlPoints)%nat ->
      GenerateCardinalSplineCurveModel (Some controlPoints) (Some mesh) tubeRadius
        tubeNumberOfSides segments tubeLoop
      = mkEffect
          (Some (curveMesh (CardinalSplineCurvePoints controlPoints segments tubeLoop)
                   tubeRadius tubeNumberOfSides)) []
      /\ GenerateKochanekSplineCurveModel (Some controlPoints) (Some mesh) tubeRadius
           tubeNumberOfSides segments tubeLoop bias continuity tension endsCopy
         = mkEffect
             (Some (curveMesh (KochanekSplineCurvePoints controlPoints segments tubeLoop
                                 bias continuity tension endsCopy)
                      tubeRadius tubeNumberOfSides)) []).
Proof.
  intros HN. split; [ | intros HN3; split ].
  - unfold GeneratePiecewiseLinearCurveModel. decide_counts.
    unfold GetTubePolyDataFromPoints, curveMesh, lineCell.
    now destruct (zero <? tubeRadius)%D.
  - unfold GenerateCardinalSplineCurveModel. decide_counts.
    unfold GetTubePolyDataFromPoints, curveMesh, lineCell.
    now destruct (zero <? tubeRadius)%D.
  - unfold GenerateKochanekSplineCurveModel. decide_counts.
    unfold GetTubePolyDataFromPoints, curveMesh, lineCell.
    now destruct (zero <? tubeRadius)%D.
Qed.

End Splines.

Lemma interpolating_generators_output_witness :
  (2 <= length [P64 0 0 0; P64 4 0 0; P64 4 4 0])%nat
  /\ @GeneratePiecewiseLinearCurveModel binary64
       (Some [P64 0 0 0; P64 4 0 0; P64 4 4 0]) (Some PolyDataInitialized)
       (of_int 0) 8 2 false
     = mkEffect
         (Some (curveMesh
                  (@PiecewiseLinearCurvePoints binary64 [P64 0 0 0; P64 4 0 0; P64 4 4 0] 2 false)
                  (of_int 0) 8)) [].
Proof.
  split; [ cbn; lia | ].
  destruct (@interpolating_generators_output binary64 standInCollaborators
              [P64 0 0 0; P64 4 0 0; P64 4 4 0] PolyDataInitialized (of_int 0) 8 2 false
              (of_int 0) (of_int 0) (of_int 0) false) as (Hlinear & _);
    [ cbn; lia | exact Hlinear ].
Defined.

(** * The least-squares fit *)

Section Scatter.
Context {A : Type}.

(** A loop that stores [val p] at slot [idx p] for [p] below [n], the
    slots being distinct and in range. *)
Lemma scatter_written (idx : nat -> nat) (val : nat -> A) (n : nat) (v : list A) :
  (forall p q, (p < n)%nat -> (q < n)%nat -> idx p = idx q -> p = q) ->
  (forall p, (p < n)%nat -> (idx p < length v)%nat) ->
  let w := foldl (fun v p => <[idx p := val p]> v) v (seq 0 n) in
  length w = length v
  /\ (forall p, (p < n)%nat -> w !! idx p = Some (val p))
  /\ (forall j, (forall p, (p < n)%nat -> idx p <> j) -> w !! j = v !! j).
Proof.
  intros Hinj Hrange. cbv zeta.
  pose (Inv := fun (m : nat) (w : list A) =>
                 length w = length v
                 /\ (forall p, (p < m)%nat -> w !! idx p = Some (val p))
                 /\ (forall j, (forall p, (p < m)%nat -> idx p <> j) -> w !! j = v !! j)).
  apply (foldl_seq_invariant Inv); unfold Inv.
  - repeat split; intros; lia || reflexivity.
  - intros m w Hm (Hlen & Hwritten & Hother). rewrite length_insert.
    split; [ exact Hlen | split ].
    + intros p Hp. destruct (decide (p = m)) as [->|Hne].
      * apply list_lookup_insert_eq. rewrite Hlen. now apply Hrange.
      * rewrite list_lookup_insert_ne.
        -- apply Hwritten. lia.
        -- intros Heq. apply Hne. symmetry. apply Hinj; [ lia | lia | now symmetry ].
    + intros j Hj. rewrite list_lookup_insert_ne by (apply Hj; lia).
      apply Hother. intros p Hp. apply Hj. lia.
Qed.

End Scatter.

Section Matrices.
Context {S : Scalar}.

Lemma independentValues_entries (numPoints numPolynomialCoefficients : nat)
  (pointParameters : vtkDoubleArray) :
  let values := independentValues numPoints numPolynomialCoefficients pointParameters in
  length values = (numPoints * numPolynomialCoefficients)%nat
  /\ forall p c, (p < numPoints)%nat -> (c < numPolynomialCoefficients)%nat ->
       values !! (p * numPolynomialCoefficients + c)%nat
       = Some (dpow (GetValue p pointParameters) c).
Proof.
  cbv zeta. unfold independentValues.
  set (N := numPoints). set (K := numPolynomialCoefficients).
  pose (Inv := fun (c' : nat) (values : list double) =>
                 length values = (N * K)%nat
                 /\ forall p c, (p < N)%nat -> (c < c')%nat ->
                      values !! (p * K + c)%nat = Some (dpow (GetValue p pointParameters) c)).
  assert (Hloop : Inv K (foldl (fun values c =>
                     foldl (fun values p =>
                              let value := dpow (GetValue p pointParameters) c in
                              <[(p * K + c)%nat := value]> values)
                           values (seq 0 N))
                     (replicate (N * K) zero) (seq 0 K))).
  { apply (foldl_seq_invariant Inv); unfold Inv.
    - split; [ now rewrite length_replicate | intros; lia ].
    - intros c' values Hc' (Hlen & Hdone). cbv zeta.
      destruct (scatter_written (fun p => (p * K + c')%nat)
                  (fun p => dpow (GetValue p pointParameters) c') N values)
        as (Hlen' & Hwritten & Hother).
      + intros p q _ _ Heq. nia.
      + intros p Hp. rewrite Hlen. nia.
      + split; [ now rewrite Hlen' | ].
        intros p c Hp Hc. destruct (decide (c = c')) as [->|Hne].
        * now apply Hwritten.
        * rewrite Hother; [ apply Hdone; [ assumption | lia ] | ].
          intros q Hq Heq. apply Hne.
          assert (Hmod : ((q * K + c') mod K = (p * K + c) mod K)%nat) by now rewrite Heq.
          rewrite !(Nat.add_comm (_ * K)), !Nat.Div0.mod_add, !Nat.mod_small in Hmod by lia.
          congruence. }
  exact Hloop.
Qed.

Lemma dependentValues_entries (points : vtkPoints) :
  let values := dependentValues points in
  length values = (length points * 3)%nat
  /\ forall p d, (p < length points)%nat -> (d < 3)%nat ->
       values !! (p * 3 + d)%nat = Some (coordinate (GetPoint p points) d).
Proof.
  cbv zeta. unfold dependentValues. cbv zeta.
  set (N := length points).
  pose (Inv := fun (p' : nat) (values : list double) =>
                 length values = (N * 3)%nat
                 /\ forall p d, (p < p')%nat -> (d < 3)%nat ->
                      values !! (p * 3 + d)%nat = Some (coordinate (GetPoint p points) d)).
  assert (Hloop : Inv N (foldl (fun values p =>
                     foldl (fun values d =>
                              <[(p * 3 + d)%nat := coordinate (GetPoint p points) d]> values)
                           values (seq 0 3))
                     (replicate (N * 3) zero) (seq 0 N))).
  { apply (foldl_seq_invariant Inv); unfold Inv.
    - split; [ now rewrite length_replicate | intros; lia ].
    - intros p' values Hp' (Hlen & Hdone).
      destruct (scatter_written (fun d => (p' * 3 + d)%nat)
                  (fun d => coordinate (GetPoint p' points) d) 3 values)
        as (Hlen' & Hwritten & Hother).
      + intros; lia.
      + intros d Hd. rewrite Hlen. lia.
      + split; [ now rewrite Hlen' | ].
        intros p d Hp Hd. destruct (decide (p = p')) as [->|Hne].
        * now apply Hwritten.
        * rewrite Hother; [ apply Hdone; [ lia | assumption ] | ].
          intros q Hq. lia. }
  destruct Hloop as [Hlen Hentries]. split; [ exact Hlen | ].
  intros p d Hp Hd. now apply Hentries.
Qed.

(** X6. The least-squares system the polynomial generator hands to the
    solver: the design matrix has one row per point and one column per
    coefficient, entry [(p, c)] is parameter [p] to the power [c]; the
    target matrix has one row per point, the point's three coordinates.
    Both are stored row-major and every entry is written. *)
Theorem least_squares_system (points : vtkPoints) (numPolynomialCoefficients : nat)
  (pointParameters : vtkDoubleArray) :
  let numPoints := length points in
  let design := independentValues numPoints numPolynomialCoefficients pointParameters in
  let target := dependentValues points in
  length design = (numPoints * numPolynomialCoefficients)%nat
  /\ (forall p c, (p < numPoints)%nat -> (c < numPolynomialCoefficients)%nat ->
        design !! (p * numPolynomialCoefficients + c)%nat
        = Some (dpow (GetValue p pointParameters) c))
  /\ length target = (numPoints * 3)%nat
  /\ (forall p, (p < numPoints)%nat ->
        target !! (p * 3)%nat = Some (coord0 (GetPoint p points))
        /\ target !! (p * 3 + 1)%nat = Some (coord1 (GetPoint p points))
        /\ target !! (p * 3 + 2)%nat = Some (coord2 (GetPoint p points))).
Proof.
  intros numPoints design target.
  destruct (independentValues_entries numPoints numPolynomialCoefficients pointParameters)
    as [Hdesign Hpowers].
  destruct (dependentValues_entries points) as [Htarget Hcoordinates].
  split; [ exact Hdesign | split; [ exact Hpowers | split; [ exact Htarget | ] ] ].
  intros p Hp. repeat split.
  - rewrite <- (Nat.add_0_r (p * 3)). apply (Hcoordinates p 0%nat); [ assumption | lia ].
  - apply (Hcoordinates p 1%nat); [ assumption | lia ].
  - apply (Hcoordinates p 2%nat); [ assumption | lia ].
Qed.

End Matrices.

Section PolynomialErrors.
Context {S : Scalar} {C : Collaborators}.

(** X7. From three points on, a parameter array whose length is not the
    number of points stops the polynomial generator before any fit: the
    output object is left as it was and the one warning names both
    counts, whatever the order, the radius and the other arguments. *)
Theorem polynomial_rejects_miscounted_parameters (points : vtkPoints) (mesh : vtkPolyData)
  (tubeRadius : double) (tubeNumberOfSides segments : Z) (tubeLoop : bool)
  (polynomialOrder : Z) (pointParameters : vtkDoubleArray) :
  (3 <= length points)%nat ->
  length pointParameters <> length points ->
  GeneratePolynomialCurveModel (Some points) (Some mesh) tubeRadius tubeNumberOfSides
    segments tubeLoop polynomialOrder (Some pointParameters)
  = PolynomialReturned
      (mkEffect (Some mesh)
         [IncorrectNumberOfPointParameters (Z.of_nat (length points))
            (Z.of_nat (length pointParameters))]).
Proof.
  intros Hn Hcount. rewrite GeneratePolynomialCurveModel_present by assumption.
  unfold GetNumberOfTuples, GetNumberOfPoints.
  destruct (Z.eqb_spec (Z.of_nat (length pointParameters)) (Z.of_nat (length points)));
    [ lia | reflexivity ].
Qed.

Lemma length_uniquePointParameters (numPoints : nat) (pointParameters : vtkDoubleArray) :
  let unique :=
    foldl (fun set i => setInsert (GetValue i pointParameters) set) [] (seq 0 numPoints) in
  (length unique <= numPoints)%nat /\ ((1 <= numPoints)%nat -> (1 <= length unique)%nat).
Proof.
  cbv zeta.
  pose (Inv := fun (n : nat) (set : list double) =>
                 (length set <= n)%nat /\ ((1 <= n)%nat -> (1 <= length set)%nat)).
  apply (foldl_seq_invariant Inv); unfold Inv.
  - cbn. lia.
  - intros n set _ [Hle _]. pose proof (length_setInsert (GetValue n pointParameters) set).
    split; [ | lia ]. unfold setInsert. destruct (existsb _ set); [ lia | ].
    rewrite length_app. cbn. lia.
Qed.

Lemma polynomialPoint_no_coefficient (coefficientValues : list double)
  (numPointsOnCurve : Z) (count : nat) :
  map (polynomialPoint coefficientValues 0 numPointsOnCurve) (seq 0 count)
  = replicate count (mkPoint zero zero zero).
Proof.
  induction count as [|count IH]; [ reflexivity | ].
  rewrite seq_S, map_app, IH. cbn [map].
  change (polynomialPoint coefficientValues 0 numPointsOnCurve (0 + count))
    with (mkPoint zero zero zero).
  now rewrite replicate_S_end.
Qed.

Lemma numberOfPolynomialCoefficients_negative (polynomialOrder : Z) (numPoints : nat)
  (pointParameters : vtkDoubleArray) :
  (1 <= numPoints)%nat -> (polynomialOrder < 0)%Z ->
  numberOfPolynomialCoefficients polynomialOrder numPoints pointParameters
  = (polynomialOrder + 1)%Z.
Proof.
  intros Hn Horder. unfold numberOfPolynomialCoefficients.
  destruct (length_uniquePointParameters numPoints pointParameters) as [_ Hone].
  destruct (Z.ltb_spec
              (Z.of_nat (length (foldl (fun set i => setInsert (GetValue i pointParameters) set)
                                   [] (seq 0 numPoints))))
              (polynomialOrder + 1)); [ lia | reflexivity ].
Qed.

(** X8. A negative polynomial order is not clamped, and the generator
    reports nothing about it.  From three points on, with a parameter
    array the generator accepts:
    with order -1 the fit has no coefficient; the buffers that depend on
    the coefficient count are empty, nothing the solver returns is read,
    and the curve the run builds has its [(N-1) * s + 1] points all at
    the origin (it goes to the output object when the radius is
    positive, and through [outputTube] otherwise);
    with order -2 or less a buffer is constructed with a negative size
    and the constructor throws, the output object being as it was. *)
Theorem polynomial_negative_order_is_used (points : vtkPoints) (mesh : vtkPolyData)
  (tubeRadius : double) (tubeNumberOfSides segments : Z) (tubeLoop : bool)
  (polynomialOrder : Z) (inputPointParameters : option vtkDoubleArray)
  (pointParameters : vtkDoubleArray) :
  (3 <= length points)%nat ->
  acceptedParameters (length points) inputPointParameters pointParameters ->
  let outcome :=
    GeneratePolynomialCurveModel (Some points) (Some mesh) tubeRadius tubeNumberOfSides
      segments tubeLoop polynomialOrder inputPointParameters in
  let numPointsOnCurve := Z.to_nat ((Z.of_nat (length points) - 1) * segments + 1) in
  let curve :=
    PolyDataLines (replicate numPointsOnCurve (mkPoint zero zero zero))
      [seq 0 numPointsOnCurve] in
  (polynomialOrder = (-1)%Z ->
   outcome
   = if (zero <? tubeRadius)%D
     then PolynomialReturned
            (mkEffect (Some (TubeFilterOutput curve tubeRadius tubeNumberOfSides true)) [])
     else PolynomialCopiedToOutputTube (mkEffect (Some mesh) []) curve)
  /\ ((polynomialOrder < -1)%Z ->
      outcome = PolynomialThrows (mkEffect (Some mesh) [])).
Proof.
  intros Hn Haccepted outcome numPointsOnCurve curve.
  subst outcome curve numPointsOnCurve.
  rewrite (GeneratePolynomialCurveModel_fit _ _ _ _ _ _ _ _ pointParameters) by assumption.
  rewrite fitPolynomialCurve_run. cbv zeta. unfold GetNumberOfPoints.
  split; intros Horder.
  - subst polynomialOrder. change (clampPolynomialOrder (-1)) with ((-1)%Z, @nil Warning).
    cbn [fst snd app].
    rewrite numberOfPolynomialCoefficients_negative by lia.
    cbn [Z.add Z.ltb Z.compare Z.to_nat Pos.add Z.pos_sub Z.opp].
    now rewrite polynomialPoint_no_coefficient.
  - unfold clampPolynomialOrder.
    destruct (Z.ltb_spec 6 polynomialOrder); [ lia | ]. cbn [fst snd app].
    rewrite numberOfPolynomialCoefficients_negative by lia.
    destruct (Z.ltb_spec (polynomialOrder + 1) 0); [ reflexivity | lia ].
Qed.

(** X9. With one point or more and an order that is not negative, the
    number of coefficients of the fit is at least one and exceeds neither
    the order plus one nor the number of points. *)
Theorem coefficients_never_exceed_points (polynomialOrder : Z) (points : vtkPoints)
  (pointParameters : vtkDoubleArray) :
  (1 <= length points)%nat ->
  (0 <= polynomialOrder)%Z ->
  (1 <= numberOfPolynomialCoefficients polynomialOrder (length points) pointParameters
   <= Z.min (polynomialOrder + 1) (Z.of_nat (length points)))%Z.
Proof.
  intros Hn Horder. unfold numberOfPolynomialCoefficients.
  destruct (length_uniquePointParameters (length points) pointParameters) as [Hle Hone].
  destruct (Z.ltb_spec
              (Z.of_nat (length (foldl (fun set i => setInsert (GetValue i pointParameters) set)
                                   [] (seq 0 (length points)))))
              (polynomialOrder + 1)); lia.
Qed.

End PolynomialErrors.

Lemma polynomial_rejects_miscounted_parameters_witness :
  (3 <= length [P64 0 0 0; P64 4 0 0; P64 4 4 0])%nat
  /\ length [@of_int binary64 0; of_int 1] <> length [P64 0 0 0; P64 4 0 0; P64 4 4 0]
  /\ @GeneratePolynomialCurveModel binary64 standInCollaborators
       (Some [P64 0 0 0; P64 4 0 0; P64 4 4 0]) (Some PolyDataInitialized)
       (of_int 1) 8 5 false 3 (Some [of_int 0; of_int 1])
     = PolynomialReturned
         (mkEffect (Some PolyDataInitialized) [IncorrectNumberOfPointParameters 3 2]).
Proof.
  split; [ cbn; lia | split; [ cbn; lia | ] ].
  apply (@polynomial_rejects_miscounted_parameters binary64 standInCollaborators
           [P64 0 0 0; P64 4 0 0; P64 4 4 0] PolyDataInitialized (of_int 1) 8 5 false 3
           [of_int 0; of_int 1]); cbn; lia.
Defined.

Lemma polynomial_negative_order_is_used_witness :
  (3 <= length [P64 0 0 0; P64 4 0 0; P64 4 4 0])%nat
  /\ @GeneratePolynomialCurveModel binary64 standInCollaborators
       (Some [P64 0 0 0; P64 4 0 0; P64 4 4 0]) (Some PolyDataInitialized)
       (of_int 1) 8 5 false (-1) None
     = PolynomialReturned
         (mkEffect
            (Some (TubeFilterOutput
                     (PolyDataLines (replicate 11 (P64 0 0 0)) [seq 0 11])
                     (of_int 1) 8 true)) [])
  /\ @GeneratePolynomialCurveModel binary64 standInCollaborators
       (Some [P64 0 0 0; P64 4 0 0; P64 4 4 0]) (Some PolyDataInitialized)
       (of_int 1) 8 5 false (-2) None
     = PolynomialThrows (mkEffect (Some PolyDataInitialized) []).
Proof.
  split; [ cbn; lia | split ].
  - destruct (@polynomial_negative_order_is_used binary64 standInCollaborators
                [P64 0 0 0; P64 4 0 0; P64 4 4 0] PolyDataInitialized (of_int 1) 8 5 false
                (-1) None (indexParameters 3)) as [Hempty _].
    + cbn. lia.
    + left. split; reflexivity.
    + exact (Hempty eq_refl).
  - destruct (@polynomial_negative_order_is_used binary64 standInCollaborators
                [P64 0 0 0; P64 4 0 0; P64 4 4 0] PolyDataInitialized (of_int 1) 8 5 false
                (-2) None (indexParameters 3)) as [_ Hthrows].
    + cbn. lia.
    + left. split; reflexivity.
    + apply Hthrows. lia.
Defined.

Lemma coefficients_never_exceed_points_witness :
  (1 <= length [P64 0 0 0; P64 4 0 0; P64 4 4 0])%nat
  /\ (0 <= 5)%Z
  /\ (1 <= @numberOfPolynomialCoefficients binary64 5 3 [of_int 0; of_int 1; of_int 1]
      <= Z.min (5 + 1) 3)%Z.
Proof.
  split; [ cbn; lia | split; [ lia | ] ].
  apply (@coefficients_never_exceed_points binary64 5 [P64 0 0 0; P64 4 0 0; P64 4 4 0]
           [of_int 0; of_int 1; of_int 1]); [ cbn; lia | lia ].
Defined.

Lemma setInsert_member (x : R) (set : list R) : x ∈ set -> @setInsert exact x set = set.
Proof.
  intros Hin. unfold setInsert.
  match goal with |- context [existsb ?f ?l] => destruct (existsb f l) eqn:Hexists end; [ reflexivity | ].
  apply not_true_iff_false in Hexists. exfalso. apply Hexists.
  apply existsb_exists. exists x. split; [ now apply list_elem_of_In | ].
  cbn. unfold Rltb. destruct (Rlt_dec x x); [ lra | reflexivity ].
Qed.

Lemma setInsert_fresh (x : R) (set : list R) : x ∉ set -> @setInsert exact x set = set ++ [x].
Proof.
  intros Hnotin. unfold setInsert.
  match goal with |- context [existsb ?f ?l] => destruct (existsb f l) eqn:Hexists end; [ | reflexivity ].
  apply existsb_exists in Hexists. destruct Hexists as (y & Hy & Hsame).
  exfalso. apply Hnotin. cbn in Hsame. unfold Rltb in Hsame.
  destruct (Rlt_dec x y), (Rlt_dec y x); try discriminate.
  replace x with y by lra. now apply list_elem_of_In.
Qed.

Lemma elem_of_real_list (x : R) (l : list R) : x ∈ l \/ x ∉ l.
Proof.
  destruct (In_dec Req_dec_T x l) as [Hin|Hnotin].
  - left. now apply list_elem_of_In.
  - right. intros Hin. apply Hnotin. now apply list_elem_of_In.
Qed.

Lemma uniquePointParameters_distinct (numPoints : nat) (pointParameters : list (@double exact)) :
  let unique :=
    foldl (fun set i => @setInsert exact (@GetValue exact i pointParameters) set)
          [] (seq 0 numPoints) in
  NoDup unique
  /\ forall x, x ∈ unique <-> exists i, (i < numPoints)%nat /\ @GetValue exact i pointParameters = x.
Proof.
  cbv zeta.
  pose (Inv := fun (n : nat) (set : list R) =>
                 NoDup set
                 /\ forall x, x ∈ set
                      <-> exists i, (i < n)%nat /\ @GetValue exact i pointParameters = x).
  apply (foldl_seq_invariant Inv); unfold Inv.
  - split; [ constructor | ]. intros x. split.
    + intros Hin. inversion Hin.
    + intros (i & Hi & _). lia.
  - intros n set _ [Hnodup Hmembers].
    destruct (elem_of_real_list (@GetValue exact n pointParameters) set) as [Hin|Hnotin].
    + rewrite setInsert_member by assumption. split; [ assumption | ].
      intros x. rewrite Hmembers. split.
      * intros (i & Hi & Hx). exists i. split; [ lia | assumption ].
      * intros (i & Hi & Hx). destruct (decide (i = n)) as [->|Hne].
        -- subst x. now apply Hmembers.
        -- exists i. split; [ lia | assumption ].
    + rewrite setInsert_fresh by assumption. split.
      * apply NoDup_app. repeat split; [ assumption | | apply NoDup_singleton ].
        intros x Hx Hx'. apply list_elem_of_singleton in Hx'. now subst x.
      * intros x. rewrite elem_of_app, list_elem_of_singleton, Hmembers. split.
        -- intros [(i & Hi & Hx) | ->]; [ exists i | exists n ]; split; lia || auto.
        -- intros (i & Hi & Hx). destruct (decide (i = n)) as [->|Hne];
             [ now right | left; exists i; split; [ lia | assumption ] ].
Qed.

Lemma numberOfPolynomialCoefficients_min {S : Scalar} (polynomialOrder : Z) (numPoints : nat)
  (pointParameters : vtkDoubleArray) :
  numberOfPolynomialCoefficients polynomialOrder numPoints pointParameters
  = Z.min (polynomialOrder + 1)
      (Z.of_nat (length (foldl (fun set i => setInsert (GetValue i pointParameters) set)
                           [] (seq 0 numPoints)))).
Proof.
  unfold numberOfPolynomialCoefficients.
  match goal with |- context [(?a <? ?b)%Z] => destruct (Z.ltb_spec a b) end; lia.
Qed.

(** X10. In exact arithmetic the fit uses as many coefficients as the
    order asks for, unless there are fewer distinct parameter values:
    the count is the smaller of [order + 1] and the number of distinct
    values among the parameters of the points. *)
Theorem coefficients_follow_distinct_parameters (polynomialOrder : Z) (numPoints : nat)
  (pointParameters : list (@double exact)) :
  exists distinct : list R,
    NoDup distinct
    /\ (forall x, x ∈ distinct
          <-> exists i, (i < numPoints)%nat /\ @GetValue exact i pointParameters = x)
    /\ @numberOfPolynomialCoefficients exact polynomialOrder numPoints pointParameters
       = Z.min (polynomialOrder + 1) (Z.of_nat (length distinct)).
Proof.
  destruct (uniquePointParameters_distinct numPoints pointParameters) as [Hnodup Hmembers].
  eexists. split; [ exact Hnodup | split; [ exact Hmembers | ] ].
  apply (@numberOfPolynomialCoefficients_min exact).
Qed.

Lemma NoDup_indexParameters (numPoints : nat) :
  (2 <= numPoints)%nat -> NoDup (@indexParameters exact numPoints).
Proof.
  intros Hn. unfold indexParameters. apply NoDup_fmap_2_strong; [ | apply NoDup_seq ].
  intros i j _ _ Heq. cbn in Heq.
  assert (Hpos : (0 < IZR (Z.of_nat numPoints - 1))%R) by (apply IZR_lt; lia).
  apply Rmult_eq_reg_r in Heq; [ | apply Rinv_neq_0_compat; lra ].
  apply eq_IZR in Heq. lia.
Qed.

(** X11. In exact arithmetic, the index-based parameters of [N >= 2]
    points are pairwise distinct, so with them the fit has
    [min (order + 1, N)] coefficients: the order is lowered only when
    there are too few points.  When all points carry the same parameter
    the fit has one coefficient, whatever order was asked for. *)
Theorem coefficients_for_index_and_constant_parameters (polynomialOrder : Z) (numPoints : nat)
  (pointParameters : list (@double exact)) (x : R) :
  (2 <= numPoints)%nat ->
  (0 <= polynomialOrder)%Z ->
  @numberOfPolynomialCoefficients exact polynomialOrder numPoints
    (@indexParameters exact numPoints)
  = Z.min (polynomialOrder + 1) (Z.of_nat numPoints)
  /\ ((forall i, (i < numPoints)%nat -> pointParameters !! i = Some x) ->
      @numberOfPolynomialCoefficients exact polynomialOrder numPoints pointParameters = 1%Z).
Proof.
  intros Hn Horder. split.
  - rewrite (@numberOfPolynomialCoefficients_min exact).
    destruct (uniquePointParameters_distinct numPoints (@indexParameters exact numPoints))
      as [Hnodup Hmembers].
    set (distinct := foldl _ _ _) in *.
    do 2 f_equal.
    transitivity (length (@indexParameters exact numPoints));
      [ | apply (@length_indexParameters exact) ].
    apply Permutation_length, NoDup_Permutation;
      [ assumption | now apply NoDup_indexParameters | ].
    intros y. rewrite Hmembers. split.
    + intros (i & Hi & <-). unfold GetValue.
      destruct (lookup_lt_is_Some_2 (@indexParameters exact numPoints) i) as [z Hz];
        [ now rewrite (@length_indexParameters exact) | ].
      rewrite Hz. cbn. now apply list_elem_of_lookup_2 with i.
    + intros Hy. apply list_elem_of_lookup_1 in Hy. destruct Hy as [i Hi].
      exists i. split.
      * apply lookup_lt_Some in Hi. now rewrite (@length_indexParameters exact) in Hi.
      * unfold GetValue. now rewrite Hi.
  - intros Hconstant.
    rewrite (@numberOfPolynomialCoefficients_min exact).
    destruct (uniquePointParameters_distinct numPoints pointParameters) as [Hnodup Hmembers].
    set (distinct := foldl _ _ _) in *.
    assert (Hone : distinct ≡ₚ [x]).
    { apply NoDup_Permutation; [ assumption | apply NoDup_singleton | ].
      intros y. rewrite Hmembers, list_elem_of_singleton. split.
      - intros (i & Hi & <-). unfold GetValue. now rewrite Hconstant.
      - intros ->. exists 0%nat. split; [ lia | ]. unfold GetValue.
        now rewrite Hconstant by lia. }
    apply Permutation_length in Hone. rewrite Hone. cbn. lia.
Qed.

Lemma coefficients_for_index_and_constant_parameters_witness :
  (2 <= 3)%nat
  /\ (0 <= 5)%Z
  /\ @numberOfPolynomialCoefficients exact 5 3 (@indexParameters exact 3) = Z.min (5 + 1) 3.
Proof.
  split; [ lia | split; [ lia | ] ].
  destruct (coefficients_for_index_and_constant_parameters 5 3 [] 0%R) as [Hindex _];
    [ lia | lia | exact Hindex ].
Defined.

Lemma constant_term (a : nat -> R) (k : nat) :
  foldl (fun sum c => (sum + a c * 0 ^ c)%R) 0%R (seq 0 k)
  = if (k =? 0)%nat then 0%R else a 0%nat.
Proof.
  apply (foldl_seq_invariant
           (fun n (sum : R) => sum = if (n =? 0)%nat then 0%R else a 0%nat)); [ reflexivity | ].
  intros n sum _ ->. destruct n as [|n]; cbn [Nat.eqb].
  - cbn. lra.
  - rewrite pow_i by lia. lra.
Qed.

Lemma sum_of_terms (a : nat -> R) (k : nat) :
  foldl (fun sum c => (sum + a c * 1 ^ c)%R) 0%R (seq 0 k)
  = foldl Rplus 0%R (map a (seq 0 k)).
Proof.
  induction k as [|k IH]; [ reflexivity | ].
  rewrite seq_S, map_app, !foldl_app, IH. cbn [foldl map Nat.add].
  rewrite pow1. lra.
Qed.

(** X12. In exact arithmetic the fitted polynomial is sampled over the
    whole parameter interval, ends included: with at least two samples
    and at least one coefficient, the first sample is the polynomial at
    0, that is, its constant coefficients, and the last one is the
    polynomial at 1, the sum of the coefficients of each coordinate. *)
Theorem polynomial_curve_ends (coefficientValues : list (@double exact))
  (numPolynomialCoefficients : nat) (numPointsOnCurve : Z) :
  (1 <= numPolynomialCoefficients)%nat ->
  (2 <= numPointsOnCurve)%Z ->
  let samples :=
    fst (@polynomialSamples exact coefficientValues numPolynomialCoefficients numPointsOnCurve) in
  let coefficient (c d : nat) : R := @GetValue exact (c * 3 + d) coefficientValues in
  let total (d : nat) : R :=
    foldl Rplus 0%R (map (fun c => coefficient c d) (seq 0 numPolynomialCoefficients)) in
  length samples = Z.to_nat numPointsOnCurve
  /\ head samples
     = Some (@mkPoint exact (coefficient 0 0) (coefficient 0 1) (coefficient 0 2))%nat
  /\ last samples = Some (@mkPoint exact (total 0%nat) (total 1%nat) (total 2%nat)).
Proof.
  intros Hk Hn samples coefficient total. subst samples.
  rewrite (@polynomialSamples_map exact). cbn [fst].
  set (n := Z.to_nat numPointsOnCurve).
  assert (Hcount : n = Datatypes.S (Datatypes.S (n - 2))) by lia.
  split; [ now rewrite length_map, length_seq | split ].
  - rewrite Hcount. cbn [seq map head]. f_equal. unfold polynomialPoint.
    assert (Hzero : (@of_int exact (Z.of_nat 0) / @of_int exact (numPointsOnCurve - 1))%D = 0%R).
    { cbn. unfold Rdiv. apply Rmult_0_l. }
    cbv zeta. rewrite Hzero.
    f_equal.
    1: refine (eq_trans (constant_term (fun c => coefficient c 0%nat) _) _).
    2: refine (eq_trans (constant_term (fun c => coefficient c 1%nat) _) _).
    3: refine (eq_trans (constant_term (fun c => coefficient c 2%nat) _) _).
    all: destruct numPolynomialCoefficients; [ lia | reflexivity ].
  - rewrite Hcount, seq_S, map_app. cbn [map]. rewrite last_snoc. unfold polynomialPoint.
    assert (Hone : (@of_int exact (Z.of_nat (0 + Datatypes.S (n - 2)))
                    / @of_int exact (numPointsOnCurve - 1))%D = 1%R).
    { cbn [of_int ddiv exact]. replace (Z.of_nat (0 + Datatypes.S (n - 2)))
        with (numPointsOnCurve - 1)%Z by lia.
      apply Rdiv_diag. apply not_0_IZR. lia. }
    cbv zeta. rewrite Hone.
    f_equal. f_equal.
    1: exact (sum_of_terms (fun c => coefficient c 0%nat) _).
    1: exact (sum_of_terms (fun c => coefficient c 1%nat) _).
    exact (sum_of_terms (fun c => coefficient c 2%nat) _).
Qed.

Lemma polynomial_curve_ends_witness :
  (1 <= 1)%nat
  /\ (2 <= 2)%Z
  /\ head (fst (@polynomialSamples exact [1%R; 2%R; 3%R] 1 2))
     = Some (@mkPoint exact (@GetValue exact 0 [1%R; 2%R; 3%R])
               (@GetValue exact 1 [1%R; 2%R; 3%R]) (@GetValue exact 2 [1%R; 2%R; 3%R])).
Proof.
  split; [ lia | split; [ lia | ] ].
  destruct (polynomial_curve_ends [1%R; 2%R; 3%R] 1 2) as (_ & Hfirst & _);
    [ lia | lia | exact Hfirst ].
Defined.

(** * The spanning tree, for any points *)

Section DistanceMatrix.
Context {S : Scalar}.

(** The loops of lines 773-792 fill the whole matrix: entry [(v, u)] is
    the distance between points [u] and [v]. *)
Lemma farthestPair_distances (points : vtkPoints) :
  let N := length points in
  let D := distances (farthestPair points) in
  length D = (N * N)%nat
  /\ forall v u, (v < N)%nat -> (u < N)%nat ->
       D !! (v * N + u)%nat = Some (distance3D (GetPoint u points) (GetPoint v points)).
Proof.
  cbv zeta. unfold farthestPair. set (N := length points).
  pose (Inv := fun (v' : nat) (st : FarthestPair) =>
                 length (distances st) = (N * N)%nat
                 /\ forall v u, (v < v')%nat -> (u < N)%nat ->
                      distances st !! (v * N + u)%nat
                      = Some (distance3D (GetPoint u points) (GetPoint v points))).
  match goal with
  | |- length (distances (foldl ?f ?a ?l)) = _ /\ _ => assert (Hloop : Inv N (foldl f a l))
  end.
  { apply (foldl_seq_invariant Inv); unfold Inv.
    - cbn [distances]. split; [ now rewrite length_replicate | intros; lia ].
    - intros v' st Hv' (Hlen & Hrows).
      pose (Row := fun (u' : nat) (st : FarthestPair) =>
                     length (distances st) = (N * N)%nat
                     /\ (forall v u, (v < v')%nat -> (u < N)%nat ->
                           distances st !! (v * N + u)%nat
                           = Some (distance3D (GetPoint u points) (GetPoint v points)))
                     /\ (forall u, (u < u')%nat ->
                           distances st !! (v' * N + u)%nat
                           = Some (distance3D (GetPoint u points) (GetPoint v' points)))).
      match goal with
      | |- length (distances (foldl ?f ?a ?l)) = _ /\ _ => assert (Hrow : Row N (foldl f a l))
      end.
      { apply (foldl_seq_invariant Row); unfold Row.
        - split; [ exact Hlen | split; [ exact Hrows | intros; lia ] ].
        - intros u' st' Hu' (Hlen' & Hrows' & Hrow'). cbv zeta.
          assert (Hslot : (v' * N + u' < length (distances st'))%nat) by (rewrite Hlen'; nia).
          destruct (dltb _ _); cbn [distances]; rewrite length_insert;
            (split; [ exact Hlen' | split ]).
          + intros v u Hv Hu. rewrite list_lookup_insert_ne by nia. now apply Hrows'.
          + intros u Hu. destruct (decide (u = u')) as [->|Hne].
            * now apply list_lookup_insert_eq.
            * rewrite list_lookup_insert_ne by lia. apply Hrow'. lia.
          + intros v u Hv Hu. rewrite list_lookup_insert_ne by nia. now apply Hrows'.
          + intros u Hu. destruct (decide (u = u')) as [->|Hne].
            * now apply list_lookup_insert_eq.
            * rewrite list_lookup_insert_ne by lia. apply Hrow'. lia. }
      destruct Hrow as (Hlen' & Hrows' & Hrow'). split; [ exact Hlen' | ].
      intros v u Hv Hu. destruct (decide (v = v')) as [->|Hne].
      + now apply Hrow'.
      + apply Hrows'; [ lia | assumption ]. }
  exact Hloop.
Qed.

Lemma graph_distance3D (points : vtkPoints) (v u : nat) :
  (v < length points)%nat -> (u < length points)%nat ->
  graph (length points) (distances (farthestPair points)) v u
  = distance3D (GetPoint u points) (GetPoint v points).
Proof.
  intros Hv Hu. unfold graph, GetValue.
  destruct (farthestPair_distances points) as [_ Hentries].
  now rewrite (Hentries v u Hv Hu).
Qed.

End DistanceMatrix.

Lemma distance3D_self (point : @Point exact) : @distance3D exact point point = 0%R.
Proof.
  unfold distance3D. cbn.
  replace (_ + _ + _)%R with 0%R by ring. apply sqrt_0.
Qed.

Lemma distance3D_nonnegative (pointU pointV : @Point exact) :
  (0 <= @distance3D exact pointU pointV)%R.
Proof. unfold distance3D. apply sqrt_pos. Qed.

Lemma distance3D_sym (pointU pointV : @Point exact) :
  @distance3D exact pointU pointV = @distance3D exact pointV pointU.
Proof. unfold distance3D. cbn. f_equal. ring. Qed.

(** X13. In exact arithmetic, the pair of vertices the spanning-tree
    parameterizer starts from is a farthest pair: both are vertices,
    the recorded maximum is the distance between them, and no two
    points are farther apart.  The matrix it fills holds, at
    [(v, u)], the distance between points [u] and [v]. *)
Theorem farthestPair_is_farthest (points : list (@Point exact)) :
  (1 <= length points)%nat ->
  let N := length points in
  let pair := @farthestPair exact points in
  (treeStartIndex pair < N)%nat
  /\ (treeEndIndex pair < N)%nat
  /\ maximumDistance pair
     = @distance3D exact (GetPoint (treeEndIndex pair) points)
         (GetPoint (treeStartIndex pair) points)
  /\ (forall u v, (u < N)%nat -> (v < N)%nat ->
        (@distance3D exact (GetPoint u points) (GetPoint v points) <= maximumDistance pair)%R)
  /\ length (distances pair) = (N * N)%nat
  /\ (forall v u, (v < N)%nat -> (u < N)%nat ->
        distances pair !! (v * N + u)%nat
        = Some (@distance3D exact (GetPoint u points) (GetPoint v points))).
Proof.
  intros HN N pair.
  destruct (@farthestPair_distances exact points) as [Hlen Hentries].
  fold N pair in Hlen, Hentries.
  assert (Hfar : (treeStartIndex pair < N)%nat
                 /\ (treeEndIndex pair < N)%nat
                 /\ maximumDistance pair
                    = @distance3D exact (GetPoint (treeEndIndex pair) points)
                        (GetPoint (treeStartIndex pair) points)
                 /\ forall v u, (v < N)%nat -> (u < N)%nat ->
                      (@distance3D exact (GetPoint u points) (GetPoint v points)
                       <= maximumDistance pair)%R).
  { subst pair. unfold farthestPair. fold N.
    pose (Far := fun (st : @FarthestPair exact) =>
                   (treeStartIndex st < N)%nat
                   /\ (treeEndIndex st < N)%nat
                   /\ maximumDistance st
                      = @distance3D exact (GetPoint (treeEndIndex st) points)
                          (GetPoint (treeStartIndex st) points)).
    pose (Inv := fun (v' : nat) (st : @FarthestPair exact) =>
                   Far st
                   /\ forall v u, (v < v')%nat -> (u < N)%nat ->
                        (@distance3D exact (GetPoint u points) (GetPoint v points)
                         <= maximumDistance st)%R).
    match goal with
    | |- (treeStartIndex (foldl ?f ?a ?l) < _)%nat /\ _ => assert (Hloop : Inv N (foldl f a l))
    end.
    { apply (foldl_seq_invariant Inv); unfold Inv, Far.
      - cbn [treeStartIndex treeEndIndex maximumDistance].
        split; [ | intros; lia ].
        split; [ lia | split; [ lia | ] ]. symmetry. apply distance3D_self.
      - intros v' st Hv' (Hfar & Hrows).
        pose (Row := fun (u' : nat) (st : @FarthestPair exact) =>
                       Far st
                       /\ (forall v u, (v < v')%nat -> (u < N)%nat ->
                             (@distance3D exact (GetPoint u points) (GetPoint v points)
                              <= maximumDistance st)%R)
                       /\ (forall u, (u < u')%nat ->
                             (@distance3D exact (GetPoint u points) (GetPoint v' points)
                              <= maximumDistance st)%R)).
        match goal with
        | |- context [foldl ?f st ?l] => assert (Hrow : Row N (foldl f st l))
        end.
        { apply (foldl_seq_invariant Row); unfold Row, Far.
          - split; [ exact Hfar | split; [ exact Hrows | intros; lia ] ].
          - intros u' st' Hu' (Hfar' & Hrows' & Hrow'). cbv zeta.
            reals. unfold Rltb.
            destruct (Rlt_dec _ _) as [Hless|Hnotless];
              cbn [treeStartIndex treeEndIndex maximumDistance].
            + split; [ split; [ lia | split; [ lia | reflexivity ] ] | split ].
              * intros v u Hv Hu. specialize (Hrows' v u Hv Hu). lra.
              * intros u Hu. destruct (decide (u = u')) as [->|Hne]; [ lra | ].
                assert (Hu'' : (u < u')%nat) by lia. specialize (Hrow' u Hu''). lra.
            + split; [ exact Hfar' | split; [ exact Hrows' | ] ].
              intros u Hu. destruct (decide (u = u')) as [->|Hne]; [ lra | ].
              apply Hrow'. lia. }
        destruct Hrow as (Hfar' & Hrows' & Hrow'). split; [ exact Hfar' | ].
        intros v u Hv Hu. destruct (decide (v = v')) as [->|Hne].
        + now apply Hrow'.
        + apply Hrows'; [ lia | assumption ]. }
    destruct Hloop as ((Hs & He & Hmax) & Hall). auto. }
  destruct Hfar as (Hs & He & Hmax & Hall).
  split; [ exact Hs | split; [ exact He | split; [ exact Hmax | ] ] ].
  split; [ intros u v Hu Hv; now apply Hall | ].
  split; [ exact Hlen | exact Hentries ].
Qed.

Lemma farthestPair_is_farthest_witness :
  (1 <= length [PR 0 0 0; PR 3 4 0])%nat
  /\ maximumDistance (@farthestPair exact [PR 0 0 0; PR 3 4 0])
     = @distance3D exact
         (GetPoint (treeEndIndex (@farthestPair exact [PR 0 0 0; PR 3 4 0]))
            [PR 0 0 0; PR 3 4 0])
         (GetPoint (treeStartIndex (@farthestPair exact [PR 0 0 0; PR 3 4 0]))
            [PR 0 0 0; PR 3 4 0]).
Proof.
  split; [ cbn; lia | ].
  destruct (farthestPair_is_farthest [PR 0 0 0; PR 3 4 0]) as (_ & _ & Hmax & _);
    [ cbn; lia | exact Hmax ].
Defined.

Lemma treeSize_replicate (n : nat) : treeSize (replicate n false) = 0%nat.
Proof. induction n as [|n IH]; [ reflexivity | exact IH ]. Qed.

Lemma treeSize_insert (mstSet : list bool) (u : nat) :
  mstSet !! u = Some false -> treeSize (<[u := true]> mstSet) = Datatypes.S (treeSize mstSet).
Proof.
  revert u. induction mstSet as [|b rest IH]; intros u Hu; [ discriminate | ].
  destruct u as [|u]; cbn in Hu.
  - now injection Hu as ->.
  - change (treeSize (b :: <[u := true]> rest) = Datatypes.S (treeSize (b :: rest))).
    cbn [treeSize]. rewrite (IH u Hu). lia.
Qed.

Lemma treeSize_outside (mstSet : list bool) :
  (treeSize mstSet < length mstSet)%nat -> exists v, mstSet !! v = Some false.
Proof.
  induction mstSet as [|b rest IH]; cbn; [ lia | ].
  destruct b; [ | exists 0%nat; reflexivity ].
  intros Hsize. destruct IH as [v Hv]; [ lia | ]. now exists (Datatypes.S v).
Qed.

Section Relax.
Context {S : Scalar}.

(** The loop of lines 839-851 looks at every vertex once: a vertex that
    passes the test gets the picked vertex as parent and the edge to it
    as key, every other vertex is left alone. *)
Lemma relaxNeighbours_spec (numPoints : nat) (D : list double) (u : nat) (st : Prim) :
  length (parent st) = numPoints ->
  length (key st) = numPoints ->
  let st' := relaxNeighbours numPoints D u st in
  mstSet st' = mstSet st
  /\ length (parent st') = numPoints
  /\ length (key st') = numPoints
  /\ forall v, (v < numPoints)%nat ->
       if relaxes numPoints D u st v
       then parent st' !! v = Some (Z.of_nat u) /\ key st' !! v = Some (graph numPoints D u v)
       else parent st' !! v = parent st !! v /\ key st' !! v = key st !! v.
Proof.
  intros Hparent Hkey. cbv zeta. unfold relaxNeighbours.
  pose (Inv := fun (n : nat) (st' : Prim) =>
                 mstSet st' = mstSet st
                 /\ length (parent st') = numPoints
                 /\ length (key st') = numPoints
                 /\ forall v, (v < numPoints)%nat ->
                      if (v <? n)%nat && relaxes numPoints D u st v
                      then parent st' !! v = Some (Z.of_nat u)
                           /\ key st' !! v = Some (graph numPoints D u v)
                      else parent st' !! v = parent st !! v /\ key st' !! v = key st !! v).
  match goal with
  | |- context [foldl ?f st ?l] => assert (Hloop : Inv numPoints (foldl f st l))
  end.
  { apply (foldl_seq_invariant Inv); unfold Inv.
    - repeat split; assumption || reflexivity.
    - intros n st' Hn (Hmst & Hparent' & Hkey' & Hdone).
      assert (Hsame : ((zero <=? graph numPoints D u n)
                       && negb (default false (mstSet st' !! n))
                       && (graph numPoints D u n <? GetValue n (key st')))%D
                      = relaxes numPoints D u st n).
      { unfold relaxes, GetValue. rewrite Hmst.
        specialize (Hdone n Hn). rewrite Nat.ltb_irrefl in Hdone. cbn in Hdone.
        destruct Hdone as [_ ->]. reflexivity. }
      rewrite Hsame. destruct (relaxes numPoints D u st n) eqn:Hfires.
      + cbn [mstSet parent key]. rewrite !length_insert.
        split; [ exact Hmst | split; [ exact Hparent' | split; [ exact Hkey' | ] ] ].
        intros v Hv. destruct (decide (v = n)) as [->|Hne].
        * rewrite (proj2 (Nat.ltb_lt n (Datatypes.S n))) by lia. rewrite Hfires. cbn.
          split; apply list_lookup_insert_eq; lia.
        * rewrite !list_lookup_insert_ne by lia.
          specialize (Hdone v Hv).
          destruct (Nat.ltb_spec v n), (Nat.ltb_spec v (Datatypes.S n)); try lia; exact Hdone.
      + split; [ exact Hmst | split; [ exact Hparent' | split; [ exact Hkey' | ] ] ].
        intros v Hv. specialize (Hdone v Hv). destruct (decide (v = n)) as [->|Hne].
        * rewrite Hfires, andb_false_r. rewrite Nat.ltb_irrefl in Hdone. exact Hdone.
        * destruct (Nat.ltb_spec v n), (Nat.ltb_spec v (Datatypes.S n)); try lia; exact Hdone. }
  destruct Hloop as (Hmst & Hparent' & Hkey' & Hdone).
  split; [ exact Hmst | split; [ exact Hparent' | split; [ exact Hkey' | ] ] ].
  intros v Hv. specialize (Hdone v Hv).
  now rewrite (proj2 (Nat.ltb_lt v numPoints)) in Hdone by assumption.
Qed.

Lemma Climbs_le (tree : Prim) (start d d' v : nat) :
  (d <= d')%nat -> Climbs tree start d v -> Climbs tree start d' v.
Proof.
  revert d' v. induction d as [|d IH]; intros d' v Hle [Hin Hclimb].
  - destruct d'; cbn; auto.
  - destruct d' as [|d']; [ lia | ]. cbn. split; [ assumption | ].
    destruct Hclimb as [->|(u & Hu & Hclimb)]; [ now left | right ].
    exists u. split; [ assumption | ]. apply IH; [ lia | assumption ].
Qed.

(** Changes outside the tree do not disturb the climbs inside it. *)
Lemma Climbs_preserved (tree tree' : Prim) (start d v : nat) :
  (forall w, mstSet tree !! w = Some true ->
     mstSet tree' !! w = Some true /\ parent tree' !! w = parent tree !! w) ->
  Climbs tree start d v -> Climbs tree' start d v.
Proof.
  intros Hsame. revert v. induction d as [|d IH]; intros v [Hin Hclimb]; cbn.
  - split; [ now apply Hsame | assumption ].
  - split; [ now apply Hsame | ].
    destruct Hclimb as [->|(u & Hu & Hclimb)]; [ now left | right ].
    exists u. split; [ | now apply IH ].
    destruct (Hsame v Hin) as [_ ->]. exact Hu.
Qed.

Lemma Climbs_Up (tree : Prim) (start d v : nat) :
  Climbs tree start d v -> Up (parent tree) start d v.
Proof.
  revert v. induction d as [|d IH]; intros v [_ Hclimb]; cbn; [ assumption | ].
  destruct Hclimb as [->|(u & Hu & Hclimb)]; [ now left | right ].
  exists u. split; [ assumption | now apply IH ].
Qed.

End Relax.

Lemma Up_le (parent : list Z) (start d d' v : nat) :
  (d <= d')%nat -> Up parent start d v -> Up parent start d' v.
Proof.
  revert d' v. induction d as [|d IH]; intros d' v Hle Hup.
  - destruct d'; cbn in *; auto.
  - destruct d' as [|d']; [ lia | ]. cbn.
    destruct Hup as [->|(u & Hu & Hup)]; [ now left | right ].
    exists u. split; [ assumption | ]. apply IH; [ lia | assumption ].
Qed.

(** The scan of lines 822-831 picks a vertex outside the tree whose key
    is below [VTK_DOUBLE_MAX], when there is one. *)
Lemma pickNextPoint_spec (numPoints : nat) (st : @Prim exact) :
  (pickNextPoint numPoints st = (-1)%Z
   /\ forall v, (v < numPoints)%nat -> default false (mstSet st !! v) = false ->
        ~ (@GetValue exact v (key st) < MAX)%R)
  \/ exists u, pickNextPoint numPoints st = Z.of_nat u
               /\ (u < numPoints)%nat
               /\ default false (mstSet st !! u) = false
               /\ (@GetValue exact u (key st) < MAX)%R.
Proof.
  unfold pickNextPoint.
  pose (Inv := fun (n : nat) (state : Z * R) =>
                 (fst state = (-1)%Z /\ snd state = MAX
                  /\ forall v, (v < n)%nat -> default false (mstSet st !! v) = false ->
                       ~ (@GetValue exact v (key st) < MAX)%R)
                 \/ exists u, fst state = Z.of_nat u
                              /\ (u < n)%nat
                              /\ default false (mstSet st !! u) = false
                              /\ snd state = @GetValue exact u (key st)
                              /\ (snd state < MAX)%R).
  match goal with
  | |- context [foldl ?f ?a ?l] => assert (Hloop : Inv numPoints (foldl f a l))
  end.
  { apply (foldl_seq_invariant Inv); unfold Inv.
    - left. cbn. repeat split. intros; lia.
    - intros n [index least] Hn Hstate. cbn [fst snd] in *.
      destruct (default false (mstSet st !! n)) eqn:Hin; cbn [negb andb].
      + destruct Hstate as [(-> & -> & Hnone)|(u & -> & Hu & Hout & -> & Hless)]; cbn [fst snd].
        * left. repeat split. intros v Hv Hv'.
          destruct (decide (v = n)) as [->|Hne]; [ congruence | apply Hnone; [ lia | assumption ] ].
        * right. exists u. repeat split; lia || assumption.
      + reals. unfold Rltb. destruct (Rlt_dec _ least) as [Hlower|Hnotlower]; cbn [fst snd].
        * right. exists n. repeat split; try lia; try assumption.
          destruct Hstate as [(_ & -> & _)|(u & _ & _ & _ & _ & Hless)]; [ assumption | ].
          unfold MAX in *. reals. lra.
        * destruct Hstate as [(-> & -> & Hnone)|(u & -> & Hu & Hout & -> & Hless)];
            cbn [fst snd].
          -- left. repeat split. intros v Hv Hv'.
             destruct (decide (v = n)) as [->|Hne];
               [ assumption | apply Hnone; [ lia | assumption ] ].
          -- right. exists u. repeat split; lia || assumption. }
  destruct Hloop as [(Hindex & _ & Hnone)|(u & Hindex & Hu & Hout & Hleast & Hless)].
  - left. split; assumption.
  - right. exists u. rewrite Hleast in Hless. repeat split; assumption.
Qed.

Lemma MAX_positive : (0 < MAX)%R.
Proof. apply (int_below_VTK_DOUBLE_MAX 0). lia. Qed.

Section PrimTerminates.
Variable numPoints : nat.
Variable start : nat.
Variable D : list (@double exact).
Hypothesis Hstart : (start < numPoints)%nat.
Hypothesis Hbounded : forall u v, (u < numPoints)%nat -> (v < numPoints)%nat ->
  (0 <= @graph exact numPoints D u v < MAX)%R.

Lemma primStep_first :
  exists st', primStep numPoints D (primInitial numPoints start) = Some st'
              /\ Grown numPoints start 1 st'.
Proof.
  set (st0 := @primInitial exact numPoints start).
  assert (Hkey : forall v, (v < numPoints)%nat ->
            @GetValue exact v (key st0) = if decide (v = start) then 0%R else MAX).
  { intros v Hv. unfold GetValue, st0, primInitial. cbn [key].
    destruct (decide (v = start)) as [->|Hne].
    - rewrite list_lookup_insert_eq by now rewrite length_replicate. reflexivity.
    - rewrite list_lookup_insert_ne by congruence.
      rewrite lookup_replicate_2 by assumption. reflexivity. }
  assert (Hout : forall v, (v < numPoints)%nat -> mstSet st0 !! v = Some false).
  { intros v Hv. unfold st0, primInitial. cbn [mstSet]. now apply lookup_replicate_2. }
  assert (Hpick : pickNextPoint numPoints st0 = Z.of_nat start).
  { destruct (pickNextPoint_spec numPoints st0)
      as [(_ & Hnone)|(u & -> & Hu & _ & Hless)].
    - exfalso. apply (Hnone start Hstart); [ now rewrite Hout | ].
      rewrite Hkey by assumption. rewrite decide_True by reflexivity. apply MAX_positive.
    - rewrite Hkey in Hless by assumption.
      destruct (decide (u = start)) as [->|_]; [ reflexivity | lra ]. }
  unfold primStep. fold st0. rewrite Hpick.
  destruct (Z.ltb_spec (Z.of_nat start) 0); [ lia | ]. rewrite Nat2Z.id.
  eexists. split; [ reflexivity | ].
  set (st1 := mkPrim (parent st0) (key st0) (<[start := true]> (mstSet st0))).
  destruct (@relaxNeighbours_spec exact numPoints D start st1)
    as (Hmst & Hparent & Hkeys & Hrelaxed).
  { unfold st1, st0, primInitial. cbn [parent]. now rewrite length_insert, length_replicate. }
  { unfold st1, st0, primInitial. cbn [key]. now rewrite length_insert, length_replicate. }
  assert (Hroot : mstSet st1 !! start = Some true).
  { unfold st1. cbn [mstSet]. apply list_lookup_insert_eq.
    unfold st0, primInitial. cbn [mstSet]. now rewrite length_replicate. }
  assert (Hothers : forall v, v <> start -> (v < numPoints)%nat -> mstSet st1 !! v = Some false).
  { intros v Hne Hv. unfold st1. cbn [mstSet]. rewrite list_lookup_insert_ne by congruence.
    now apply Hout. }
  unfold Grown. rewrite Hmst.
  split; [ exact Hparent | split; [ exact Hkeys | split; [ | split; [ | split ] ] ] ].
  - unfold st1, st0, primInitial. cbn [mstSet]. now rewrite length_insert, length_replicate.
  - unfold st1. cbn [mstSet]. rewrite treeSize_insert by now apply Hout.
    unfold st0, primInitial. cbn [mstSet]. now rewrite treeSize_replicate.
  - intros v Hv. cbn [Nat.sub Climbs]. rewrite Hmst.
    destruct (decide (v = start)) as [->|Hne]; [ split; [ exact Hroot | reflexivity ] | ].
    rewrite Hothers in Hv; [ discriminate | assumption | ].
    apply lookup_lt_Some in Hv. unfold st1, st0, primInitial in Hv. cbn [mstSet] in Hv.
    now rewrite length_insert, length_replicate in Hv.
  - intros v Hv.
    assert (Hne : v <> start) by (intros ->; rewrite Hroot in Hv; discriminate).
    assert (Hrange : (v < numPoints)%nat).
    { apply lookup_lt_Some in Hv. unfold st1, st0, primInitial in Hv. cbn [mstSet] in Hv.
      now rewrite length_insert, length_replicate in Hv. }
    specialize (Hrelaxed v Hrange).
    assert (Hfires : relaxes numPoints D start st1 v = true).
    { unfold relaxes. rewrite Hv. cbn [default from_option negb]. unfold Datatypes.id.
      change (key st1) with (key st0). rewrite Hkey by assumption.
      rewrite decide_False by assumption.
      destruct (Hbounded start v Hstart Hrange) as [Hlow Hhigh].
      reals. unfold Rleb, Rltb.
      destruct (Rle_dec 0 _); [ | contradiction ].
      destruct (Rlt_dec _ MAX); [ reflexivity | contradiction ]. }
    rewrite Hfires in Hrelaxed. destruct Hrelaxed as [Hup Hedge]. split.
    + unfold GetValue. reals. rewrite Hedge. cbn [default from_option]. unfold Datatypes.id.
      apply Hbounded; assumption.
    + exists start. split; assumption.
Qed.

Lemma primStep_Grown (k : nat) (st : @Prim exact) :
  (1 <= k < numPoints)%nat ->
  Grown numPoints start k st ->
  exists st', primStep numPoints D st = Some st' /\ Grown numPoints start (Datatypes.S k) st'.
Proof.
  intros Hk (Hparent & Hkeys & Hset & Hsize & Hin & Hout).
  destruct (treeSize_outside (mstSet st)) as [w Hw]; [ lia | ].
  assert (Hpick : exists u, pickNextPoint numPoints st = Z.of_nat u
                            /\ mstSet st !! u = Some false).
  { destruct (pickNextPoint_spec numPoints st)
      as [(_ & Hnone)|(u & Hu & Hrange & Houtside & _)].
    - exfalso. apply (Hnone w).
      + apply lookup_lt_Some in Hw. lia.
      + now rewrite Hw.
      + now apply Hout.
    - exists u. split; [ assumption | ].
      destruct (lookup_lt_is_Some_2 (mstSet st) u) as [b Hb]; [ lia | ].
      rewrite Hb in Houtside. cbn in Houtside. now subst b. }
  destruct Hpick as (u & Hpick & Hu).
  unfold primStep. rewrite Hpick.
  destruct (Z.ltb_spec (Z.of_nat u) 0); [ lia | ]. rewrite Nat2Z.id.
  eexists. split; [ reflexivity | ].
  set (st1 := mkPrim (parent st) (key st) (<[u := true]> (mstSet st))).
  destruct (@relaxNeighbours_spec exact numPoints D u st1 Hparent Hkeys)
    as (Hmst & Hparent' & Hkeys' & Hrelaxed).
  set (st' := relaxNeighbours numPoints D u st1) in *.
  assert (Hrange : (u < numPoints)%nat) by (apply lookup_lt_Some in Hu; lia).
  assert (Hpicked : mstSet st' !! u = Some true).
  { rewrite Hmst. unfold st1. cbn [mstSet]. apply list_lookup_insert_eq. lia. }
  assert (Hkept : forall v, mstSet st !! v = Some true ->
            mstSet st' !! v = Some true /\ parent st' !! v = parent st !! v).
  { intros v Hv.
    assert (Hne : v <> u) by (intros ->; rewrite Hu in Hv; discriminate).
    assert (Hv' : mstSet st1 !! v = Some true).
    { unfold st1. cbn [mstSet]. now rewrite list_lookup_insert_ne by congruence. }
    split; [ now rewrite Hmst | ].
    assert (Hvrange : (v < numPoints)%nat) by (apply lookup_lt_Some in Hv; lia).
    specialize (Hrelaxed v Hvrange). unfold relaxes in Hrelaxed.
    rewrite Hv' in Hrelaxed. cbn [default from_option negb] in Hrelaxed.
    unfold Datatypes.id in Hrelaxed. rewrite andb_false_r in Hrelaxed. cbn in Hrelaxed.
    apply Hrelaxed. }
  assert (Hself : parent st' !! u = parent st !! u).
  { specialize (Hrelaxed u Hrange). unfold relaxes in Hrelaxed.
    replace (mstSet st1 !! u) with (Some true) in Hrelaxed
      by (symmetry; unfold st1; cbn [mstSet]; apply list_lookup_insert_eq; lia).
    cbn [default from_option negb] in Hrelaxed.
    unfold Datatypes.id in Hrelaxed. rewrite andb_false_r in Hrelaxed. cbn in Hrelaxed.
    apply Hrelaxed. }
  unfold Grown.
  split; [ exact Hparent' | split; [ exact Hkeys' | split; [ | split; [ | split ] ] ] ].
  - rewrite Hmst. unfold st1. cbn [mstSet]. now rewrite length_insert.
  - rewrite Hmst. unfold st1. cbn [mstSet]. rewrite treeSize_insert by assumption. lia.
  - intros v Hv. replace (Datatypes.S k - 1)%nat with (Datatypes.S (k - 1)) by lia.
    destruct (decide (v = u)) as [->|Hne].
    + cbn [Climbs]. split; [ exact Hpicked | right ].
      destruct (Hout u Hu) as (_ & p & Hp & Hptree).
      exists p. split; [ now rewrite Hself | ].
      apply (Climbs_preserved st); [ exact Hkept | now apply Hin ].
    + assert (Hv' : mstSet st !! v = Some true).
      { rewrite Hmst in Hv. unfold st1 in Hv. cbn [mstSet] in Hv.
        now rewrite list_lookup_insert_ne in Hv by congruence. }
      apply (Climbs_le _ _ (k - 1)); [ lia | ].
      apply (Climbs_preserved st); [ exact Hkept | now apply Hin ].
  - intros v Hv.
    assert (Hne : v <> u) by (intros ->; rewrite Hpicked in Hv; discriminate).
    assert (Hv1 : mstSet st1 !! v = Some false) by now rewrite <- Hmst.
    assert (Hv0 : mstSet st !! v = Some false).
    { unfold st1 in Hv1. cbn [mstSet] in Hv1.
      now rewrite list_lookup_insert_ne in Hv1 by congruence. }
    assert (Hvrange : (v < numPoints)%nat) by (apply lookup_lt_Some in Hv0; lia).
    destruct (Hout v Hv0) as (Hless & p & Hp & Hptree).
    specialize (Hrelaxed v Hvrange).
    destruct (relaxes numPoints D u st1 v) eqn:Hfires.
    + destruct Hrelaxed as [Hup Hedge]. split.
      * unfold GetValue. reals. rewrite Hedge. cbn [default from_option]. unfold Datatypes.id.
        apply Hbounded; assumption.
      * exists u. split; assumption.
    + destruct Hrelaxed as [Hup Hedge]. split.
      * unfold GetValue in *. reals. rewrite Hedge. exact Hless.
      * exists p. split; [ now rewrite Hup | now apply Hkept ].
Qed.

Lemma primLoop_Grown (count k : nat) (st : @Prim exact) :
  (1 <= k)%nat -> (k + count <= numPoints)%nat ->
  Grown numPoints start k st ->
  exists tree, primLoop count numPoints D st = Some tree
               /\ Grown numPoints start (k + count) tree.
Proof.
  revert k st. induction count as [|count IH]; intros k st Hk Hcount Hst.
  - exists st. rewrite Nat.add_0_r. split; [ reflexivity | assumption ].
  - destruct (primStep_Grown k st) as (st' & Hstep & Hst'); [ lia | assumption | ].
    cbn [primLoop]. rewrite Hstep.
    replace (k + Datatypes.S count)%nat with (Datatypes.S k + count)%nat by lia.
    apply IH; [ lia | lia | assumption ].
Qed.

(** The loop of lines 818-852 runs to its end, and every vertex is then
    fewer than [numPoints] steps below the start vertex. *)
Lemma primLoop_total :
  (2 <= numPoints)%nat ->
  exists tree, primLoop (numPoints - 1) numPoints D (primInitial numPoints start) = Some tree
               /\ Rooted numPoints start tree
               /\ forall v, (v < numPoints)%nat -> Up (parent tree) start (numPoints - 1) v.
Proof.
  intros HN. destruct primStep_first as (st1 & Hfirst & Hst1).
  destruct (primLoop_Grown (numPoints - 2) 1 st1) as (tree & Hloop & Htree);
    [ lia | lia | assumption | ].
  assert (Hrun : primLoop (numPoints - 1) numPoints D (primInitial numPoints start) = Some tree).
  { replace (numPoints - 1)%nat with (Datatypes.S (numPoints - 2)) by lia.
    cbn [primLoop]. now rewrite Hfirst. }
  exists tree. split; [ exact Hrun | split ].
  - eapply primLoop_Rooted; [ exact Hstart | | exact Hrun ]. now apply primInitial_Rooted.
  - destruct Htree as (_ & _ & Hset & _ & Hin & Hout). intros v Hv.
    destruct (lookup_lt_is_Some_2 (mstSet tree) v) as [[|] Hb]; [ lia | | ].
    + apply (Up_le _ _ (1 + (numPoints - 2) - 1)); [ lia | ].
      apply (@Climbs_Up exact). now apply Hin.
    + destruct (Hout v Hb) as (_ & p & Hp & Hptree).
      replace (numPoints - 1)%nat with (Datatypes.S (1 + (numPoints - 2) - 1)) by lia.
      cbn [Up]. right. exists p. split; [ assumption | ].
      apply (@Climbs_Up exact). now apply Hin.
Qed.

End PrimTerminates.

Lemma trunkPath_total (d fuel : nat) (parent : list Z) (start v : nat) (pathIndices : list Z) :
  parent !! start = Some (-1)%Z ->
  Up parent start d v ->
  (d < fuel)%nat ->
  exists path, trunkPath fuel parent (Z.of_nat v) pathIndices = Some path.
Proof.
  intros Hroot. revert fuel v pathIndices.
  assert (Hstop : forall fuel acc,
            exists path, trunkPath (Datatypes.S fuel) parent (Z.of_nat start) acc = Some path).
  { intros fuel acc. cbn [trunkPath].
    destruct (Z.eqb_spec (Z.of_nat start) (-1)); [ lia | ].
    rewrite at_int_of_nat, Hroot. destruct fuel; cbn; eauto. }
  induction d as [|d IH]; intros fuel v acc Hup Hfuel.
  - cbn in Hup. subst v. destruct fuel as [|fuel]; [ lia | apply Hstop ].
  - destruct fuel as [|fuel]; [ lia | ].
    destruct Hup as [->|(u & Hu & Hup)]; [ apply Hstop | ].
    cbn [trunkPath]. destruct (Z.eqb_spec (Z.of_nat v) (-1)); [ lia | ].
    rewrite at_int_of_nat, Hu. apply IH; [ assumption | lia ].
Qed.

Lemma trunkPath_length (fuel : nat) (parent : list Z) (currentPathIndex : Z)
  (pathIndices path : list Z) :
  trunkPath fuel parent currentPathIndex pathIndices = Some path ->
  (length path <= length pathIndices + fuel)%nat.
Proof.
  revert currentPathIndex pathIndices.
  induction fuel as [|fuel IH]; intros c acc Hpath; cbn in Hpath;
    destruct (Z.eqb_spec c (-1)); try discriminate.
  - injection Hpath as <-. lia.
  - injection Hpath as <-. lia.
  - destruct (at_int parent c) as [up|]; [ | discriminate ].
    apply IH in Hpath. rewrite length_app in Hpath. cbn in Hpath. lia.
Qed.

(** The trunk path starts at the end vertex and stops at the start
    vertex, which it meets once. *)
Lemma trunkPath_ends (numPoints start finish fuel : nat) (tree : @Prim exact) (path : list Z) :
  (start < numPoints)%nat ->
  Rooted numPoints start tree ->
  trunkPath fuel (parent tree) (Z.of_nat finish) [] = Some path ->
  chain (parent tree) (Z.of_nat finish) path
  /\ (1 <= length path)%nat
  /\ path !! 0%nat = Some (Z.of_nat finish)
  /\ findAlongPath path (Z.of_nat start) = Some (length path - 1)%nat.
Proof.
  intros Hstart Hrooted Hpath.
  apply trunkPath_chain in Hpath as (walk & -> & Hchain). cbn [app].
  assert (Hhead : exists rest, walk = Z.of_nat finish :: rest).
  { destruct walk as [|index rest]; cbn in Hchain; [ lia | ].
    destruct Hchain as (-> & _). eauto. }
  destruct Hhead as (rest & Hwalk).
  assert (Hlength : length walk = Datatypes.S (length walk - 1)) by (rewrite Hwalk; cbn; lia).
  assert (Hlast : walk !! (length walk - 1)%nat = Some (Z.of_nat start)).
  { destruct (lookup_lt_is_Some_2 walk (length walk - 1)) as [final Hfinal]; [ lia | ].
    destruct (chain_lookup _ _ _ _ _ Hchain Hfinal) as (_ & up & Hup & Hnone & _).
    rewrite Hnone in Hup by (apply lookup_ge_None_2; lia).
    assert (final = Z.of_nat start) as -> by (eapply Rooted_root; eassumption).
    exact Hfinal. }
  assert (Hroot : at_int (parent tree) (Z.of_nat start) = Some (-1)%Z).
  { rewrite at_int_of_nat. now destruct Hrooted as (_ & -> & _). }
  split; [ exact Hchain | split; [ lia | split; [ now rewrite Hwalk | ] ] ].
  apply findAlongPath_first; [ exact Hlast | ].
  intros k x Hk Hx ->.
  destruct (lookup_lt_is_Some_2 walk (Datatypes.S k)) as [y Hy]; [ lia | ].
  destruct (chain_lookup _ _ _ _ _ Hchain Hx) as (_ & up & Hup & _ & Hnext).
  destruct (chain_lookup _ _ _ _ _ Hchain Hy) as (Hy1 & _).
  rewrite Hroot in Hup. injection Hup as <-. now rewrite <- (Hnext y Hy) in Hy1.
Qed.

Lemma findAlongPath_length (pathIndices : list Z) (currentIndex : Z) (j : nat) :
  findAlongPath pathIndices currentIndex = Some j -> (j < length pathIndices)%nat.
Proof. intros Hj. apply findAlongPath_lookup in Hj. now apply lookup_lt_Some in Hj. Qed.

Lemma indexAlongPath_total (d fuel : nat) (parent pathIndices : list Z) (start v : nat) :
  is_Some (findAlongPath pathIndices (Z.of_nat start)) ->
  Up parent start d v ->
  (d <= fuel)%nat ->
  exists j, indexAlongPath fuel parent pathIndices (Z.of_nat v) = Some j
            /\ (j < length pathIndices)%nat.
Proof.
  intros [j0 Hstart]. revert fuel v.
  assert (Hstop : forall fuel,
            exists j, indexAlongPath fuel parent pathIndices (Z.of_nat start) = Some j
                      /\ (j < length pathIndices)%nat).
  { intros fuel. exists j0. split; [ now apply indexAlongPath_found | ].
    now apply findAlongPath_length in Hstart. }
  induction d as [|d IH]; intros fuel v Hup Hfuel.
  - cbn in Hup. subst v. apply Hstop.
  - destruct Hup as [->|(u & Hu & Hup)]; [ apply Hstop | ].
    destruct (findAlongPath pathIndices (Z.of_nat v)) as [j|] eqn:Hfound.
    + exists j. split; [ now apply indexAlongPath_found | ].
      now apply findAlongPath_length in Hfound.
    + destruct fuel as [|fuel]; [ lia | ]. cbn [indexAlongPath]. rewrite Hfound.
      rewrite at_int_of_nat, Hu. apply IH; [ assumption | lia ].
Qed.

Section Assign.
Context {S : Scalar}.

Lemma assignParameters_total (vertices : list nat) (numPoints : nat)
  (parent pathIndices : list Z) (parameters array : vtkDoubleArray) :
  (forall v, v ∈ vertices ->
     exists j, indexAlongPath numPoints parent pathIndices (Z.of_nat v) = Some j
               /\ (j < length parameters)%nat) ->
  is_Some (assignParameters vertices numPoints parent pathIndices parameters array).
Proof.
  revert array. induction vertices as [|v rest IH]; intros array Hall; cbn; [ eauto | ].
  destruct (Hall v) as (j & -> & Hj); [ left | ].
  destruct (lookup_lt_is_Some_2 parameters j Hj) as [parameter ->].
  apply IH. intros w Hw. apply Hall. now right.
Qed.

End Assign.

Lemma length_pathParameters (numPoints : nat) (distances : list (@double exact))
  (pathIndices : list Z) (total : R) :
  length (@pathParameters exact numPoints distances pathIndices total)
  = Datatypes.S (length pathIndices - 1).
Proof. rewrite pathParameters_running. now rewrite length_map, length_seq. Qed.

(** X14. In exact arithmetic the spanning-tree parameterizer always
    comes back when there are two points or more and every distance
    between two points is below [VTK_DOUBLE_MAX]: the tree is built,
    the walks up the tree end, and no vector is indexed out of bounds.
    It then either assigned one parameter per point, or left the array
    as it was with the warning that the tree has length zero. *)
Theorem spanning_tree_parameterizer_returns (points : list (@Point exact))
  (prior : list (@double exact)) :
  (2 <= length points)%nat ->
  (forall u v, (u < length points)%nat -> (v < length points)%nat ->
     (@distance3D exact (GetPoint u points) (GetPoint v points) < MAX)%R) ->
  exists run,
    @ComputePointParametersFromMinimumSpanningTree exact (Some points) (Some prior) = Some run
    /\ ((completion run = ParametersAssigned
         /\ exists parameters, pointParametersAfter run = Some parameters
                               /\ length parameters = length points)
        \/ run = @mkParameterRun exact ReturnedEarly (Some prior)
                   [MinimumSpanningTreeHasDistanceZero]).
Proof.
  intros HN Hbounded. set (N := length points) in *.
  destruct (farthestPair_bounds points) as [Hstart Hend]; [ lia | ].
  set (pair := @farthestPair exact points) in *. fold N in Hstart, Hend.
  assert (Hgraph : forall u v, (u < N)%nat -> (v < N)%nat ->
            (0 <= @graph exact N (distances pair) u v < MAX)%R).
  { intros u v Hu Hv. unfold N, pair. rewrite (@graph_distance3D exact) by assumption.
    split; [ apply distance3D_nonnegative | now apply Hbounded ]. }
  destruct (primLoop_total N (treeStartIndex pair) (distances pair) Hstart Hgraph HN)
    as (tree & Hloop & Hrooted & Hup).
  destruct (trunkPath_total (N - 1) N (parent tree) (treeStartIndex pair) (treeEndIndex pair) [])
    as (path & Hpath); [ now destruct Hrooted as (_ & -> & _) | now apply Hup | lia | ].
  destruct (trunkPath_ends _ _ _ _ _ _ Hstart Hrooted Hpath) as (_ & Hlen & _ & Hfound).
  assert (Htrunk : minimumSpanningTreeTrunk points = Some (distances pair, parent tree, path)).
  { unfold minimumSpanningTreeTrunk. fold N pair. now rewrite Hloop, Hpath. }
  unfold ComputePointParametersFromMinimumSpanningTree.
  destruct (Z.ltb_spec (GetNumberOfPoints points) 2) as [Hfew|_];
    [ unfold GetNumberOfPoints in Hfew; lia | ].
  rewrite Htrunk. fold N.
  destruct (@deqb exact _ _); [ eexists; split; [ reflexivity | now right ] | ].
  destruct (if (0 <? GetNumberOfTuples prior)%Z
            then (removeTuples (length prior) prior, [AlreadyHasContents])
            else (prior, [])) as [cleared log] eqn:Hcleared.
  assert (Hempty : cleared = []).
  { unfold GetNumberOfTuples in Hcleared.
    destruct (Z.ltb_spec 0 (Z.of_nat (length prior))); injection Hcleared as <- <-.
    - apply (@removeTuples_clears exact).
    - destruct prior; [ reflexivity | cbn in *; lia ]. }
  subst cleared.
  match goal with
  | |- context [assignParameters ?vs ?n ?p ?path ?pp []] =>
      destruct (@assignParameters_total exact vs n p path pp []) as [array Harray]
  end.
  { intros v Hv. apply elem_of_seq in Hv.
    rewrite length_pathParameters.
    destruct (indexAlongPath_total (N - 1) N (parent tree) path (treeStartIndex pair) v)
      as (j & Hj & Hjlen); [ now rewrite Hfound | apply Hup; lia | lia | ].
    exists j. split; [ exact Hj | lia ]. }
  rewrite Harray. eexists. split; [ reflexivity | left ].
  split; [ reflexivity | ]. exists array. split; [ reflexivity | ].
  apply (@assignParameters_appends exact) in Harray as (entries & -> & Hentries & _).
  cbn [app]. now rewrite Hentries, length_seq.
Qed.

Lemma spanning_tree_parameterizer_returns_witness :
  (2 <= length (lineOfPoints (PR 0 0 0) (PR 1 0 0) 3))%nat
  /\ exists run,
       @ComputePointParametersFromMinimumSpanningTree exact
         (Some (lineOfPoints (PR 0 0 0) (PR 1 0 0) 3)) (Some []) = Some run.
Proof.
  assert (Hline : UnitSpaced (lineOfPoints (PR 0 0 0) (PR 1 0 0) 3)).
  { apply UnitSpaced_lineOfPoints. cbn. lra. }
  assert (Hcount : (2 <= length (lineOfPoints (PR 0 0 0) (PR 1 0 0) 3))%nat) by (cbn; lia).
  split; [ exact Hcount | ].
  destruct (spanning_tree_parameterizer_returns (lineOfPoints (PR 0 0 0) (PR 1 0 0) 3) [])
    as (run & Hrun & _).
  - exact Hcount.
  - intros u v Hu Hv. rewrite (Hline u v Hu Hv).
    apply Rle_lt_trans with (INR (3 - 1)).
    + apply gap_bound; [ exact Hu | exact Hv ].
    + apply int_below_VTK_DOUBLE_MAX. lia.
  - exists run. exact Hrun.
Defined.

Section Assigned.
Context {S : Scalar}.

Lemma relaxNeighbours_length (numPoints : nat) (D : list double) (u : nat) (st : Prim) :
  length (parent (relaxNeighbours numPoints D u st)) = length (parent st).
Proof.
  unfold relaxNeighbours.
  apply (foldl_invariant (fun st' : Prim => length (parent st') = length (parent st)));
    [ | reflexivity ].
  intros st' v Hst'. destruct (_ && _ && _); [ | exact Hst' ].
  cbn [parent]. now rewrite length_insert.
Qed.

Lemma primLoop_length (count numPoints : nat) (D : list double) (st tree : Prim) :
  primLoop count numPoints D st = Some tree -> length (parent tree) = length (parent st).
Proof.
  revert st. induction count as [|count IH]; intros st Hloop; cbn in Hloop.
  - now injection Hloop as <-.
  - unfold primStep in Hloop. destruct (_ <? 0)%Z; [ discriminate | ].
    apply IH in Hloop. now rewrite relaxNeighbours_length in Hloop.
Qed.

Lemma indexAlongPath_more_fuel (fuel : nat) (parent pathIndices : list Z)
  (currentIndex : Z) (j : nat) :
  indexAlongPath fuel parent pathIndices currentIndex = Some j ->
  indexAlongPath (Datatypes.S fuel) parent pathIndices currentIndex = Some j.
Proof.
  revert currentIndex. induction fuel as [|fuel IH]; intros c Hj.
  - cbn in Hj. cbn. destruct (findAlongPath pathIndices c); [ assumption | discriminate ].
  - cbn [indexAlongPath] in Hj. cbn [indexAlongPath].
    destruct (findAlongPath pathIndices c); [ assumption | ].
    destruct (at_int parent c) as [up|]; [ | discriminate ].
    apply IH in Hj. exact Hj.
Qed.

(** A run of the spanning-tree parameterizer that reaches its
    assignment loop: vertex [v] receives the path parameter at the
    position where its climb meets the path. *)
Lemma ComputePointParametersFromMinimumSpanningTree_assigned
  (points : vtkPoints) (prior : vtkDoubleArray) (run : ParameterRun) :
  ComputePointParametersFromMinimumSpanningTree (Some points) (Some prior) = Some run ->
  completion run = ParametersAssigned ->
  let N := length points in
  exists distances parent pathIndices parameters,
    minimumSpanningTreeTrunk points = Some (distances, parent, pathIndices)
    /\ pointParametersAfter run = Some parameters
    /\ length parameters = N
    /\ (2 <= N)%nat
    /\ forall v, (v < N)%nat ->
         exists j parameter,
           indexAlongPath N parent pathIndices (Z.of_nat v) = Some j
           /\ pathParameters N distances pathIndices
                (sumOfDistances N distances pathIndices) !! j = Some parameter
           /\ parameters !! v = Some parameter.
Proof.
  intros Hrun Hdone N.
  unfold ComputePointParametersFromMinimumSpanningTree in Hrun.
  destruct (Z.ltb_spec (GetNumberOfPoints points) 2) as [_|HN].
  { injection Hrun as <-. discriminate. }
  unfold GetNumberOfPoints in HN. fold N in HN, Hrun.
  destruct (minimumSpanningTreeTrunk points) as [[[distances parent] pathIndices]|];
    [ | discriminate ].
  exists distances, parent, pathIndices.
  destruct (_ =? zero)%D.
  { injection Hrun as <-. discriminate. }
  destruct (if (0 <? GetNumberOfTuples prior)%Z
            then (removeTuples (length prior) prior, [AlreadyHasContents])
            else (prior, [])) as [cleared log] eqn:Hcleared.
  assert (Hempty : cleared = []).
  { unfold GetNumberOfTuples in Hcleared.
    destruct (Z.ltb_spec 0 (Z.of_nat (length prior))); injection Hcleared as <- <-.
    - apply removeTuples_clears.
    - destruct prior; [ reflexivity | cbn in *; lia ]. }
  subst cleared.
  destruct (assignParameters _ _ _ _ _ _) as [array|] eqn:Hassign; [ | discriminate ].
  injection Hrun as <-. cbn [pointParametersAfter].
  apply assignParameters_appends in Hassign as (entries & -> & Hlen & Hentries).
  cbn [app]. exists entries. rewrite length_seq in Hlen.
  split; [ reflexivity | split; [ reflexivity | split; [ exact Hlen | split; [ lia | ] ] ] ].
  intros v Hv.
  destruct (Hentries v v) as (j & Hj & Hparameter); [ now apply lookup_seq_lt | ].
  destruct (lookup_lt_is_Some_2 entries v) as [parameter Hentry]; [ lia | ].
  exists j, parameter. split; [ exact Hj | ]. split; [ | exact Hentry ].
  now rewrite <- Hparameter.
Qed.

(** X15. Whenever the spanning-tree parameterizer assigns parameters, a
    point that is not on the trunk path has a parent in the tree, and it
    receives the parameter of that parent: a side branch carries the
    parameter of the trunk vertex it hangs from. *)
Theorem off_trunk_point_inherits_parent_parameter
  (points : vtkPoints) (prior : vtkDoubleArray) (run : ParameterRun) :
  ComputePointParametersFromMinimumSpanningTree (Some points) (Some prior) = Some run ->
  completion run = ParametersAssigned ->
  exists distances parent pathIndices parameters,
    minimumSpanningTreeTrunk points = Some (distances, parent, pathIndices)
    /\ pointParametersAfter run = Some parameters
    /\ forall v, (v < length points)%nat ->
         findAlongPath pathIndices (Z.of_nat v) = None ->
         exists u, (u < length points)%nat
                   /\ parent !! v = Some (Z.of_nat u)
                   /\ parameters !! v = parameters !! u.
Proof.
  intros Hrun Hdone.
  destruct (ComputePointParametersFromMinimumSpanningTree_assigned points prior run Hrun Hdone)
    as (D & up & walk & parameters & Htrunk & Hafter & Hlen & HN & Hall).
  exists D, up, walk, parameters.
  split; [ exact Htrunk | split; [ exact Hafter | ] ].
  set (N := length points) in *.
  (* the tree and the path *)
  unfold minimumSpanningTreeTrunk in Htrunk. fold N in Htrunk.
  destruct (primLoop _ _ _ _) as [tree|] eqn:Hloop; [ | discriminate ].
  destruct (trunkPath _ _ _ _) as [path|] eqn:Hpath; [ | discriminate ].
  injection Htrunk as <- <- <-.
  assert (Hparent : length (parent tree) = N).
  { apply primLoop_length in Hloop. rewrite Hloop. unfold primInitial. cbn [parent].
    now rewrite length_insert, length_replicate. }
  apply trunkPath_chain in Hpath as (trunk & -> & Hchain). cbn [app] in *.
  intros v Hv Hoff.
  destruct (Hall v Hv) as (j & parameter & Hj & Hpath & Hentry).
  destruct N as [|N']; [ lia | ]. cbn [indexAlongPath] in Hj. rewrite Hoff in Hj.
  rewrite at_int_of_nat in Hj.
  destruct (parent tree !! v) as [next|] eqn:Hup; [ | discriminate ].
  assert (Hrange : (0 <= next)%Z /\ (Z.to_nat next < Datatypes.S N')%nat).
  { assert (Hat : is_Some (at_int (parent tree) next)).
    { destruct N' as [|N'']; cbn [indexAlongPath] in Hj.
      - destruct (findAlongPath trunk next) as [k|] eqn:Hk; [ | discriminate ].
        apply findAlongPath_lookup in Hk.
        destruct (chain_lookup _ _ _ _ _ Hchain Hk) as (_ & above & -> & _). eauto.
      - destruct (findAlongPath trunk next) as [k|] eqn:Hk.
        + apply findAlongPath_lookup in Hk.
          destruct (chain_lookup _ _ _ _ _ Hchain Hk) as (_ & above & -> & _). eauto.
        + destruct (at_int (parent tree) next); [ eauto | discriminate ]. }
    destruct Hat as [above Hnext]. unfold at_int in Hnext.
    destruct (Z.ltb_spec next 0); [ discriminate | ].
    apply lookup_lt_Some in Hnext. lia. }
  exists (Z.to_nat next). split; [ lia | ]. rewrite Z2Nat.id by lia.
  split; [ reflexivity | ].
  destruct (Hall (Z.to_nat next)) as (j' & parameter' & Hj' & Hpath' & Hentry'); [ lia | ].
  rewrite Z2Nat.id in Hj' by lia.
  apply indexAlongPath_more_fuel in Hj. rewrite Hj in Hj'. injection Hj' as <-.
  rewrite Hentry, Hentry'. congruence.
Qed.

End Assigned.

Lemma graph_nonnegative (points : list (@Point exact)) (v u : nat) :
  (0 <= @graph exact (length points) (distances (farthestPair points)) v u)%R.
Proof.
  unfold graph, GetValue.
  destruct (@farthestPair_distances exact points) as [Hlen Hentries].
  set (N := length points) in *.
  destruct (distances (farthestPair points) !! (v * N + u)%nat) as [x|] eqn:Hx;
    [ | cbn; reals; lra ].
  cbn [default from_option]. unfold Datatypes.id.
  assert (Hslot : (v * N + u < N * N)%nat) by (apply lookup_lt_Some in Hx; lia).
  assert (HN : (0 < N)%nat) by nia.
  assert (Hrow : ((v * N + u) / N < N)%nat) by (apply Nat.Div0.div_lt_upper_bound; lia).
  assert (Hcolumn : ((v * N + u) mod N < N)%nat) by (apply Nat.mod_upper_bound; lia).
  specialize (Hentries _ _ Hrow Hcolumn).
  replace ((v * N + u) / N * N + (v * N + u) mod N)%nat with (v * N + u)%nat in Hentries
    by (rewrite (Nat.div_mod_eq (v * N + u) N) at 1; lia).
  rewrite Hx in Hentries. injection Hentries as ->. apply distance3D_nonnegative.
Qed.

Lemma runningDistance_increases (numPoints : nat) (D : list (@double exact)) (j j' : nat) :
  (forall i, 0 <= @graph exact numPoints D i (i + 1))%R ->
  (j <= j')%nat ->
  (0 <= runningDistance numPoints D j <= runningDistance numPoints D j')%R.
Proof.
  intros Hpositive Hle.
  assert (Hzero : forall n, (0 <= runningDistance numPoints D n)%R).
  { induction n as [|n IH]; [ unfold runningDistance; cbn; reals; lra | ].
    rewrite runningDistance_S. specialize (Hpositive n). lra. }
  split; [ apply Hzero | ].
  induction Hle as [|j' Hle IH]; [ lra | ].
  rewrite runningDistance_S. specialize (Hpositive j'). lra.
Qed.

(** X16. In exact arithmetic, every parameter the spanning-tree
    parameterizer assigns lies between 0 and 1, and there is one per
    point. *)
Theorem spanning_tree_parameters_in_unit_interval (points : list (@Point exact))
  (prior : list (@double exact)) (run : @ParameterRun exact) :
  @ComputePointParametersFromMinimumSpanningTree exact (Some points) (Some prior) = Some run ->
  completion run = ParametersAssigned ->
  exists parameters : list R,
    pointParametersAfter run = Some parameters
    /\ length parameters = length points
    /\ forall v x, parameters !! v = Some x -> (0 <= x <= 1)%R.
Proof.
  intros Hrun Hdone.
  destruct (ComputePointParametersFromMinimumSpanningTree_trunk points prior run Hrun Hdone)
    as (D & up & pathIndices & parameters' & Htrunk & _ & _ & _ & _ & Htotal & _).
  destruct (@ComputePointParametersFromMinimumSpanningTree_assigned exact points prior run
              Hrun Hdone)
    as (D' & up' & pathIndices' & parameters & Htrunk' & Hafter & Hlen & HN & Hall).
  rewrite Htrunk in Htrunk'. injection Htrunk' as <- <- <-.
  exists parameters. split; [ exact Hafter | split; [ exact Hlen | ] ].
  intros v x Hx.
  assert (Hv : (v < length points)%nat) by (apply lookup_lt_Some in Hx; reals; lia).
  destruct (Hall v Hv) as (j & parameter & _ & Hpath & Hentry).
  assert (parameter = x) as -> by (reals; congruence).
  rewrite pathParameters_running in Hpath.
  change (map ?f ?l) with (f <$> l) in Hpath. rewrite list_lookup_fmap in Hpath.
  destruct (seq 0 (Datatypes.S (length pathIndices - 1)) !! j) as [j'|] eqn:Hj;
    [ | discriminate ].
  apply lookup_seq in Hj as [-> Hj].
  cbn [fmap option_fmap option_map Nat.add] in Hpath. injection Hpath as <-.
  assert (Hdistances : D = distances (farthestPair points)).
  { unfold minimumSpanningTreeTrunk in Htrunk.
    destruct (primLoop _ _ _ _); [ | discriminate ].
    destruct (trunkPath _ _ _ _); [ | discriminate ]. now injection Htrunk as <- _ _. }
  change (sumOfDistances (length points) D pathIndices)
    with (runningDistance (length points) D (length pathIndices - 1)).
  destruct (runningDistance_increases (length points) D j (length pathIndices - 1))
    as [Hlow Hhigh]; [ intros i; rewrite Hdistances; apply graph_nonnegative | lia | ].
  set (total := runningDistance (length points) D (length pathIndices - 1)) in *.
  set (part := runningDistance (length points) D j) in *.
  assert (Hpositive : (0 < total)%R) by lra.
  split.
  - apply Rmult_le_pos; [ exact Hlow | left; now apply Rinv_0_lt_compat ].
  - apply (Rmult_le_reg_r total); [ exact Hpositive | ].
    unfold Rdiv. rewrite Rmult_assoc, Rinv_l by lra. lra.
Qed.

(** X17. In exact arithmetic, when all the points coincide (two points
    or more) the spanning-tree parameterizer finds a tree of length zero:
    it warns, assigns nothing and leaves the array as it was. *)
Theorem coincident_points_have_no_parameters (points : list (@Point exact))
  (prior : list (@double exact)) (point : @Point exact) :
  (2 <= length points)%nat ->
  (forall v, (v < length points)%nat -> points !! v = Some point) ->
  @ComputePointParametersFromMinimumSpanningTree exact (Some points) (Some prior)
  = Some (@mkParameterRun exact ReturnedEarly (Some prior) [MinimumSpanningTreeHasDistanceZero]).
Proof.
  intros HN Hsame. set (N := length points) in *.
  assert (Hzero : forall u v, (u < N)%nat -> (v < N)%nat ->
            @distance3D exact (GetPoint u points) (GetPoint v points) = 0%R).
  { intros u v Hu Hv. unfold GetPoint. rewrite !Hsame by assumption. apply distance3D_self. }
  destruct (farthestPair_bounds points) as [Hstart Hend]; [ lia | ].
  set (pair := @farthestPair exact points) in *. fold N in Hstart, Hend.
  assert (Hgraph : forall u v, (u < N)%nat -> (v < N)%nat ->
            @graph exact N (distances pair) u v = 0%R).
  { intros u v Hu Hv. unfold N, pair. rewrite (@graph_distance3D exact) by assumption.
    now apply Hzero. }
  destruct (primLoop_total N (treeStartIndex pair) (distances pair) Hstart) as
    (tree & Hloop & Hrooted & Hup).
  { intros u v Hu Hv. rewrite Hgraph by assumption. pose proof MAX_positive. lra. }
  { exact HN. }
  destruct (trunkPath_total (N - 1) N (parent tree) (treeStartIndex pair) (treeEndIndex pair) [])
    as (path & Hpath); [ now destruct Hrooted as (_ & -> & _) | now apply Hup | lia | ].
  assert (Hlength : (length path <= N)%nat) by (apply trunkPath_length in Hpath; cbn in Hpath; lia).
  unfold ComputePointParametersFromMinimumSpanningTree.
  destruct (Z.ltb_spec (GetNumberOfPoints points) 2) as [Hfew|_];
    [ unfold GetNumberOfPoints in Hfew; lia | ].
  unfold minimumSpanningTreeTrunk. fold N pair. rewrite Hloop, Hpath.
  assert (Hsum : @sumOfDistances exact N (distances pair) path = 0%R).
  { unfold sumOfDistances.
    apply (foldl_seq_invariant (fun (_ : nat) (sum : R) => sum = 0%R)); [ reflexivity | ].
    intros i sum Hi ->. rewrite Hgraph by lia. reals. lra. }
  rewrite Hsum. reals. unfold Reqb. destruct (Req_dec_T 0 0); [ reflexivity | contradiction ].
Qed.

(** X18. In exact arithmetic, with two points or more and every distance
    between two points below [VTK_DOUBLE_MAX], the loop of Prim's
    algorithm leaves a tree rooted at the start vertex: the start vertex
    has parent [-1] and every vertex reaches it by parent pointers in
    fewer than [N] steps.  The trunk path is the walk up this tree from
    the end vertex; it stops at the start vertex and has at most [N]
    vertices. *)
Theorem spanning_tree_is_rooted_at_start (points : list (@Point exact)) :
  (2 <= length points)%nat ->
  (forall u v, (u < length points)%nat -> (v < length points)%nat ->
     (@distance3D exact (GetPoint u points) (GetPoint v points) < MAX)%R) ->
  let N := length points in
  let startVertex := treeStartIndex (@farthestPair exact points) in
  let endVertex := treeEndIndex (@farthestPair exact points) in
  exists (distances : list (@double exact)) (parent pathIndices : list Z),
    @minimumSpanningTreeTrunk exact points = Some (distances, parent, pathIndices)
    /\ parent !! startVertex = Some (-1)%Z
    /\ (forall v, (v < N)%nat -> Up parent startVertex (N - 1) v)
    /\ chain parent (Z.of_nat endVertex) pathIndices
    /\ head pathIndices = Some (Z.of_nat endVertex)
    /\ last pathIndices = Some (Z.of_nat startVertex)
    /\ (length pathIndices <= N)%nat.
Proof.
  intros HN Hbounded N startVertex endVertex.
  destruct (farthestPair_bounds points) as [Hstart Hend]; [ lia | ].
  set (pair := @farthestPair exact points) in *. fold N startVertex endVertex in Hstart, Hend.
  assert (Hgraph : forall u v, (u < N)%nat -> (v < N)%nat ->
            (0 <= @graph exact N (distances pair) u v < MAX)%R).
  { intros u v Hu Hv. unfold N, pair. rewrite (@graph_distance3D exact) by assumption.
    split; [ apply distance3D_nonnegative | now apply Hbounded ]. }
  destruct (primLoop_total N startVertex (distances pair) Hstart Hgraph HN)
    as (tree & Hloop & Hrooted & Hup).
  destruct (trunkPath_total (N - 1) N (parent tree) startVertex endVertex [])
    as (path & Hpath); [ now destruct Hrooted as (_ & -> & _) | now apply Hup | lia | ].
  destruct (trunkPath_ends _ _ _ _ _ _ Hstart Hrooted Hpath) as (Hchain & Hlen & Hhead & Hfound).
  exists (distances pair), (parent tree), path.
  split; [ unfold minimumSpanningTreeTrunk; fold N pair startVertex endVertex;
           now rewrite Hloop, Hpath | ].
  split; [ now destruct Hrooted as (_ & -> & _) | split; [ exact Hup | ] ].
  split; [ exact Hchain | split; [ now rewrite head_lookup | split ] ].
  - apply findAlongPath_lookup in Hfound. rewrite last_lookup.
    now replace (pred (length path)) with (length path - 1)%nat by lia.
  - apply trunkPath_length in Hpath. cbn in Hpath. lia.
Qed.

Lemma off_trunk_point_inherits_parent_parameter_witness :
  exists distances parameters,
    @minimumSpanningTreeTrunk binary64 [P64 0 0 0; P64 10 0 0; P64 5 0 0; P64 5 3 0]
    = Some (distances, [-1; 2; 0; 2]%Z, [1; 2; 0]%Z)
    /\ @ComputePointParametersFromMinimumSpanningTree binary64
         (Some [P64 0 0 0; P64 10 0 0; P64 5 0 0; P64 5 3 0]) (Some [])
       = Some (mkParameterRun ParametersAssigned (Some parameters) [])
    /\ parameters !! 3%nat = parameters !! 2%nat.
Proof.
  assert (Hrun : @ComputePointParametersFromMinimumSpanningTree binary64
                   (Some [P64 0 0 0; P64 10 0 0; P64 5 0 0; P64 5 3 0]) (Some [])
                 = Some (mkParameterRun ParametersAssigned
                           (Some [of_int 1; of_int 0; (of_int 10 / of_int 15)%D;
                                  (of_int 10 / of_int 15)%D]) []))
    by (vm_compute; reflexivity).
  destruct (@off_trunk_point_inherits_parent_parameter binary64
              [P64 0 0 0; P64 10 0 0; P64 5 0 0; P64 5 3 0] [] _ Hrun eq_refl)
    as (distances & parent & pathIndices & parameters & Htrunk & Hafter & Hoff).
  assert (Hshape : exists D, @minimumSpanningTreeTrunk binary64
                     [P64 0 0 0; P64 10 0 0; P64 5 0 0; P64 5 3 0]
                   = Some (D, [-1; 2; 0; 2]%Z, [1; 2; 0]%Z)).
  { eexists. vm_compute. reflexivity. }
  destruct Hshape as [D HD]. rewrite HD in Htrunk. injection Htrunk as <- <- <-.
  cbn [pointParametersAfter] in Hafter. injection Hafter as <-.
  eexists _, _. split; [ exact HD | split; [ exact Hrun | ] ].
  destruct (Hoff 3%nat) as (u & _ & Hparent & Hsame); [ cbn; lia | reflexivity | ].
  cbn in Hparent. injection Hparent as Hu.
  assert (u = 2%nat) as -> by lia. exact Hsame.
Defined.

Lemma spanning_tree_parameters_in_unit_interval_witness :
  exists parameters : list (@double exact),
    @ComputePointParametersFromMinimumSpanningTree exact
      (Some (lineOfPoints (PR 0 0 0) (PR 1 0 0) 3)) (Some [])
    = Some (@mkParameterRun exact ParametersAssigned (Some parameters) [])
    /\ length parameters = 3%nat
    /\ forall v x, parameters !! v = Some x -> (0 <= x <= 1)%R.
Proof.
  assert (Hline : UnitSpaced (lineOfPoints (PR 0 0 0) (PR 1 0 0) 3)).
  { apply UnitSpaced_lineOfPoints. cbn. lra. }
  destruct (ComputePointParametersFromMinimumSpanningTree_line
              (lineOfPoints (PR 0 0 0) (PR 1 0 0) 3) [] Hline) as (_ & _ & Hrun);
    [ cbn; lia | cbn; lia | ].
  destruct (spanning_tree_parameters_in_unit_interval _ _ _ Hrun eq_refl)
    as (parameters & Hafter & Hlen & Hunit).
  cbn [pointParametersAfter] in Hafter. injection Hafter as <-.
  eexists. split; [ exact Hrun | split; [ exact Hlen | exact Hunit ] ].
Defined.

Lemma coincident_points_have_no_parameters_witness :
  (2 <= length [PR 1 2 3; PR 1 2 3])%nat
  /\ @ComputePointParametersFromMinimumSpanningTree exact
       (Some [PR 1 2 3; PR 1 2 3]) (Some [5%R : @double exact])
     = Some (@mkParameterRun exact ReturnedEarly (Some [5%R : @double exact])
               [MinimumSpanningTreeHasDistanceZero]).
Proof.
  split; [ cbn; lia | ].
  apply (coincident_points_have_no_parameters [PR 1 2 3; PR 1 2 3] [5%R : @double exact]
           (PR 1 2 3)); [ cbn; lia | ].
  intros [|[|v]] Hv; [ reflexivity | reflexivity | cbn in Hv; lia ].
Defined.

Lemma spanning_tree_is_rooted_at_start_witness :
  (2 <= length (lineOfPoints (PR 0 0 0) (PR 1 0 0) 3))%nat
  /\ exists (distances : list (@double exact)) (parent pathIndices : list Z),
       @minimumSpanningTreeTrunk exact (lineOfPoints (PR 0 0 0) (PR 1 0 0) 3)
       = Some (distances, parent, pathIndices)
       /\ (length pathIndices <= 3)%nat.
Proof.
  assert (Hline : UnitSpaced (lineOfPoints (PR 0 0 0) (PR 1 0 0) 3)).
  { apply UnitSpaced_lineOfPoints. cbn. lra. }
  assert (Hcount : (2 <= length (lineOfPoints (PR 0 0 0) (PR 1 0 0) 3))%nat) by (cbn; lia).
  split; [ exact Hcount | ].
  destruct (spanning_tree_is_rooted_at_start (lineOfPoints (PR 0 0 0) (PR 1 0 0) 3))
    as (distances & parent & pathIndices & Htrunk & _ & _ & _ & _ & _ & Hlength).
  - exact Hcount.
  - intros u v Hu Hv. rewrite (Hline u v Hu Hv).
    apply Rle_lt_trans with (INR (3 - 1)).
    + apply gap_bound; [ exact Hu | exact Hv ].
    + apply int_below_VTK_DOUBLE_MAX. lia.
  - exists distances, parent, pathIndices. split; [ exact Htrunk | exact Hlength ].
Defined.

(** * The parameterizers feeding the polynomial generator *)

Section Composition.
Context {S : Scalar} {C : Collaborators}.

(** X19. The parameterizers and the polynomial generator fit together:
    from three points on, an array that either parameterizer has
    assigned for the same points has one entry per point, so the
    polynomial generator accepts it and goes on to the fit with it,
    without a warning about the array. *)
Theorem assigned_parameters_are_accepted (points : vtkPoints) (mesh : vtkPolyData)
  (prior : vtkDoubleArray) (tubeRadius : double) (tubeNumberOfSides segments : Z)
  (tubeLoop : bool) (polynomialOrder : Z) :
  (3 <= length points)%nat ->
  let generate := GeneratePolynomialCurveModel (Some points) (Some mesh) tubeRadius
                    tubeNumberOfSides segments tubeLoop polynomialOrder in
  let fit := fitPolynomialCurve points (Some mesh) tubeRadius tubeNumberOfSides segments
               polynomialOrder in
  (exists parameters,
     pointParametersAfter (ComputePointParametersFromIndices (Some points) (Some prior))
     = Some parameters
     /\ generate (Some parameters) = fit parameters [])
  /\ (forall run,
        ComputePointParametersFromMinimumSpanningTree (Some points) (Some prior) = Some run ->
        completion run = ParametersAssigned ->
        exists parameters,
          pointParametersAfter run = Some parameters
          /\ generate (Some parameters) = fit parameters []).
Proof.
  intros HN generate fit. subst generate fit. split.
  - rewrite ComputePointParametersFromIndices_run by lia. cbn [pointParametersAfter].
    eexists. split; [ reflexivity | ].
    apply GeneratePolynomialCurveModel_fit; [ assumption | right ].
    split; [ reflexivity | apply length_indexParameters ].
  - intros run Hrun Hdone.
    destruct (ComputePointParametersFromMinimumSpanningTree_assigned points prior run Hrun Hdone)
      as (_ & _ & _ & parameters & _ & Hafter & Hlen & _).
    exists parameters. split; [ exact Hafter | ].
    apply GeneratePolynomialCurveModel_fit; [ assumption | right ].
    split; [ reflexivity | exact Hlen ].
Qed.

End Composition.

Lemma assigned_parameters_are_accepted_witness :
  (3 <= length [P64 0 0 0; P64 10 0 0; P64 1 0 0])%nat
  /\ exists parameters,
       @ComputePointParametersFromMinimumSpanningTree binary64
         (Some [P64 0 0 0; P64 10 0 0; P64 1 0 0]) (Some [])
       = Some (mkParameterRun ParametersAssigned (Some parameters) [])
       /\ @GeneratePolynomialCurveModel binary64 standInCollaborators
            (Some [P64 0 0 0; P64 10 0 0; P64 1 0 0]) (Some PolyDataInitialized)
            (of_int 1) 8 5 false 2 (Some parameters)
          = @fitPolynomialCurve binary64 standInCollaborators
              [P64 0 0 0; P64 10 0 0; P64 1 0 0] (Some PolyDataInitialized)
              (of_int 1) 8 5 2 parameters [].
Proof.
  split; [ cbn; lia | ].
  assert (Hrun : @ComputePointParametersFromMinimumSpanningTree binary64
                   (Some [P64 0 0 0; P64 10 0 0; P64 1 0 0]) (Some [])
                 = Some (mkParameterRun ParametersAssigned
                           (Some [of_int 1; of_int 0; (of_int 10 / of_int 19)%D]) []))
    by (vm_compute; reflexivity).
  destruct (@assigned_parameters_are_accepted binary64 standInCollaborators
              [P64 0 0 0; P64 10 0 0; P64 1 0 0] PolyDataInitialized [] (of_int 1) 8 5 false 2)
    as [_ Hmst]; [ cbn; lia | ].
  destruct (Hmst _ Hrun eq_refl) as (parameters & Hafter & Haccepted).
  cbn [pointParametersAfter] in Hafter. injection Hafter as <-.
  eexists. split; [ exact Hrun | exact Haccepted ].
Defined.
